(** * lolisafe upload controller: a shallow embedding and its properties

    The definitions below follow [src/controllers/uploadController.js]
    function by function.  JavaScript values are modelled as follows:
    - strings are [string] (the ASCII fragment; [toLowerCase] and
      [toUpperCase] act on ASCII letters);
    - sizes, epoch times and identifiers of rows are [Z];
    - retention ages (hours, possibly fractional) are exact rationals [Qc],
      [None] standing for [null]/[undefined];
    - objects used as dictionaries are [gmap], the identifier cache is a
      [gset];
    - the file system is a finite map from paths to contents. *)

From Stdlib Require Import ZArith QArith Qcanon Ascii String.
From stdpp Require Import base gmap sets list strings pretty sorting numbers.

Local Open Scope string_scope.
Local Open Scope Z_scope.

(** ** JavaScript string helpers *)

Definition ascii_lower (c : ascii) : ascii :=
  let n := nat_of_ascii c in
  if ((65 <=? n) && (n <=? 90))%nat then ascii_of_nat (n + 32) else c.

Definition ascii_upper (c : ascii) : ascii :=
  let n := nat_of_ascii c in
  if ((97 <=? n) && (n <=? 122))%nat then ascii_of_nat (n - 32) else c.

Fixpoint toLowerCase (s : string) : string :=
  match s with
  | EmptyString => EmptyString
  | String c r => String (ascii_lower c) (toLowerCase r)
  end.

Fixpoint toUpperCase (s : string) : string :=
  match s with
  | EmptyString => EmptyString
  | String c r => String (ascii_upper c) (toUpperCase r)
  end.

(** [s.substr(1)] *)
Definition substr1 (s : string) : string :=
  match s with
  | EmptyString => EmptyString
  | String _ r => r
  end.

(** Truthiness of a string: only the empty string is falsy. *)
Definition str_truthy (s : string) : bool :=
  match s with
  | EmptyString => false
  | String _ _ => true
  end.

(** Truthiness of a nullable number: [null], [undefined] and [0] are falsy. *)
Definition num_truthy (a : option Qc) : bool :=
  match a with
  | Some q => negb (bool_decide (q = Qc_of_Z 0))
  | None => false
  end.

(** [arr.includes(x)] on an array of numbers. *)
Definition includes_num (x : Qc) (arr : list Qc) : bool :=
  existsb (fun a => bool_decide (a = x)) arr.

(** [arr.includes(x)] on an array of strings. *)
Definition includes_str (x : string) (arr : list string) : bool :=
  existsb (String.eqb x) arr.

(** ** Deployment configuration

    Only the fields read by the modelled functions.  A configured value that
    is not an array is represented by the empty list: the controller only
    ever uses such a field behind [Array.isArray(x) && x.length]. *)

(** [config.uploads.fileIdentifierLength]; an absent or non-numeric bound is
    [None].  The entry as a whole is [None] in [Config] when it is falsy but
    neither [null] nor [undefined] ([false], [0]): those two make the module
    throw when it is loaded, reading [force] of them. *)
Record FileIdentifierLength := {
  fil_min : option Z;
  fil_max : option Z;
  fil_default : option Z;
  fil_force : bool
}.

Record Config := {
  filterNoExtension : bool;
  extensionsFilter : list string;
  extensionsFilterMode : string;
  temporaryUploadAges : list Qc;
  cacheFileIdentifiers : bool;
  filterEmptyFile : bool;
  storeIP : bool;            (* [config.uploads.storeIP !== false] *)
  maxSize : Z;               (* [parseInt(config.uploads.maxSize)], in MB *)
  chunkSize : bool;          (* [Boolean(config.uploads.chunkSize)] *)
  fileIdentifierLength : option FileIdentifierLength;
  domain : string
}.

(** [const extensionsFilter = Array.isArray(..) && config.extensionsFilter.length] *)
Definition extensionsFilter_on (cfg : Config) : bool :=
  negb (Nat.eqb (List.length (extensionsFilter cfg)) 0).

(** [const temporaryUploads = Array.isArray(..) && ...temporaryUploadAges.length] *)
Definition temporaryUploads (cfg : Config) : bool :=
  negb (Nat.eqb (List.length (temporaryUploadAges cfg)) 0).

Definition maxSizeBytes (cfg : Config) : Z := maxSize cfg * 1000000.
Definition maxChunksCount (cfg : Config) : Z := maxSize cfg.

(** ** Extension policy: [self.isExtensionFiltered] *)

(** [config.extensionsFilter.some(extension => extname === extension.toLowerCase())] *)
Definition extension_match (cfg : Config) (extname : string) : bool :=
  existsb (fun extension => String.eqb extname (toLowerCase extension))
          (extensionsFilter cfg).

Definition isExtensionFiltered (cfg : Config) (extname : string) : bool :=
  if negb (str_truthy extname) && filterNoExtension cfg then true
  else if str_truthy extname && extensionsFilter_on cfg then
    let matched := extension_match cfg extname in
    let whitelist := String.eqb (extensionsFilterMode cfg) "whitelist" in
    if (negb whitelist && matched) || (whitelist && negb matched) then true
    else false
  else false.

(** The message thrown for a filtered extension. *)
Definition notPermitted (extname : string) : string :=
  (if str_truthy extname then toUpperCase (substr1 extname) +:+ " files"
   else "Files with no extension") +:+ " are not permitted.".

(** ** External collaborators

    Everything the controller obtains from other modules ([utils], [paths],
    [randomstring], [crypto]) or from JavaScript builtins, none of which is
    part of the controller's source. *)

Record User := { u_id : Z; u_username : string }.

(** The [age] carried by a file descriptor: [null]/[undefined], a number
    (what [self.parseUploadAge] resolved), or a request value that was never
    parsed (chunk finalisation with temporary uploads disabled). *)
Inductive JsAge : Type :=
| AgeNull
| AgeNum (q : Qc)
| AgeRaw (s : string).

Definition age_of_option (a : option Qc) : JsAge :=
  match a with
  | Some q => AgeNum q
  | None => AgeNull
  end.

Record FileData := {
  filename : string;
  originalname : string;
  extname : string;
  mimetype : string;
  size : Z;
  albumid : option Z;
  age : JsAge
}.

(** One entry of [infoMap]. *)
Record Info := { path : string; data : FileData }.

Record Host := {
  (** [parseFloat]; [None] is [NaN]. *)
  parseFloat : string -> option Qc;
  (** [parseInt]; [None] is [NaN]. *)
  parseInt : string -> option Z;
  (** [ToNumber] of a body field holding a whole number, as coerced by
      [totalchunkcount - 1]; [None] is [NaN]. *)
  toNumber : string -> option Z;
  (** [ToNumber] of an arbitrary string, as coerced by [age * 3600];
      [None] is [NaN]. *)
  toNumberQ : string -> option Qc;
  (** [crypto.createHash('md5')] over the content of a file, as hex. *)
  md5 : list Byte.byte -> string;
  (** [randomstring.generate(length)]: the result of the [n]-th call made
      by this process. *)
  generate : nat -> nat -> string;
  (** [utils.idMaxTries] *)
  idMaxTries : nat;
  (** [utils.extname] *)
  utils_extname : string -> string;
  (** [paths.uploads] and [paths.chunks] *)
  uploadsDir : string;
  chunksDir : string;
  (** [utils.timezoneOffset], in minutes *)
  timezoneOffset : Z;
  (** Whether a plain object has a property of that name without one being
      set: the names it inherits from [Object.prototype] ([constructor],
      [__proto__], [toString], ...).  [chunksData] is such an object. *)
  inheritedKey : string -> bool;
  (** The text of [`${n - 1}`] for a number [n] beyond the safe integers,
      where the subtraction rounds and, from 1e21 on, the text is in
      exponent notation. *)
  unsafeMinusOneText : Z -> string;
  (** What [self.scanFiles] resolves to: [None] when [utils.clamd.scanner]
      is unset or nothing is found, [Some msg] for a threat or a scanner
      failure.  The verdict belongs to the external scanner. *)
  scanVerdict : option User -> list Info -> option string;
  (** The error thrown by [utils.stripTags] for a batch, if any, when
      [self.parseStripTags] of the request's [striptags] header asks for
      stripping; [None] when stripping is off or succeeds. *)
  stripTagsError : option string -> list Info -> option string
}.

(** [path.join(dir, name)] for a plain file name. *)
Definition path_join (dir name : string) : string := dir +:+ "/" +:+ name.

(** ** Retention age: [self.parseUploadAge] and its use in [self.upload] *)

Definition parseUploadAge (h : Host) (cfg : Config) (age : option string)
  : option Qc :=
  match age with
  | None => head (temporaryUploadAges cfg)
  | Some a =>
      match parseFloat h a with
      | Some parsed =>
          if includes_num parsed (temporaryUploadAges cfg) then Some parsed
          else None
      | None => None
      end
  end.

Definition permanentNotPermitted : string :=
  "Permanent uploads are not permitted.".

(** [!age && !config.uploads.temporaryUploadAges.includes(0)] *)
Definition age_rejected (cfg : Config) (age : option Qc) : bool :=
  negb (num_truthy age)
  && negb (includes_num (Qc_of_Z 0) (temporaryUploadAges cfg)).

(** Lines 214-219 of [self.upload]: [inl] is the description of the
    rejection sent to the client, [inr] is the age handed to the rest of the
    upload. *)
Definition upload_age (h : Host) (cfg : Config) (header_age : option string)
  : string + option Qc :=
  if temporaryUploads cfg then
    let age := parseUploadAge h cfg header_age in
    if age_rejected cfg age then inl permanentNotPermitted else inr age
  else inr None.

(** ** Process and store state *)

(** One entry of [chunksData]. *)
Record ChunkSession := {
  root : string;
  chunks : list string;
  csize : Z
}.

(** A row of the [files] table (the store-assigned [id] is left out). *)
Record FileRow := {
  f_name : string;
  f_original : string;
  f_type : string;
  f_size : Z;
  f_hash : string;
  f_ip : option string;
  f_timestamp : Z;
  f_userid : option Z;
  f_albumid : option Z;
  f_expirydate : option Qc
}.

(** A row of the [albums] table. *)
Record AlbumRow := { a_id : Z; a_userid : Z; a_editedAt : Z }.

Record State := {
  chunksData : gmap string ChunkSession;
  disk : gmap string (list Byte.byte);   (* path -> content *)
  idSet : gset string;                   (* [utils.idSet] *)
  draws : nat;                           (* calls to [randomstring.generate] so far *)
  files_table : list FileRow;
  albums_table : list AlbumRow
}.

Definition set_chunksData (f : gmap string ChunkSession -> gmap string ChunkSession)
  (st : State) : State :=
  {| chunksData := f (chunksData st); disk := disk st; idSet := idSet st;
     draws := draws st; files_table := files_table st;
     albums_table := albums_table st |}.

Definition set_disk (f : gmap string (list Byte.byte) -> gmap string (list Byte.byte))
  (st : State) : State :=
  {| chunksData := chunksData st; disk := f (disk st); idSet := idSet st;
     draws := draws st; files_table := files_table st;
     albums_table := albums_table st |}.

Definition set_idSet (f : gset string -> gset string) (st : State) : State :=
  {| chunksData := chunksData st; disk := disk st; idSet := f (idSet st);
     draws := draws st; files_table := files_table st;
     albums_table := albums_table st |}.

Definition set_draws (f : nat -> nat) (st : State) : State :=
  {| chunksData := chunksData st; disk := disk st; idSet := idSet st;
     draws := f (draws st); files_table := files_table st;
     albums_table := albums_table st |}.

Definition set_files_table (f : list FileRow -> list FileRow) (st : State) : State :=
  {| chunksData := chunksData st; disk := disk st; idSet := idSet st;
     draws := draws st; files_table := f (files_table st);
     albums_table := albums_table st |}.

Definition set_albums_table (f : list AlbumRow -> list AlbumRow) (st : State) : State :=
  {| chunksData := chunksData st; disk := disk st; idSet := idSet st;
     draws := draws st; files_table := files_table st;
     albums_table := f (albums_table st) |}.

(** ** Exceptions and state: the monad of the controller's async functions

    A computation takes the state and either returns a value or throws a
    description; side effects made before a throw persist. *)

Inductive Outcome (A : Type) : Type :=
| Returned (a : A)
| Thrown (description : string).
Arguments Returned {A} a.
Arguments Thrown {A} description.

Definition M (A : Type) : Type := State -> Outcome A * State.

Definition ret {A} (a : A) : M A := fun st => (Returned a, st).
Definition throw {A} (description : string) : M A :=
  fun st => (Thrown description, st).
Definition bind {A B} (m : M A) (k : A -> M B) : M B :=
  fun st =>
    match m st with
    | (Returned a, st') => k a st'
    | (Thrown e, st') => (Thrown e, st')
    end.
Definition get : M State := fun st => (Returned st, st).
Definition modify (f : State -> State) : M unit := fun st => (Returned tt, f st).

(** [try { m } catch (error) { handler; throw error }] *)
Definition onThrow {A} (m : M A) (handler : M unit) : M A :=
  fun st =>
    match m st with
    | (Returned a, st') => (Returned a, st')
    | (Thrown e, st') => (Thrown e, snd (handler st'))
    end.

(** [m.catch(logger.error)]: the error is logged and dropped. *)
Definition swallow (m : M unit) : M unit :=
  fun st => (Returned tt, snd (m st)).

Global Instance M_ret : MRet M := @ret.
Global Instance M_bind : MBind M := fun A B k m => bind m k.

(** [await Promise.all(xs.map(async x => f x))] with the bodies run one
    after the other in the order of [xs], the first throw rejecting the
    whole.  The code starts every body at once: with several elements their
    effects interleave, what they push arrives in the order in which they
    complete, and the bodies after a throw still run.  What is stated below
    of a [Promise.all] over several elements is stated up to that order. *)
Fixpoint forEachM {A B} (f : A -> M B) (xs : list A) : M (list B) :=
  match xs with
  | [] => ret []
  | x :: r => y ← f x; ys ← forEachM f r; ret (y :: ys)
  end.

(** ** Identifier allocator: [self.getUniqueRandomName] *)

Definition allocationExhausted : string :=
  "Sorry, we could not allocate a unique random name. Try again?".

(** The [for] loop with [tries] iterations left.  In the non-cache branch
    any failure of [paths.access] lets the name through: the re-throw
    condition [error & error.code !== 'ENOENT'] is a bitwise and of an
    object, which is always 0. *)
Fixpoint getUniqueRandomName_loop (h : Host) (cfg : Config) (tries : nat)
    (length : nat) (extension : string) : M string :=
  match tries with
  | O => throw allocationExhausted
  | S n => fun st =>
      let identifier := generate h (draws st) length in
      let name := identifier +:+ extension in
      let st1 := set_draws S st in
      if cacheFileIdentifiers cfg then
        if bool_decide (identifier ∈ idSet st1) then
          getUniqueRandomName_loop h cfg n length extension st1
        else
          (Returned name, set_idSet (fun s => {[identifier]} ∪ s) st1)
      else
        if bool_decide (is_Some (disk st1 !! path_join (uploadsDir h) name)) then
          getUniqueRandomName_loop h cfg n length extension st1
        else (Returned name, st1)
  end.

Definition getUniqueRandomName (h : Host) (cfg : Config)
    (length : nat) (extension : string) : M string :=
  getUniqueRandomName_loop h cfg (idMaxTries h) length extension.

(** The test that makes an attempt [continue]: the identifier is in the
    cache, or (without cache) a file of that name exists. *)
Definition identifierTaken (h : Host) (cfg : Config) (st : State)
    (identifier extension : string) : bool :=
  if cacheFileIdentifiers cfg then bool_decide (identifier ∈ idSet st)
  else bool_decide
         (is_Some (disk st !! path_join (uploadsDir h) (identifier +:+ extension))).

(** ** Chunk fragments: multer's [filename] callback *)

Fixpoint zeros (n : nat) : string :=
  match n with
  | O => EmptyString
  | S k => String "0" (zeros k)
  end.

Fixpoint drop_str (n : nat) (s : string) : string :=
  match n, s with
  | O, _ => s
  | S k, String _ r => drop_str k r
  | S _, EmptyString => EmptyString
  end.

(** [s.slice(-n)]: the last [n] characters ([slice(-0)] is the whole string). *)
Definition slice_last (n : nat) (s : string) : string :=
  match n with
  | O => s
  | _ => drop_str (String.length s - n) s
  end.

(** [Number.MAX_SAFE_INTEGER] *)
Definition maxSafeInteger : Z := 9007199254740991.

(** [`${n - 1}`] for the whole number [n]: the decimal numeral of [n - 1]
    as long as [n] is a safe integer, the host's text beyond. *)
Definition minusOneText (h : Host) (n : Z) : string :=
  if Z.abs n <=? maxSafeInteger then pretty (n - 1) else unsafeMinusOneText h n.

(** [req.body.totalchunkcount !== undefined ? `${req.body.totalchunkcount - 1}`.length : 1] *)
Definition chunkDigits (h : Host) (totalchunkcount : option string) : nat :=
  match totalchunkcount with
  | None => 1%nat
  | Some t =>
      String.length (match toNumber h t with
                     | Some n => minusOneText h n
                     | None => "NaN"
                     end)
  end.

(** The chunk branch of [filename]. *)
Definition chunkFilename (h : Host) (totalchunkcount : option string)
    (chunkindex : string) : string :=
  let digits := chunkDigits h totalchunkcount in
  slice_last digits (zeros digits +:+ chunkindex).

(** ** Chunk session store *)

(** [chunksData] is a plain object: [chunksData[uuid]] reads the key
    [undefined] for an undefined [uuid], and for a name that the object
    inherits it finds the inherited property where no session is
    registered.  The map [chunksData] of the state holds the registered
    sessions; the readers below add the two cases. *)

(** [initChunks(uuid)]; [None] as [uuid] and as result is [undefined].
    Directories are implicit in [disk], so [paths.access] and [paths.mkdir]
    leave no trace.  An inherited property is not [undefined], so no session
    is created and the [root] that is returned is undefined; with an
    undefined [uuid] and no session under that key, [path.join] throws. *)
Definition initChunks (h : Host) (uuid : option string) : M (option string) :=
  fun st =>
    let key := default "undefined" uuid in
    match chunksData st !! key with
    | Some s => (Returned (Some (root s)), st)
    | None =>
        if inheritedKey h key then (Returned None, st)
        else
          match uuid with
          | None => (Thrown "TypeError", st)
          | Some u =>
              let r := path_join (chunksDir h) u in
              (Returned (Some r),
               set_chunksData
                 (insert u {| root := r; chunks := []; csize := 0 |}) st)
          end
    end.

Definition chunkNotProcessed : string :=
  "Could not process the chunked upload. Try again?".

(** [initChunks(req.body.uuid).then(uuidDir => cb(null, uuidDir)).catch(..)]
    in multer's [destination]: the directory handed to the disk storage.
    With an undefined directory the storage's [path.join] throws inside the
    [then], so that case ends in the [catch] like a rejection. *)
Definition initChunksOf (h : Host) (uuid : option string) : M string :=
  fun st =>
    match initChunks h uuid st with
    | (Returned (Some uuidDir), st') => (Returned uuidDir, st')
    | (_, st') => (Thrown chunkNotProcessed, st')
    end.

(** ** Chunk reassembler: [self.combineChunks] and [self.cleanUpChunks] *)

(** The loop piping each fragment into the append-mode write stream. *)
Fixpoint appendChunks (rootDir destination : string) (names : list string)
  : M unit :=
  match names with
  | [] => ret tt
  | chunk :: rest => fun st =>
      match disk st !! path_join rootDir chunk with
      | None => (Thrown "ENOENT", st)
      | Some bytes =>
          appendChunks rootDir destination rest
            (set_disk (fun d =>
               <[destination := (default [] (d !! destination) ++ bytes)%list]> d) st)
      end
  end.

Definition combineChunks (destination uuid : string) : M unit :=
  fun st =>
    (* fs.createWriteStream(destination, { flags: 'a' }) *)
    let st0 :=
      set_disk (fun d => <[destination := default [] (d !! destination)]> d) st in
    match chunksData st0 !! uuid with
    | None => (Thrown "TypeError", st0)
    | Some s =>
        (* chunksData[uuid].chunks.sort(), in place *)
        let sorted := merge_sort String.le (chunks s) in
        let st1 :=
          set_chunksData
            (insert uuid {| root := root s; chunks := sorted; csize := csize s |})
            st0 in
        appendChunks (root s) destination sorted st1
    end.

(** [paths.unlink] of every fragment: every unlink is attempted, a missing
    file makes the whole fail. *)
Fixpoint unlinkAll (paths : list string)
    (d : gmap string (list Byte.byte)) : bool * gmap string (list Byte.byte) :=
  match paths with
  | [] => (true, d)
  | p :: rest =>
      let '(ok, d') := unlinkAll rest (delete p d) in
      (bool_decide (is_Some (d !! p)) && ok, d')
  end.

(** The path lies inside the directory. *)
Definition insideDir (dir p : string) : bool := String.prefix (dir +:+ "/") p.

(** Some file is left inside the directory. *)
Definition dirNotEmpty (dir : string) (d : gmap string (list Byte.byte)) : bool :=
  existsb (insideDir dir) (map_to_list d).*1.

(** [self.cleanUpChunks]: the unlinks, then [paths.rmdir(root)], which
    fails while a file is left in the directory (the directory itself
    exists since [initChunks]), then [delete chunksData[uuid]]. *)
Definition cleanUpChunks (uuid : string) : M unit :=
  fun st =>
    match chunksData st !! uuid with
    | None => (Thrown "TypeError", st)
    | Some s =>
        let '(ok, d') := unlinkAll (map (path_join (root s)) (chunks s)) (disk st) in
        let st1 := set_disk (fun _ => d') st in
        if ok then
          if dirNotEmpty (root s) d' then (Thrown "ENOTEMPTY", st1)
          else (Returned tt, set_chunksData (delete uuid) st1)
        else (Thrown "ENOENT", st1)
    end.

(** ** [self.parseFileIdentifierLength] *)

Definition fileIdentifierLengthFallback : Z := 32.

Definition parseFileIdentifierLength (h : Host) (cfg : Config)
    (fileLength : option string) : Z :=
  match fileIdentifierLength cfg with
  | None => fileIdentifierLengthFallback
  | Some c =>
      let dflt :=
        match fil_default c with
        | Some d => if d =? 0 then fileIdentifierLengthFallback else d
        | None => fileIdentifierLengthFallback
        end in
      match fileLength ≫= parseInt h, fil_force c, fil_min c, fil_max c with
      | Some parsed, false, Some mn, Some mx =>
          if (parsed <? mn) || (parsed >? mx) then dflt else parsed
      | _, _, _, _ => dflt
      end
  end.

(** ** Dedup and persistence: [self.storeFilesToDb] *)

Record Request := {
  req_ip : string;
  req_nojs : bool;                 (* [req.path === '/nojs'] *)
  req_striptags : option string;   (* [req.headers.striptags] *)
  req_now : Z                      (* [Date.now()] while the request is served *)
}.

(** An element of the array returned by [storeFilesToDb]: the fields of a
    new row or of an existing one that [sendUploadResponse] reads. *)
Record StoredFile := {
  s_name : string;
  s_expirydate : option Qc;
  s_original : option string
}.

(** Modelled from the spec: [utils.unlinkFile] is not part of the
    controller; it deletes the newly written file from the uploads
    directory. *)
Definition unlinkFile (h : Host) (name : string) : M unit :=
  modify (set_disk (delete (path_join (uploadsDir h) name))).

Definition age_truthy (a : JsAge) : bool :=
  match a with
  | AgeNull => false
  | AgeNum q => num_truthy (Some q)
  | AgeRaw s => str_truthy s
  end.

(** The number that [age * 3600] multiplies. *)
Definition age_hours (h : Host) (a : JsAge) : option Qc :=
  match a with
  | AgeNull => None
  | AgeNum q => Some q
  | AgeRaw s => toNumberQ h s
  end.

(** [if (info.data.age) data.expirydate = data.timestamp + (info.data.age * 3600)];
    a [NaN] result is stored as [NULL]. *)
Definition expiryOf (h : Host) (timestamp : Z) (a : JsAge) : option Qc :=
  if age_truthy a then
    (fun hours => Qc_of_Z timestamp + hours * Qc_of_Z 3600)%Qc <$> age_hours h a
  else None.

(** The [where] clause of the duplicate lookup. *)
Definition isDuplicateOf (user : option User) (hash : string) (sz : Z)
    (r : FileRow) : bool :=
  match user with
  | None => bool_decide (f_userid r = None)
  | Some u => bool_decide (f_userid r = Some (u_id u))
  end
  && String.eqb (f_hash r) hash && (f_size r =? sz).

(** The row built for a file that has no duplicate. *)
Definition newRow (h : Host) (cfg : Config) (req : Request)
    (user : option User) (info : Info) (hash : string) : FileRow :=
  let timestamp := req_now req / 1000 in
  {| f_name := filename (data info);
     f_original := originalname (data info);
     f_type := mimetype (data info);
     f_size := size (data info);
     f_hash := hash;
     f_ip := if storeIP cfg then Some (req_ip req) else None;
     f_timestamp := timestamp;
     f_userid := u_id <$> user;
     f_albumid := match user with
                  | Some _ => albumid (data info)
                  | None => None
                  end;
     f_expirydate := expiryOf h timestamp (age (data info)) |}.

(** What is reported for a file whose duplicate [dbFile] is stored. *)
Definition existingFile (req : Request) (info : Info) (dbFile : FileRow)
  : StoredFile :=
  {| s_name := f_name dbFile;
     s_expirydate := f_expirydate dbFile;
     s_original := if req_nojs req then Some (originalname (data info))
                   else None |}.

(** The body run for each [info]: [inl] for an existing record, [inr] for
    the row to insert. *)
Definition storeOne (h : Host) (cfg : Config) (req : Request)
    (user : option User) (info : Info) : M (StoredFile + FileRow) :=
  st ← get;
  match disk st !! path info with
  | None => throw "ENOENT"
  | Some content =>
      let hash := md5 h content in
      match List.find (isDuplicateOf user hash (size (data info))) (files_table st) with
      | Some dbFile =>
          swallow (unlinkFile h (filename (data info)));;
          ret (inl (existingFile req info dbFile))
      | None => ret (inr (newRow h cfg req user info hash))
      end
  end.

Fixpoint lefts {A B} (l : list (A + B)) : list A :=
  match l with
  | [] => []
  | inl a :: r => a :: lefts r
  | inr _ :: r => lefts r
  end.

Fixpoint rights {A B} (l : list (A + B)) : list B :=
  match l with
  | [] => []
  | inl _ :: r => rights r
  | inr b :: r => b :: rights r
  end.

Definition includes_Z (x : Z) (arr : list Z) : bool := existsb (Z.eqb x) arr.

(** The [albumids] array: the album of every new row, once each. *)
Definition albumidsOf (rows : list FileRow) : list Z :=
  foldl (fun acc r =>
           match f_albumid r with
           | Some a => if includes_Z a acc then acc else (acc ++ [a])%list
           | None => acc
           end) [] rows.

Definition set_albumid (a : option Z) (r : FileRow) : FileRow :=
  {| f_name := f_name r; f_original := f_original r; f_type := f_type r;
     f_size := f_size r; f_hash := f_hash r; f_ip := f_ip r;
     f_timestamp := f_timestamp r; f_userid := f_userid r; f_albumid := a;
     f_expirydate := f_expirydate r |}.

Definition storedOfRow (r : FileRow) : StoredFile :=
  {| s_name := f_name r; s_expirydate := f_expirydate r;
     s_original := Some (f_original r) |}.

(** [authorizedIds]: the albums among [albumids] that the user owns. *)
Definition authorizedIdsOf (user : option User) (albumids : list Z)
    (albums : list AlbumRow) : list Z :=
  match albumids, user with
  | _ :: _, Some u =>
      map a_id
        (List.filter
           (fun a => (a_userid a =? u_id u) && includes_Z (a_id a) albumids)
           albums)
  | _, _ => []
  end.

(** "Remove albumid if user do not own the album". *)
Definition withAuthorizedAlbums (albumids authorizedIds : list Z)
    (files : list FileRow) : list FileRow :=
  match albumids with
  | [] => files
  | _ =>
      map (fun file =>
             match f_albumid file with
             | Some a =>
                 if includes_Z a authorizedIds then file
                 else set_albumid None file
             | None => file
             end) files
  end.

(** "Update albums' timestamp". *)
Definition touchAlbums (authorizedIds : list Z) (timestamp : Z)
    (albums : list AlbumRow) : list AlbumRow :=
  map (fun a =>
         if includes_Z (a_id a) authorizedIds
         then {| a_id := a_id a; a_userid := a_userid a;
                 a_editedAt := timestamp |}
         else a) albums.

(** The bodies of the batch are run in the order of [infoMap], which is one
    of the orders in which they may complete: the rows are inserted, and the
    entries returned, in the order of completion.  Their lookups all precede
    the single insert, so a batch never sees its own rows. *)
Definition storeFilesToDb (h : Host) (cfg : Config) (req : Request)
    (user : option User) (infoMap : list Info) : M (list StoredFile) :=
  results ← forEachM (storeOne h cfg req user) infoMap;
  let files := rights results in
  let exists_ := lefts results in
  let albumids := albumidsOf files in
  match files with
  | [] => ret ([] ++ exists_)%list
  | _ =>
      st ← get;
      let authorizedIds := authorizedIdsOf user albumids (albums_table st) in
      let files' := withAuthorizedAlbums albumids authorizedIds files in
      modify (set_files_table (fun t => (t ++ files')%list));;
      match authorizedIds with
      | [] => ret tt
      | _ =>
          modify (set_albums_table
                    (touchAlbums authorizedIds (req_now req / 1000)))
      end;;
      ret (map storedOfRow files' ++ exists_)%list
  end.

(** The stored record that the lookup finds for [info] in state [st]:
    the first row with the hash of the file at [info.path], its size and
    the owner scope of [user]. *)
Definition duplicateOf (h : Host) (user : option User) (st : State)
    (info : Info) : option FileRow :=
  content ← disk st !! path info;
  List.find (isDuplicateOf user (md5 h content) (size (data info)))
            (files_table st).

(** The result of the lookup for [info], its file holding [content]: the
    existing record, or the row to insert. *)
Definition lookupResult (h : Host) (cfg : Config) (req : Request)
    (user : option User) (st : State) (info : Info) (content : list Byte.byte)
  : StoredFile + FileRow :=
  match List.find (isDuplicateOf user (md5 h content) (size (data info)))
                  (files_table st) with
  | Some dbFile => inl (existingFile req info dbFile)
  | None => inr (newRow h cfg req user info (md5 h content))
  end.

(** No stored record duplicates the file of [info]. *)
Definition isNewFile (h : Host) (user : option User) (st : State)
    (info : Info) : bool :=
  match duplicateOf h user st info with
  | Some _ => false
  | None => true
  end.

(** A computation that leaves the [files] table as it found it. *)
Definition keepsTable {A} (m : M A) : Prop :=
  forall st, files_table (snd (m st)) = files_table st.

(** ** [self.sendUploadResponse] *)

Record UploadedFile := {
  name : string;
  url : string;
  expirydate : option Qc;
  original : option string
}.

Inductive Response : Type :=
| RespFiles (files : list UploadedFile)        (* [{ success: true, files }] *)
| RespAccepted                                 (* [{ success: true }] *)
| RespFailure (status : Z) (description : string).

Definition uploadedOf (cfg : Config) (req : Request) (file : StoredFile)
  : UploadedFile :=
  {| name := s_name file;
     url := domain cfg +:+ "/" +:+ s_name file;
     expirydate := if num_truthy (s_expirydate file) then s_expirydate file
                   else None;
     original := if req_nojs req then s_original file else None |}.

Definition sendUploadResponse (cfg : Config) (req : Request)
    (result : list StoredFile) : Response :=
  RespFiles (map (uploadedOf cfg req) result).

(** ** Ingestion of a multipart batch: [self.actuallyUploadFiles]

    The model starts where multer hands over [req.files]: every file is
    already on disk under [m_filename]. *)

Record MulterFile := {
  m_filename : string;
  m_originalname : string;
  m_extname : string;
  m_mimetype : string;
  m_size : Z
}.

(** [Promise.all(infoMap.map(info => utils.unlinkFile(info.data.filename).catch(logger.error)))] *)
Fixpoint unlinkEach (h : Host) (infoMap : list Info) : M unit :=
  match infoMap with
  | [] => ret tt
  | info :: rest =>
      swallow (unlinkFile h (filename (data info)));; unlinkEach h rest
  end.

(** [if (utils.clamd.scanner) { const scanResult = await self.scanFiles(..); if (scanResult) throw scanResult }],
    together with the unlinking that [self.scanFiles] does on a finding. *)
Definition scanStep (h : Host) (user : option User) (infoMap : list Info)
  : M unit :=
  match scanVerdict h user infoMap with
  | Some description => unlinkEach h infoMap;; throw description
  | None => ret tt
  end.

(** [self.stripTags] *)
Definition stripTags (h : Host) (req : Request) (infoMap : list Info) : M unit :=
  match stripTagsError h (req_striptags req) infoMap with
  | Some description => unlinkEach h infoMap;; throw description
  | None => ret tt
  end.

(** Lines 255-260: the fragments of a request are appended to the session. *)
Definition recordChunks (uuid : string) (files : list MulterFile) : M unit :=
  modify (set_chunksData (fun cd =>
    match cd !! uuid with
    | None => cd
    | Some s =>
        <[uuid := {| root := root s;
                     chunks := (chunks s ++ map m_filename files)%list;
                     csize := csize s + foldr Z.add 0 (map m_size files) |}]> cd
    end)).

Definition infoOf (h : Host) (albumid : option Z) (age : JsAge)
    (file : MulterFile) : Info :=
  {| path := path_join (uploadsDir h) (m_filename file);
     data := {| filename := m_filename file;
                originalname := m_originalname file;
                extname := m_extname file;
                mimetype := m_mimetype file;
                size := m_size file;
                albumid := albumid;
                age := age |} |}.

Definition actuallyUploadFiles (h : Host) (cfg : Config) (req : Request)
    (user : option User) (albumid : option Z) (age : JsAge)
    (uuid : option string) (files : list MulterFile) : M Response :=
  match files with
  | [] => throw "No files."
  | _ =>
      st ← get;
      (* [chunksData[uuid]] *)
      let key := default "undefined" uuid in
      if chunkSize cfg && bool_decide (is_Some (chunksData st !! key))
      then recordChunks key files;; ret RespAccepted
      else if chunkSize cfg && inheritedKey h key
      then throw "TypeError"   (* [chunks] of the inherited property *)
      else
        let infoMap := map (infoOf h albumid age) files in
        if filterEmptyFile cfg
           && existsb (fun info => size (data info) =? 0) infoMap
        then unlinkEach h infoMap;; throw "Empty files are not allowed."
        else
          scanStep h user infoMap;;
          stripTags h req infoMap;;
          result ← storeFilesToDb h cfg req user infoMap;
          ret (sendUploadResponse cfg req result)
  end.

(** A multipart upload request after multer: the headers that [self.upload]
    reads, the [uuid] body field and the stored files. *)
Record UploadRequest := {
  up_req : Request;
  up_age : option string;          (* [req.headers.age] *)
  up_albumid : option string;      (* [req.headers.albumid || req.params.albumid] *)
  up_uuid : option string;         (* [req.body.uuid] *)
  up_files : list MulterFile
}.

(** [self.upload] for a request without [urls], once the acting [user] is
    resolved. *)
Definition upload (h : Host) (cfg : Config) (user : option User)
    (r : UploadRequest) (st : State) : Response * State :=
  let albumid := up_albumid r ≫= parseInt h in
  match upload_age h cfg (up_age r) with
  | inl description => (RespFailure 200 description, st)
  | inr age =>
      match actuallyUploadFiles h cfg (up_req r) user albumid
              (age_of_option age) (up_uuid r) (up_files r) st with
      | (Returned resp, st') => (resp, st')
      | (Thrown description, st') => (RespFailure 400 description, st')
      end
  end.

(** ** Arrival of chunk fragments *)

(** One multipart request carrying fragments of session [c_uuid]; each file
    is its client-side name and its bytes. *)
Record ChunkRequest := {
  c_uuid : string;
  c_totalchunkcount : option string;
  c_chunkindex : string;
  c_files : list (string * list Byte.byte)
}.

(** multer's disk storage for one file of a chunk request, chunked uploads
    being enabled: [fileFilter], [destination], [filename], then the write.
    The limits given to multer (lines 58-69) are not part of it: the file
    is taken to be within them. *)
Definition storeChunk (h : Host) (cfg : Config) (r : ChunkRequest)
    (file : string * list Byte.byte) : M MulterFile :=
  let ext := utils_extname h (fst file) in
  if isExtensionFiltered cfg ext then throw (notPermitted ext)
  else
    uuidDir ← initChunksOf h (Some (c_uuid r));
    let chunkName := chunkFilename h (c_totalchunkcount r) (c_chunkindex r) in
    modify (set_disk (insert (path_join uuidDir chunkName) (snd file)));;
    ret {| m_filename := chunkName; m_originalname := fst file;
           m_extname := ext; m_mimetype := "";
           m_size := Z.of_nat (List.length (snd file)) |}.

(** A chunk request from multer to the interim acknowledgement. *)
Definition receiveChunk (h : Host) (cfg : Config) (req : Request)
    (user : option User) (r : ChunkRequest) : M Response :=
  files ← forEachM (storeChunk h cfg r) (c_files r);
  actuallyUploadFiles h cfg req user None AgeNull (Some (c_uuid r)) files.

(** ** Finalising chunk sessions: [self.actuallyFinishChunks] *)

(** One element of [req.body.files]. [ff_size] is the size the client
    claims for the whole file. *)
Record FinishFile := {
  ff_uuid : option string;        (* [None]: not a string *)
  ff_original : option string;    (* [None]: not a string *)
  ff_type : option string;
  ff_albumid : option string;
  ff_age : option string;
  ff_filelength : option string;
  ff_size : option Z
}.

Definition chunksMismatched : string := "Chunks size mismatched.".

(** [check]: the session is missing or has fewer than two fragments (for a
    name that [chunksData] inherits see [finishCheckThrows]). *)
Definition finishCheck (st : State) (file : FinishFile) : bool :=
  match ff_uuid file with
  | None => true
  | Some uuid =>
      match chunksData st !! uuid with
      | None => true
      | Some s => (List.length (chunks s) <? 2)%nat
      end
  end.

(** [check] throws instead: the uuid names no session but a property that
    [chunksData] inherits, whose [chunks] is undefined. *)
Definition finishCheckThrows (h : Host) (st : State) (file : FinishFile) : bool :=
  match ff_uuid file with
  | None => false
  | Some uuid => bool_decide (chunksData st !! uuid = None) && inheritedKey h uuid
  end.

(** [files.some(check)] *)
Fixpoint someCheck (h : Host) (st : State) (files : list FinishFile)
  : Outcome bool :=
  match files with
  | [] => Returned false
  | file :: rest =>
      if finishCheckThrows h st file then Thrown "TypeError"
      else if finishCheck st file then Returned true
      else someCheck h st rest
  end.

(** [paths.lstat(destination)].size *)
Definition lstatSize (destination : string) : M Z :=
  fun st =>
    match disk st !! destination with
    | Some bytes => (Returned (Z.of_nat (List.length bytes)), st)
    | None => (Thrown "ENOENT", st)
    end.

(** What the body mapped over [files] has established once the fragments
    are combined and the session cleaned up. *)
Record Combined := {
  cb_extname : string;      (* [file.extname] *)
  cb_age : JsAge;           (* [file.age] *)
  cb_size : Z;              (* [file.size], the tracked size of the session *)
  cb_name : string;
  cb_destination : string
}.

(** Lines 430-458 of the body mapped over [files]: the checks, the name,
    the combination and the clean-up.  The [size] of the request element is
    overwritten by the tracked size of the session before any use. *)
Definition finishFile_combine (h : Host) (cfg : Config) (file : FinishFile)
  : M Combined :=
  st ← get;
  match ff_uuid file ≫= (fun uuid => (fun s => (uuid, s)) <$> chunksData st !! uuid) with
  | None => throw "TypeError"
  | Some (uuid, session) =>
      if Z.of_nat (List.length (chunks session)) >? maxChunksCount cfg
      then throw "Too many chunks."
      else
        let file_extname :=
          match ff_original file with
          | Some o => utils_extname h o
          | None => ""
          end in
        if isExtensionFiltered cfg file_extname
        then throw (notPermitted file_extname)
        else
          file_age ←
            (if temporaryUploads cfg then
               let a := parseUploadAge h cfg (ff_age file) in
               if age_rejected cfg a then throw permanentNotPermitted
               else ret (age_of_option a)
             else ret (match ff_age file with
                       | Some raw => AgeRaw raw
                       | None => AgeNull
                       end));
          let file_size := csize session in
          if filterEmptyFile cfg && (file_size =? 0)
          then throw "Empty files are not allowed."
          else if file_size >? maxSizeBytes cfg
          then throw ("File too large. Chunks are bigger than "
                      +:+ pretty (maxSize cfg) +:+ " MB.")
          else
            let length := parseFileIdentifierLength h cfg (ff_filelength file) in
            name ← getUniqueRandomName h cfg (Z.to_nat length) file_extname;
            let destination := path_join (uploadsDir h) name in
            combineChunks destination uuid;;
            swallow (cleanUpChunks uuid);;
            ret {| cb_extname := file_extname; cb_age := file_age;
                   cb_size := file_size; cb_name := name;
                   cb_destination := destination |}
  end.

(** Lines 460-479: "Double-check file size", then the descriptor. *)
Definition finishFile_verify (h : Host) (file : FinishFile) (c : Combined)
  : M Info :=
  lstat_size ← lstatSize (cb_destination c);
  if negb (lstat_size =? cb_size c) then throw chunksMismatched
  else
    ret {| path := cb_destination c;
           data := {| filename := cb_name c;
                      originalname := default "" (ff_original file);
                      extname := cb_extname c;
                      mimetype := default "" (ff_type file);
                      size := cb_size c;
                      albumid := ff_albumid file ≫= parseInt h;
                      age := cb_age c |} |}.

(** The body mapped over [files] (lines 430-479). *)
Definition finishFile (h : Host) (cfg : Config) (file : FinishFile) : M Info :=
  c ← finishFile_combine h cfg file;
  finishFile_verify h file c.

(** The request element with another claimed size. *)
Definition withClaimedSize (claimed : option Z) (file : FinishFile) : FinishFile :=
  {| ff_uuid := ff_uuid file; ff_original := ff_original file;
     ff_type := ff_type file; ff_albumid := ff_albumid file;
     ff_age := ff_age file; ff_filelength := ff_filelength file;
     ff_size := claimed |}.

(** The [catch] block: leftover sessions of the request are cleaned up. *)
Fixpoint cleanUpLeftovers (files : list FinishFile) : M unit :=
  match files with
  | [] => ret tt
  | file :: rest =>
      st ← get;
      match ff_uuid file ≫= (fun uuid => chunksData st !! uuid ≫= fun _ => Some uuid) with
      | Some uuid => swallow (cleanUpChunks uuid)
      | None => ret tt
      end;;
      cleanUpLeftovers rest
  end.

Definition actuallyFinishChunks (h : Host) (cfg : Config) (req : Request)
    (user : option User) (files : list FinishFile) : M Response :=
  st ← get;
  match files with
  | [] => throw "An unexpected error occurred."
  | _ =>
      match someCheck h st files with
      | Thrown description => throw description
      | Returned true => throw "An unexpected error occurred."
      | Returned false =>
          onThrow
            (infoMap ← forEachM (finishFile h cfg) files;
             scanStep h user infoMap;;
             stripTags h req infoMap;;
             result ← storeFilesToDb h cfg req user infoMap;
             ret (sendUploadResponse cfg req result))
            (cleanUpLeftovers files)
      end
  end.

(** [self.finishChunks], once the acting [user] is resolved. *)
Definition finishChunks (h : Host) (cfg : Config) (req : Request)
    (user : option User) (files : list FinishFile) (st : State)
  : Response * State :=
  if negb (chunkSize cfg)
  then (RespFailure 200 "Chunked upload is disabled at the moment.", st)
  else
    match actuallyFinishChunks h cfg req user files st with
    | (Returned resp, st') => (resp, st')
    | (Thrown description, st') => (RespFailure 400 description, st')
    end.

(** ** Filter query translation: [self.list] *)

(** [s.split(c)] *)
Fixpoint split_on (c : ascii) (s : string) : list string :=
  match s with
  | EmptyString => [EmptyString]
  | String x r =>
      let parts := split_on c r in
      if Ascii.eqb x c then EmptyString :: parts
      else match parts with
           | p :: ps => String x p :: ps
           | [] => [String x EmptyString]
           end
  end.

(** [s.indexOf(c)] together with the two slices around it. *)
Fixpoint split_first (c : ascii) (s : string) : option (string * string) :=
  match s with
  | EmptyString => None
  | String x r =>
      if Ascii.eqb x c then Some (EmptyString, r)
      else match split_first c r with
           | Some (k, v) => Some (String x k, v)
           | None => None
           end
  end.

(** A range of the query: [E] is the type of its endpoints. *)
Record Range (E : Type) := { from : E; to : E }.
Arguments from {E} r.
Arguments to {E} r.

(** The query object: a missing property is [None]. *)
Record Queries (E : Type) := {
  q_ip : option (list string);
  q_user : option (list string);
  q_orderby : option (list string);
  q_date : option (Range E);
  q_expiry : option (Range E);
  q_text : option (list string);
  q_exclude_ip : option (list string);
  q_exclude_user : option (list string);
  q_exclude_orderby : option (list string);
  q_exclude_text : option (list string)
}.
Arguments q_ip {E} q.
Arguments q_user {E} q.
Arguments q_orderby {E} q.
Arguments q_date {E} q.
Arguments q_expiry {E} q.
Arguments q_text {E} q.
Arguments q_exclude_ip {E} q.
Arguments q_exclude_user {E} q.
Arguments q_exclude_orderby {E} q.
Arguments q_exclude_text {E} q.

Definition emptyQueries {E} : Queries E :=
  {| q_ip := None; q_user := None; q_orderby := None; q_date := None;
     q_expiry := None; q_text := None; q_exclude_ip := None;
     q_exclude_user := None; q_exclude_orderby := None;
     q_exclude_text := None |}.

(** [arr.concat(values)] on a property that may be missing. *)
Definition pushAll (old : option (list string)) (values : list string)
  : option (list string) :=
  Some (default [] old ++ values)%list.

(** The range object of a term [key:value]: both ends when the value has
    exactly one dash, the whole value as [from] otherwise. *)
Definition rangeOf (value : string) : Range (option string) :=
  match split_on "-" value with
  | [a; b] => {| from := Some a; to := Some b |}
  | _ => {| from := Some value; to := None |}
  end.

Definition addKeyword (key : string) (values : list string)
    (q : Queries (option string)) : Queries (option string) :=
  if String.eqb key "ip" then
    {| q_ip := pushAll (q_ip q) values; q_user := q_user q;
       q_orderby := q_orderby q; q_date := q_date q; q_expiry := q_expiry q;
       q_text := q_text q; q_exclude_ip := q_exclude_ip q;
       q_exclude_user := q_exclude_user q;
       q_exclude_orderby := q_exclude_orderby q;
       q_exclude_text := q_exclude_text q |}
  else if String.eqb key "user" then
    {| q_ip := q_ip q; q_user := pushAll (q_user q) values;
       q_orderby := q_orderby q; q_date := q_date q; q_expiry := q_expiry q;
       q_text := q_text q; q_exclude_ip := q_exclude_ip q;
       q_exclude_user := q_exclude_user q;
       q_exclude_orderby := q_exclude_orderby q;
       q_exclude_text := q_exclude_text q |}
  else
    {| q_ip := q_ip q; q_user := q_user q;
       q_orderby := pushAll (q_orderby q) values; q_date := q_date q;
       q_expiry := q_expiry q; q_text := q_text q;
       q_exclude_ip := q_exclude_ip q; q_exclude_user := q_exclude_user q;
       q_exclude_orderby := q_exclude_orderby q;
       q_exclude_text := q_exclude_text q |}.

Definition addExclusion (key : string) (values : list string)
    (q : Queries (option string)) : Queries (option string) :=
  if String.eqb key "ip" then
    {| q_ip := q_ip q; q_user := q_user q; q_orderby := q_orderby q;
       q_date := q_date q; q_expiry := q_expiry q; q_text := q_text q;
       q_exclude_ip := pushAll (q_exclude_ip q) values;
       q_exclude_user := q_exclude_user q;
       q_exclude_orderby := q_exclude_orderby q;
       q_exclude_text := q_exclude_text q |}
  else if String.eqb key "user" then
    {| q_ip := q_ip q; q_user := q_user q; q_orderby := q_orderby q;
       q_date := q_date q; q_expiry := q_expiry q; q_text := q_text q;
       q_exclude_ip := q_exclude_ip q;
       q_exclude_user := pushAll (q_exclude_user q) values;
       q_exclude_orderby := q_exclude_orderby q;
       q_exclude_text := q_exclude_text q |}
  else
    {| q_ip := q_ip q; q_user := q_user q; q_orderby := q_orderby q;
       q_date := q_date q; q_expiry := q_expiry q; q_text := q_text q;
       q_exclude_ip := q_exclude_ip q; q_exclude_user := q_exclude_user q;
       q_exclude_orderby := pushAll (q_exclude_orderby q) values;
       q_exclude_text := q_exclude_text q |}.

Definition setRange (key : string) (r : Range (option string))
    (q : Queries (option string)) : Queries (option string) :=
  {| q_ip := q_ip q; q_user := q_user q; q_orderby := q_orderby q;
     q_date := if String.eqb key "date" then Some r else q_date q;
     q_expiry := if String.eqb key "date" then q_expiry q else Some r;
     q_text := q_text q; q_exclude_ip := q_exclude_ip q;
     q_exclude_user := q_exclude_user q;
     q_exclude_orderby := q_exclude_orderby q;
     q_exclude_text := q_exclude_text q |}.

Definition addText (t : string) (q : Queries (option string))
  : Queries (option string) :=
  {| q_ip := q_ip q; q_user := q_user q; q_orderby := q_orderby q;
     q_date := q_date q; q_expiry := q_expiry q;
     q_text := pushAll (q_text q) [t]; q_exclude_ip := q_exclude_ip q;
     q_exclude_user := q_exclude_user q;
     q_exclude_orderby := q_exclude_orderby q;
     q_exclude_text := q_exclude_text q |}.

Definition addExcludedText (t : string) (q : Queries (option string))
  : Queries (option string) :=
  {| q_ip := q_ip q; q_user := q_user q; q_orderby := q_orderby q;
     q_date := q_date q; q_expiry := q_expiry q; q_text := q_text q;
     q_exclude_ip := q_exclude_ip q; q_exclude_user := q_exclude_user q;
     q_exclude_orderby := q_exclude_orderby q;
     q_exclude_text := pushAll (q_exclude_text q) [t] |}.

Definition isKeywordName (key : string) : bool :=
  includes_str key ["ip"; "user"; "orderby"].
Definition isRangeName (key : string) : bool :=
  includes_str key ["date"; "expiry"].

(** One whitespace-delimited term of the filter text. *)
Definition addTerm (q : Queries (option string)) (term : string)
  : Queries (option string) :=
  match split_first ":" term with
  | Some (key, value) =>
      let '(key', isKeyword, isExclusion) :=
        match key with
        | String "-" k' =>
            if isKeywordName k' then (k', true, true) else (key, false, false)
        | _ => (key, isKeywordName key, false)
        end in
      if isKeyword then
        match value with
        | EmptyString => q
        | _ =>
            if isExclusion then addExclusion key' (split_on "," value) q
            else addKeyword key' (split_on "," value) q
        end
      else if isRangeName key' then setRange key' (rangeOf value) q
      else addText (key +:+ ":" +:+ value) q
  | None =>
      match term with
      | String "-" t => addExcludedText t q
      | EmptyString => q
      | _ => addText term q
      end
  end.

(** Modelled from the spec: the tokenizer is the [search-query-parser]
    package, which is not part of the controller.  It "tokenizes the filter
    text into keyword:value pairs and free-text terms (always yielding
    arrays even for single values)", here with the options the controller
    passes: keywords [ip], [user], [orderby]; ranges [date], [expiry]; a
    leading dash excludes; commas separate the values of a keyword and one
    dash the two ends of a range.  Quoted terms and backslash escapes are not
    covered.  A lone excluded text term is already the one-element array that
    line 925 of the controller turns it into. *)
Definition searchQuery_parse (filters : string) : Queries (option string) :=
  foldl addTerm emptyQueries (String.words filters).

(** *** Dates: the part of [Date] that [parseDate] uses

    Times are milliseconds since the epoch.  The server's local time is at a
    fixed offset from UTC, [timezoneOffset] minutes behind
    ([getTimezoneOffset()]): a zone without daylight saving.  In a zone with
    it, [Date] applies the offset in force at the date that is set, which
    may differ from [utils.timezoneOffset]. *)

Definition msPerDay : Z := 86400000.

(** Days from 1970-01-01 to the first of month [m] (1 to 12) of year [y]
    in the proleptic Gregorian calendar, plus [d - 1]. *)
Definition days_from_civil (y m d : Z) : Z :=
  let y' := if m <=? 2 then y - 1 else y in
  let era := y' / 400 in
  let yoe := y' - era * 400 in
  let mp := if m >? 2 then m - 3 else m + 9 in
  let doy := (153 * mp + 2) / 5 + d - 1 in
  let doe := yoe * 365 + yoe / 4 - yoe / 100 + doy in
  era * 146097 + doe - 719468.

(** [MakeDay(year, month, date)] with a zero-based, possibly overflowing
    [month]. *)
Definition makeDay (year month date : Z) : Z :=
  days_from_civil (year + month / 12) (month mod 12 + 1) 1 + date - 1.

Definition localTime (h : Host) (t : Z) : Z := t - timezoneOffset h * 60000.
Definition utcTime (h : Host) (t : Z) : Z := t + timezoneOffset h * 60000.

(** [dateObj.setFullYear(year, month, date)] *)
Definition setFullYear (h : Host) (t year month date : Z) : Z :=
  utcTime h (makeDay year month date * msPerDay + localTime h t mod msPerDay).

(** [dateObj.setHours(hours, minutes, seconds)] *)
Definition setHours (h : Host) (t hours minutes seconds : Z) : Z :=
  let lt := localTime h t in
  utcTime h (lt / msPerDay * msPerDay
             + hours * 3600000 + minutes * 60000 + seconds * 1000
             + lt mod 1000).

(** [dateObj.setMilliseconds(0)] *)
Definition setMilliseconds0 (h : Host) (t : Z) : Z :=
  let lt := localTime h t in utcTime h (lt - lt mod 1000).

(** *** [parseDate] *)

Definition is_digit (c : ascii) : bool :=
  let n := nat_of_ascii c in ((48 <=? n) && (n <=? 57))%nat.

Definition digit_value (c : ascii) : Z := Z.of_nat (nat_of_ascii c) - 48.

(** [\d{n}] at the head of [s]: the number read and the rest. *)
Fixpoint take_digits (n : nat) (acc : Z) (s : string) : option (Z * string) :=
  match n with
  | O => Some (acc, s)
  | S k =>
      match s with
      | String c r =>
          if is_digit c then take_digits k (10 * acc + digit_value c) r
          else None
      | EmptyString => None
      end
  end.

(** An optional group [(c\d{2})?]; the group is taken whenever it can be. *)
Definition opt_sep_digits (c : ascii) (s : string) : option Z * string :=
  match s with
  | String x r =>
      if Ascii.eqb x c then
        match take_digits 2 0 r with
        | Some (v, rest) => (Some v, rest)
        | None => (None, s)
        end
      else (None, s)
  | EmptyString => (None, s)
  end.

Definition opt_digits (n : nat) (s : string) : option Z * string :=
  match take_digits n 0 s with
  | Some (v, rest) => (Some v, rest)
  | None => (None, s)
  end.

Definition opt_space (s : string) : string :=
  match s with
  | String x r => if Ascii.is_space x then r else s
  | EmptyString => s
  end.

Record DateMatch := {
  dm_year : option Z;      (* [Number(match[1])] *)
  dm_month : option Z;     (* [Number(match[2].slice(1))] *)
  dm_day : option Z;
  dm_hours : option Z;
  dm_minutes : option Z;
  dm_seconds : option Z
}.

(** [date.match(/^(\d{4})?(\/\d{2})?(\/\d{2})?\s?(\d{2})?(:\d{2})?(:\d{2})?$/)].
    No group can start where a later part of the pattern could, so taking
    each group greedily from left to right is what the backtracking matcher
    finds. *)
Definition matchDate (date : string) : option DateMatch :=
  let '(y, s1) := opt_digits 4 date in
  let '(mo, s2) := opt_sep_digits "/" s1 in
  let '(d, s3) := opt_sep_digits "/" s2 in
  let s4 := opt_space s3 in
  let '(hh, s5) := opt_digits 2 s4 in
  let '(mi, s6) := opt_sep_digits ":" s5 in
  let '(ss, s7) := opt_sep_digits ":" s6 in
  match s7 with
  | EmptyString =>
      Some {| dm_year := y; dm_month := mo; dm_day := d;
              dm_hours := hh; dm_minutes := mi; dm_seconds := ss |}
  | _ => None
  end.

(** What [parseDate] returns: [null], an invalid [Date] (its time is [NaN])
    or a [Date]. *)
Inductive DateResult : Type :=
| NoDate
| InvalidDate
| DateAt (ms : Z).

(** [minoffset] is the number the [minoffset] header coerces to, a whole
    number of minutes, [None] when the header is missing ([NaN]); [now] is
    [Date.now()].  A header with a fraction is not covered. *)
Definition parseDate (h : Host) (now : Z) (date : string)
    (minoffset : option Z) (resetMs : bool) : DateResult :=
  match matchDate date with
  | None => NoDate
  | Some m =>
      match minoffset with
      | None => InvalidDate
      | Some mo =>
          let offset := 60000 * (timezoneOffset h - mo) in
          let t0 := now + offset in
          let t1 :=
            match dm_year m with
            | Some y =>
                setFullYear h t0 y
                  (match dm_month m with Some x => x - 1 | None => 0 end)
                  (default 1 (dm_day m))
            | None => t0
            end in
          let t2 :=
            match dm_hours m with
            | Some hh =>
                setHours h t1 hh (default 0 (dm_minutes m))
                  (default 0 (dm_seconds m))
            | None => t1
            end in
          let t3 := if resetMs then setMilliseconds0 h t2 else t2 in
          DateAt (t3 - offset)
      end
  end.

(** An end of a range once dates are parsed. *)
Inductive Endpoint : Type :=
| EUndefined
| ENull
| ENaN
| ENumber (n : Z)
| EString (s : string).

Definition isNumberEndpoint (e : Endpoint) : bool :=
  match e with
  | ENaN | ENumber _ => true
  | _ => false
  end.

(** [Math.ceil(t / 1000)] *)
Definition ceil1000 (t : Z) : Z := - ((- t) / 1000).

Definition endpointFrom (h : Host) (now : Z) (minoffset : option Z)
    (v : option string) : Endpoint :=
  match v with
  | None => EUndefined
  | Some EmptyString => EString EmptyString
  | Some s =>
      match parseDate h now s minoffset true with
      | NoDate => ENull
      | InvalidDate => ENaN
      | DateAt t => ENumber (t / 1000)
      end
  end.

Definition endpointTo (h : Host) (now : Z) (minoffset : option Z)
    (v : option string) : Endpoint :=
  match v with
  | None => EUndefined
  | Some EmptyString => EString EmptyString
  | Some s =>
      match parseDate h now s minoffset true with
      | NoDate => ENull
      | InvalidDate => ENaN
      | DateAt t => ENumber (ceil1000 t)
      end
  end.

Definition parseRange (h : Host) (now : Z) (minoffset : option Z)
    (r : Range (option string)) : Range Endpoint :=
  {| from := endpointFrom h now minoffset (from r);
     to := endpointTo h now minoffset (to r) |}.

(** *** Keywords, users and ordering *)

(** [arr.filter((v, i, a) => a.indexOf(v) === i)] *)
Definition uniqueValues (arr : list string) : list string :=
  foldl (fun acc v => if includes_str v acc then acc else (acc ++ [v])%list)
        [] arr.

(** [arr.splice(arr.indexOf('-'), 1)] *)
Fixpoint removeFirstDash (arr : list string) : list string :=
  match arr with
  | [] => []
  | v :: r => if String.eqb v "-" then r else v :: removeFirstDash r
  end.

(** The loop over [keywords]: the values without duplicates and without the
    dash, and the flag [no<key>]. *)
Definition keywordValues (v : option (list string))
  : option (list string) * bool :=
  match v with
  | None => (None, false)
  | Some arr =>
      let u := uniqueValues arr in
      if includes_str "-" u then (Some (removeFirstDash u), true)
      else (Some u, false)
  end.

Record FilterObj := {
  uploaders : list User;
  excludeUploaders : list User;
  queries : Queries Endpoint;
  flag_noip : bool;
  flag_nouser : bool
}.

Definition usersNotFound (notFound : list string) : string :=
  "User" +:+ (if Nat.eqb (List.length notFound) 1 then "" else "s")
  +:+ " not found: " +:+ String.concat ", " notFound +:+ ".".

(** [db.table('users').whereIn('username', usernames).select('id', 'username')] *)
Definition selectUsers (users_table : list User) (usernames : list string)
  : list User :=
  List.filter (fun u => includes_str (u_username u) usernames) users_table.

(** Lines 873-902.  [inl] is the description of the failure response; the
    array [notFound] is truthy even when empty, so any difference in length
    sends it. *)
Definition resolveUsers (users_table : list User)
    (user exclude_user : option (list string))
  : string + (list User * list User) :=
  match user, exclude_user with
  | None, None => inr ([], [])
  | _, _ =>
      let usernames := (default [] user ++ default [] exclude_user)%list in
      let found := selectUsers users_table usernames in
      if negb (Nat.eqb (List.length found) (List.length usernames)) then
        let notFound :=
          List.filter (fun username =>
                    negb (existsb (fun u => String.eqb (u_username u) username)
                                  found))
                 usernames in
        inl (usersNotFound notFound)
      else
        inr (List.filter (fun u => match user with
                              | Some l => includes_str (u_username u) l
                              | None => false
                              end) found,
             List.filter (fun u => negb (match user with
                                    | Some l => includes_str (u_username u) l
                                    | None => false
                                    end)) found)
  end.

(** [/^d/.test(s)] *)
Definition startsWith_d (s : string) : bool :=
  match s with
  | String "d" _ => true
  | _ => false
  end.

(** One [orderby] value (lines 907-918); the three tables of [orderByObj]
    are read as the dictionaries they are written as, without the properties
    that an object inherits (a key such as [constructor] finds one in
    [maps]). *)
Definition parseOrderBy (obQuery : string) : string :=
  let tmp := split_on ":" (toLowerCase obQuery) in
  let tmp0 := default "" (head tmp) in
  let mapped :=
    if String.eqb tmp0 "date" then "timestamp"
    else if String.eqb tmp0 "expiry" then "expirydate"
    else tmp0 in
  let column :=
    if String.eqb mapped "size" then "cast (`size` as integer)" else mapped in
  let direction :=
    match tmp with
    | _ :: t1 :: _ => if str_truthy t1 && startsWith_d t1 then "desc" else "asc"
    | _ => "asc"
    end in
  let suffix :=
    if includes_str column ["userid"; "expirydate"; "ip"] then " nulls last"
    else "" in
  column +:+ " " +:+ direction +:+ suffix.

(** The [if (filters)] block of [self.list]: [inl] is the description of a
    failure response, [inr] the filter object and [orderByObj.parsed]. *)
Definition translateFilters (h : Host) (users_table : list User) (now : Z)
    (minoffset : option Z) (filters : string)
  : string + (FilterObj * list string) :=
  let q := searchQuery_parse filters in
  let '(ip, noip) := keywordValues (q_ip q) in
  let '(user, nouser) := keywordValues (q_user q) in
  let date := parseRange h now minoffset <$> q_date q in
  let expiry := parseRange h now minoffset <$> q_expiry q in
  match resolveUsers users_table user (q_exclude_user q) with
  | inl description => inl description
  | inr (ups, excl) =>
      let usersQueried :=
        match user, q_exclude_user q with
        | None, None => false
        | _, _ => true
        end in
      inr ({| uploaders := ups;
              excludeUploaders := excl;
              queries :=
                {| q_ip := ip;
                   q_user := if usersQueried then None else user;
                   q_orderby := None;
                   q_date := date;
                   q_expiry := expiry;
                   q_text := q_text q;
                   q_exclude_ip := q_exclude_ip q;
                   q_exclude_user :=
                     if usersQueried then None else q_exclude_user q;
                   q_exclude_orderby := q_exclude_orderby q;
                   q_exclude_text := q_exclude_text q |};
              flag_noip := noip;
              flag_nouser := nouser |},
           map parseOrderBy (default [] (q_orderby q)))
  end.

(** *** The store predicate: [filter] *)

Inductive SqlVal : Type :=
| VInt (n : Z)
| VStr (s : string).

(** One call on the query builder inside a group. *)
Inductive Clause : Type :=
| WhereIn (column : string) (values : list SqlVal)
| WhereNotIn (column : string) (values : list SqlVal)
| WhereNull (column : string)
| WhereBetween (column : string) (lo hi : Endpoint)
| WhereGe (column : string) (v : Endpoint)
| WhereLike (column pattern : string)
| WhereNotLike (column pattern : string).

(** The three shapes of the predicate.  In [ByFilter] the groups are
    combined as [(users) or (ips) and (ranges) and (names) and
    (exclusions)]; the clauses of [ranges] are joined by [and], those of
    the other groups by [or]. *)
Inductive Predicate : Type :=
| ByAlbum (id : string)
| ByOwner (userid : Z)
| ByFilter (users ips ranges names exclusions : list Clause).

(** [name.replace(/\*/g, '%')] *)
Fixpoint starsToPercent (s : string) : string :=
  match s with
  | EmptyString => EmptyString
  | String c r =>
      String (if Ascii.eqb c "*" then "%"%char else c) (starsToPercent r)
  end.

Fixpoint hasStar (s : string) : bool :=
  match s with
  | EmptyString => false
  | String c r => Ascii.eqb c "*" || hasStar r
  end.

Definition likePattern (name : string) : string :=
  if hasStar name then starsToPercent name else "%" +:+ name +:+ "%".

Definition whenNonEmpty {A} (l : list A) (c : Clause) : list Clause :=
  match l with
  | [] => []
  | _ => [c]
  end.

(** The group refining by [date]. *)
Definition dateClauses (f : FilterObj) : list Clause :=
  match q_date (queries f) with
  | Some d =>
      if isNumberEndpoint (to d)
      then [WhereBetween "timestamp" (from d) (to d)]
      else [WhereGe "timestamp" (from d)]
  | None => []
  end.

(** The group refining by [expiry] (lines 959-963); [inl] is the
    [TypeError] of reading [filterObj.queries.date.from] when there is no
    [date] range. *)
Definition expiryClauses (f : FilterObj) : string + list Clause :=
  match q_expiry (queries f) with
  | Some e =>
      if isNumberEndpoint (to e)
      then inr [WhereBetween "expirydate" (from e) (to e)]
      else
        match q_date (queries f) with
        | Some d => inr [WhereGe "expirydate" (from d)]
        | None => inl "TypeError"
        end
  | None => inr []
  end.

(** [function filter ()] of [self.list]. *)
Definition filterPredicate (params_id : option string) (all : bool)
    (user : User) (f : FilterObj) : string + Predicate :=
  match params_id with
  | Some id => inr (ByAlbum id)
  | None =>
      if negb all then inr (ByOwner (u_id user))
      else
        match expiryClauses f with
        | inl e => inl e
        | inr expiry =>
            inr (ByFilter
              (whenNonEmpty (uploaders f)
                 (WhereIn "userid" (map (fun v => VInt (u_id v)) (uploaders f)))
               ++ whenNonEmpty (excludeUploaders f)
                 (WhereNotIn "userid"
                    (map (fun v => VInt (u_id v)) (excludeUploaders f)))
               ++ (if flag_nouser f then [WhereNull "userid"] else []))%list
              (match q_ip (queries f) with
               | Some ips => [WhereIn "ip" (map VStr ips)]
               | None => []
               end
               ++ match q_exclude_ip (queries f) with
                  | Some ips => [WhereNotIn "ip" (map VStr ips)]
                  | None => []
                  end
               ++ (if flag_noip f then [WhereNull "ip"] else []))%list
              (dateClauses f ++ expiry)%list
              (map (fun n => WhereLike "name" (likePattern n))
                   (default [] (q_text (queries f))))
              (map (fun n => WhereNotLike "name" (likePattern n))
                   (default [] (q_exclude_text (queries f)))))
        end
  end.

(** The predicate that [self.list] hands to the store: the filter object is
    the initial one unless [filters] is a non-empty text.  [inl] is the
    description of a failure ([TypeError] stands for the exception that the
    handler turns into the generic 500 response). *)
Definition listPredicate (h : Host) (users_table : list User) (now : Z)
    (minoffset : option Z) (filters : option string)
    (params_id : option string) (all : bool) (user : User)
  : string + Predicate :=
  let translated :=
    match filters with
    | Some (String c r) =>
        translateFilters h users_table now minoffset (String c r)
    | _ =>
        inr ({| uploaders := []; excludeUploaders := [];
                queries := emptyQueries;
                flag_noip := false; flag_nouser := false |}, [])
    end in
  match translated with
  | inl description => inl description
  | inr (f, _) => filterPredicate params_id all user f
  end.

(** ** The extension policy as a case-insensitive list test *)

(** The extension appears in the configured list, both sides compared in
    lower case. *)
Definition listedIgnoringCase (cfg : Config) (extname : string) : bool :=
  existsb (fun extension =>
             String.eqb (toLowerCase extname) (toLowerCase extension))
          (extensionsFilter cfg).

(** The extension policy with a comparison that ignores case on both
    sides, for every extension string and every configured list. *)
Definition extension_policy_ignoring_case : Prop :=
  forall (cfg : Config) (extname : string),
    (extname = "" ->
       (isExtensionFiltered cfg extname = true <-> filterNoExtension cfg = true))
    /\ (extname <> "" -> extensionsFilterMode cfg = "blacklist" ->
         (isExtensionFiltered cfg extname = true
          <-> listedIgnoringCase cfg extname = true))
    /\ (extname <> "" -> extensionsFilterMode cfg = "whitelist" ->
         (isExtensionFiltered cfg extname = true
          <-> listedIgnoringCase cfg extname = false)).

(** ** Fragment names as decimal numerals *)



(** The request that carries fragment [i] of a session. *)
Definition fragmentRequest (uuid : string) (total : option string)
    (clientName : string) (payload : nat -> list Byte.byte) (i : nat)
  : ChunkRequest :=
  {| c_uuid := uuid;
     c_totalchunkcount := total;
     c_chunkindex := pretty i;
     c_files := [(clientName, payload i)] |}.





(** ** The filter text of the translation example *)





(** ** A concrete host and configuration for running the model *)

(** A decimal reader for whole numbers: [None] on anything else. *)
Fixpoint readDigits (acc : Z) (s : string) : option Z :=
  match s with
  | EmptyString => Some acc
  | String c r =>
      if is_digit c then readDigits (10 * acc + digit_value c) r else None
  end.

Definition readNumber (s : string) : option Z :=
  match s with
  | EmptyString => None
  | _ => readDigits 0 s
  end.

(** The extension of a file name, from its last dot on, in lower case. *)
Fixpoint lastExtension (s : string) : string :=
  match s with
  | EmptyString => EmptyString
  | String c r =>
      match lastExtension r with
      | EmptyString => if Ascii.eqb c "." then toLowerCase s else EmptyString
      | e => e
      end
  end.

Fixpoint repeatChar (c : ascii) (n : nat) : string :=
  match n with
  | O => EmptyString
  | S k => String c (repeatChar c k)
  end.

(** The content itself, read as text, stands for its digest: equal digests
    mean equal content.  The [n]-th random string repeats the [n]-th letter
    of the alphabet. *)
Definition sampleHost : Host :=
  {| parseFloat := fun s => Qc_of_Z <$> readNumber s;
     parseInt := readNumber;
     toNumber := readNumber;
     toNumberQ := fun s => Qc_of_Z <$> readNumber s;
     md5 := string_of_list_byte;
     generate := fun n len => repeatChar (ascii_of_nat (97 + n mod 26)) len;
     idMaxTries := 3;
     utils_extname := lastExtension;
     uploadsDir := "uploads";
     chunksDir := "chunks";
     timezoneOffset := 0;
     inheritedKey := fun key =>
       includes_str key
         ["constructor"; "__proto__"; "hasOwnProperty"; "isPrototypeOf";
          "propertyIsEnumerable"; "toLocaleString"; "toString"; "valueOf";
          "__defineGetter__"; "__defineSetter__"; "__lookupGetter__";
          "__lookupSetter__"];
     unsafeMinusOneText := fun _ => "1e+21";
     scanVerdict := fun _ _ => None;
     stripTagsError := fun _ _ => None |}.

Definition sampleConfig : Config :=
  {| filterNoExtension := false;
     extensionsFilter := [".exe"];
     extensionsFilterMode := "blacklist";
     temporaryUploadAges := [Qc_of_Z 0; Qc_of_Z 1; Qc_of_Z 24];
     cacheFileIdentifiers := true;
     filterEmptyFile := true;
     storeIP := true;
     maxSize := 512;
     chunkSize := true;
     fileIdentifierLength := None;
     domain := "https://example.org" |}.

Definition withExtensions (mode : string) (exts : list string) : Config :=
  {| filterNoExtension := false;
     extensionsFilter := exts;
     extensionsFilterMode := mode;
     temporaryUploadAges := [];
     cacheFileIdentifiers := true;
     filterEmptyFile := true;
     storeIP := true;
     maxSize := 512;
     chunkSize := true;
     fileIdentifierLength := None;
     domain := "https://example.org" |}.

Definition withAges (ages : list Qc) : Config :=
  {| filterNoExtension := false;
     extensionsFilter := [];
     extensionsFilterMode := "blacklist";
     temporaryUploadAges := ages;
     cacheFileIdentifiers := true;
     filterEmptyFile := true;
     storeIP := true;
     maxSize := 512;
     chunkSize := true;
     fileIdentifierLength := None;
     domain := "https://example.org" |}.

Definition emptyState : State :=
  {| chunksData := ∅; disk := ∅; idSet := ∅; draws := 0;
     files_table := []; albums_table := [] |}.

Definition sampleRequest : Request :=
  {| req_ip := "10.0.0.1"; req_nojs := false; req_striptags := None;
     req_now := 1600000000000 |}.

(** Fragment [i] holds the letter a followed by the [i]-th letter. *)
Definition samplePayload (i : nat) : list Byte.byte :=
  [Byte.x61;
   match i with
   | 0%nat => Byte.x61
   | 1%nat => Byte.x62
   | 2%nat => Byte.x63
   | _ => Byte.x7a
   end].

Definition sampleUsers : list User :=
  [{| u_id := 1; u_username := "alice" |};
   {| u_id := 2; u_username := "bob" |}].

Definition sampleModerator : User := {| u_id := 1; u_username := "alice" |}.

Definition bob : User := {| u_id := 2; u_username := "bob" |}.

Definition sampleBytes : list Byte.byte := [Byte.x61; Byte.x62; Byte.x63].

(** Three files with the same three bytes, freshly written. *)
Definition sampleStore : State :=
  set_disk (fun _ => {[ "uploads/a.png" := sampleBytes;
                        "uploads/b.png" := sampleBytes;
                        "uploads/c.png" := sampleBytes ]}) emptyState.

Definition sampleInfo (storedName : string) : Info :=
  infoOf sampleHost None AgeNull
    {| m_filename := storedName; m_originalname := "photo.png";
       m_extname := ".png"; m_mimetype := "image/png"; m_size := 3 |}.

(** A session of three fragments of two bytes each. *)
Definition sampleSession : State :=
  snd (forEachM (receiveChunk sampleHost sampleConfig sampleRequest None)
         (map (fragmentRequest "u1" (Some "3") "blob" samplePayload)
              [2; 0; 1]%nat) emptyState).

(** A session in which fragment 1 was sent twice, two bytes and then one:
    five bytes are tracked, the second file holds one byte. *)
Definition resentSession : State :=
  snd (forEachM (receiveChunk sampleHost sampleConfig sampleRequest None)
         [fragmentRequest "u1" (Some "2") "blob" samplePayload 0;
          fragmentRequest "u1" (Some "2") "blob" samplePayload 1;
          fragmentRequest "u1" (Some "2") "blob" (fun _ => [Byte.x7a]) 1]
         emptyState).

(** The finalize request for session [u1], claiming [claimed] bytes. *)
Definition sampleFinish (claimed : Z) : FinishFile :=
  {| ff_uuid := Some "u1"; ff_original := Some "movie.bin"; ff_type := None;
     ff_albumid := None; ff_age := None; ff_filelength := None;
     ff_size := Some claimed |}.

(** The store once the first of the three files is recorded for the
    moderator. *)
Definition afterFirstStore : State :=
  snd (storeFilesToDb sampleHost sampleConfig sampleRequest (Some sampleModerator)
         [sampleInfo "a.png"] sampleStore).

(** An upload of the first file with the given age header. *)
Definition sampleUpload (age : option string) : UploadRequest :=
  {| up_req := sampleRequest; up_age := age; up_albumid := None;
     up_uuid := None;
     up_files := [{| m_filename := "a.png"; m_originalname := "photo.png";
                     m_extname := ".png"; m_mimetype := "image/png";
                     m_size := 3 |}] |}.

(** ** The size check of a finalisation, against the claimed size *)

(** A finalisation that succeeds has stored a file of the size claimed in
    the finalize request. *)
Definition finalize_compares_claimed_size : Prop :=
  forall (h : Host) (cfg : Config) (req : Request) (user : option User)
         (file : FinishFile) (claimed : Z) (st st' : State)
         (files : list UploadedFile),
    ff_size file = Some claimed ->
    finishChunks h cfg req user [file] st = (RespFiles files, st') ->
    forall entry bytes,
      entry ∈ files ->
      disk st' !! path_join (uploadsDir h) (name entry) = Some bytes ->
      Z.of_nat (List.length bytes) = claimed.

(** * The rest of the controller and the [/info] route *)

(** ** A store with albums *)

(** Album 7 belongs to bob, album 8 to the moderator. *)
Definition sampleAlbums : State :=
  set_albums_table
    (fun _ => [{| a_id := 7; a_userid := 2; a_editedAt := 0 |};
               {| a_id := 8; a_userid := 1; a_editedAt := 0 |}])
    sampleStore.

(** The descriptor of a stored file destined to album [a]. *)
Definition sampleInfoIn (storedName : string) (a : Z) : Info :=
  infoOf sampleHost (Some a) AgeNull
    {| m_filename := storedName; m_originalname := "photo.png";
       m_extname := ".png"; m_mimetype := "image/png"; m_size := 3 |}.

(** ** More JavaScript string helpers *)

(** [s.includes(needle)] *)
Fixpoint includes_sub (needle s : string) : bool :=
  String.prefix needle s
  || match s with
     | EmptyString => false
     | String _ r => includes_sub needle r
     end.

(** [s.replace(/^p/, '')] for a literal [p]. *)
Definition stripPrefix (p s : string) : string :=
  if String.prefix p s then drop_str (String.length p) s else s.

(** [s.replace(/p$/, '')] for a literal [p]. *)
Fixpoint stripSuffix (p s : string) : string :=
  if String.eqb s p then EmptyString
  else match s with
       | EmptyString => EmptyString
       | String c r => String c (stripSuffix p r)
       end.

(** [s.split(/[...]/)[0]]: the text before the first character of a class. *)
Fixpoint cutAt (sep : ascii -> bool) (s : string) : string :=
  match s with
  | EmptyString => EmptyString
  | String c r => if sep c then EmptyString else String c (cutAt sep r)
  end.

(** [s.replace(/p/g, r)] for a literal, non-empty [p] and a replacement
    without dollar sign; [fuel] bounds the number of characters scanned. *)
Fixpoint replaceAll_go (fuel : nat) (p r s : string) : string :=
  match fuel with
  | O => s
  | S k =>
      if String.prefix p s
      then r +:+ replaceAll_go k p r (drop_str (String.length p) s)
      else match s with
           | EmptyString => EmptyString
           | String c t => String c (replaceAll_go k p r t)
           end
  end.

Definition replaceAll (p r s : string) : string :=
  replaceAll_go (S (String.length s)) p r s.

(** The double quote, as a string. *)
Definition dquote : string := String "034" EmptyString.

(** The NUL character, as a string. *)
Definition nul : string := String "000" EmptyString.

(** ** Virus scan: [self.scanFiles]

    [utils.clamd] and [perms.is] are read by the controller and defined
    elsewhere. *)

Record Clamd := {
  (** [utils.clamd.groupBypass]; [None] when unset *)
  groupBypass : option string;
  (** [utils.clamd.whitelistExtensions]; [None] when unset *)
  whitelistExtensions : option (list string);
  (** [utils.clamd.maxSize]; [None] when unset *)
  clamd_maxSize : option Z;
  (** [perms.is(user, group)] *)
  perms_is : User -> string -> bool;
  (** [utils.clamd.scanner.scanFile(path, ...)]: the reply, [None] when the
      call rejects *)
  scanFile : string -> option string
}.

(** [reply.replace(/^stream: /, '').replace(/ FOUND\u0000$/, '')] *)
Definition foundThreatOf (reply : string) : string :=
  stripSuffix (" FOUND" +:+ nul) (stripPrefix "stream: " reply).

(** What the body mapped over [infoMap] does with one file. *)
Inductive ScanReply : Type :=
| ScanSkipped
| ScanClean
| ScanThreat (foundThreat : string)
| ScanRejected.

Definition scanWhitelisted (c : Clamd) (info : Info) : bool :=
  match whitelistExtensions c with
  | Some exts => includes_str (extname (data info)) exts
  | None => false
  end.

Definition scanOversized (c : Clamd) (info : Info) : bool :=
  match clamd_maxSize c with
  | Some m => negb (m =? 0) && (size (data info) >? m)
  | None => false
  end.

Definition scanOne (c : Clamd) (info : Info) : ScanReply :=
  if scanWhitelisted c info then ScanSkipped
  else if scanOversized c info then ScanSkipped
  else
    match scanFile c (path info) with
    | None => ScanRejected
    | Some reply =>
        if negb (includes_sub "OK" reply) || includes_sub "FOUND" reply
        then ScanThreat (foundThreatOf reply)
        else ScanClean
    end.

(** The file is not reported: it is not scanned, or the reply contains OK
    and does not contain FOUND. *)
Definition scanPasses (c : Clamd) (info : Info) : Prop :=
  scanWhitelisted c info = true
  \/ scanOversized c info = true
  \/ exists reply,
       scanFile c (path info) = Some reply
       /\ includes_sub "OK" reply = true
       /\ includes_sub "FOUND" reply = false.

Fixpoint foundThreats (replies : list ScanReply) : list string :=
  match replies with
  | [] => []
  | ScanThreat t :: r => t :: foundThreats r
  | _ :: r => foundThreats r
  end.

Definition isThreat (r : ScanReply) : bool :=
  match r with
  | ScanThreat _ => true
  | _ => false
  end.

(** The files of a batch that the scanner reports. *)
Definition infected (c : Clamd) (infoMap : list Info) : list Info :=
  List.filter (fun info => isThreat (scanOne c info)) infoMap.

Definition isRejected (r : ScanReply) : bool :=
  match r with
  | ScanRejected => true
  | _ => false
  end.

Definition clamavFailed : string :=
  "An unexpected error occurred with ClamAV, please contact the site owner.".

(** [results]: the promise of all scans, its [then] and its [catch].  The
    scans are taken in the order of [infoMap]. *)
Definition scanResults (c : Clamd) (infoMap : list Info) : option string :=
  let replies := map (scanOne c) infoMap in
  if existsb isRejected replies then Some clamavFailed
  else
    match foundThreats replies with
    | [] => None
    | t :: more =>
        Some ("Threat found: " +:+ t
              +:+ (match more with
                   | [] => ""
                   | _ => ", and more"
                   end) +:+ ".")
    end.

(** [user && utils.clamd.groupBypass && perms.is(user, utils.clamd.groupBypass)] *)
Definition scanBypassed (c : Clamd) (user : option User) : bool :=
  match user, groupBypass c with
  | Some u, Some g => str_truthy g && perms_is c u g
  | _, _ => false
  end.

(** [self.scanFiles]; [None] is a falsy result. *)
Definition scanFiles (c : Clamd) (h : Host) (user : option User)
    (infoMap : list Info) : M (option string) :=
  if scanBypassed c user then ret None
  else
    match scanResults c infoMap with
    | Some results => unlinkEach h infoMap;; ret (Some results)
    | None => ret None
    end.

(** [if (utils.clamd.scanner) { const scanResult = await self.scanFiles(..);
    if (scanResult) throw scanResult }]; [None] when there is no scanner. *)
Definition scanGuard (clamd : option Clamd) (h : Host) (user : option User)
    (infoMap : list Info) : M unit :=
  match clamd with
  | None => ret tt
  | Some c =>
      scanResult ← scanFiles c h user infoMap;
      match scanResult with
      | Some description => throw description
      | None => ret tt
      end
  end.

(** ** Upload by URLs: [self.actuallyUploadUrls] *)

Definition maxFilesPerUpload : Z := 20.

(** The part of [config.uploads] that only URL uploads read. *)
Record UrlConfig := {
  urlMaxSize : bool;                   (* truthiness of [config.uploads.urlMaxSize] *)
  urlExtensionsFilter : list string;   (* empty when not an array *)
  urlExtensionsFilterMode : string;    (* empty when unset *)
  urlProxy : option string
}.

(** What [fetch] resolves to, with the body that [buffer()] reads. *)
Record Fetched := {
  fetched_status : Z;
  fetched_statusText : string;
  fetched_contentType : option string;   (* [headers.get('content-type')] *)
  fetched_body : list Byte.byte
}.

(** The network and the two library functions applied to a URL. *)
Record Net := {
  (** [fetch(url, { size })] followed, for status 200, by [buffer()];
      [inl] is the description of the error either rejects with *)
  net_fetch : string -> string + Fetched;
  path_basename : string -> string;
  encodeURIComponent : string -> string
}.

(** [req.body.urls] *)
Inductive JsUrls : Type :=
| UrlsFalsy
| UrlsNotArray
| UrlsArray (urls : list string).

Definition urlsDisabled : string := "Upload by URLs is disabled at the moment.".
Definition urlsMissing : string :=
  "Missing " +:+ dquote +:+ "urls" +:+ dquote +:+ " property (array).".
Definition urlsTooMany : string :=
  "Maximum " +:+ pretty maxFilesPerUpload +:+ " URLs at a time.".
Definition invalidUrlFilter : string :=
  "Invalid extensions filter, please contact the site owner.".

(** "Extensions filter" (lines 311-322): [inl] is the description thrown
    for a mode without list. *)
Definition urlFiltered (cfg : Config) (uc : UrlConfig) (extname : string)
  : string + bool :=
  if includes_str (urlExtensionsFilterMode uc) ["blacklist"; "whitelist"] then
    if negb (Nat.eqb (List.length (urlExtensionsFilter uc)) 0) then
      let matched :=
        existsb (fun extension => String.eqb extname (toLowerCase extension))
                (urlExtensionsFilter uc) in
      let whitelist := String.eqb (urlExtensionsFilterMode uc) "whitelist" in
      inr ((negb whitelist && matched) || (whitelist && negb matched))
    else inl invalidUrlFilter
  else inr (isExtensionFiltered cfg extname).

(** [url.replace(/^https?:\/\//, '')] *)
Definition stripProtocol (url : string) : string :=
  if String.prefix "http://" url then drop_str 7 url
  else if String.prefix "https://" url then drop_str 8 url
  else url.

(** The address fetched: the proxy template with both placeholders
    replaced, when a proxy is configured. *)
Definition proxied (net : Net) (uc : UrlConfig) (url : string) : string :=
  match urlProxy uc with
  | Some p =>
      if str_truthy p then
        replaceAll "{url-noprot}" (encodeURIComponent net (stripProtocol url))
          (replaceAll "{url}" (encodeURIComponent net url) p)
      else url
  | None => url
  end.

Definition isQueryOrHash (c : ascii) : bool :=
  Ascii.eqb c "?" || Ascii.eqb c "#".

(** What the body mapped over [urls] holds once the file is written. *)
Record Downloaded := {
  dl_name : string;
  dl_original : string;
  dl_extname : string;
  dl_destination : string;
  dl_fetched : Fetched
}.

(** Lines 308-344: from the URL to the written file. *)
Definition saveUrl (h : Host) (cfg : Config) (uc : UrlConfig) (net : Net)
    (filelength : option string) (url : string) : M Downloaded :=
  let original := cutAt isQueryOrHash (path_basename net url) in
  let extname := utils_extname h original in
  match urlFiltered cfg uc extname with
  | inl description => throw description
  | inr true => throw (notPermitted extname)
  | inr false =>
      match net_fetch net (proxied net uc url) with
      | inl description => throw description
      | inr fetchFile =>
          if negb (fetched_status fetchFile =? 200)
          then throw (pretty (fetched_status fetchFile) +:+ " "
                      +:+ fetched_statusText fetchFile)
          else
            let length := parseFileIdentifierLength h cfg filelength in
            name ← getUniqueRandomName h cfg (Z.to_nat length) extname;
            let destination := path_join (uploadsDir h) name in
            modify (set_disk (insert destination (fetched_body fetchFile)));;
            ret {| dl_name := name; dl_original := original;
                   dl_extname := extname; dl_destination := destination;
                   dl_fetched := fetchFile |}
      end
  end.

(** Lines 347-358: the descriptor pushed to [infoMap]; [None] when there is
    no content type to split. *)
Definition infoOfDownload (albumid : option Z) (age : JsAge) (d : Downloaded)
  : option Info :=
  match fetched_contentType (dl_fetched d) with
  | None => None
  | Some contentType =>
      Some {| path := dl_destination d;
              data := {| filename := dl_name d;
                         originalname := dl_original d;
                         extname := dl_extname d;
                         mimetype := cutAt (Ascii.eqb ";") contentType;
                         size := Z.of_nat (List.length (fetched_body (dl_fetched d)));
                         albumid := albumid;
                         age := age |} |}
  end.

(** The bodies mapped over [urls], taken in order.  The second component is
    the array [downloaded] as the last body left it. *)
Fixpoint downloadUrls (h : Host) (cfg : Config) (uc : UrlConfig) (net : Net)
    (filelength : option string) (albumid : option Z) (age : JsAge)
    (urls : list string) (downloaded : list string) (st : State)
  : Outcome (list Info) * list string * State :=
  match urls with
  | [] => (Returned [], downloaded, st)
  | url :: rest =>
      match saveUrl h cfg uc net filelength url st with
      | (Thrown description, st1) => (Thrown description, downloaded, st1)
      | (Returned d, st1) =>
          let downloaded1 := (downloaded ++ [dl_destination d])%list in
          match infoOfDownload albumid age d with
          | None => (Thrown "TypeError", downloaded1, st1)
          | Some info =>
              match downloadUrls h cfg uc net filelength albumid age rest
                      downloaded1 st1 with
              | (Returned infoMap, downloaded2, st2) =>
                  (Returned (info :: infoMap), downloaded2, st2)
              | (Thrown description, downloaded2, st2) =>
                  (Thrown description, downloaded2, st2)
              end
          end
      end
  end.

(** [Promise.all(downloaded.map(file => utils.unlinkFile(file).catch(logger.error)))] *)
Fixpoint unlinkDownloaded (h : Host) (downloaded : list string) : M unit :=
  match downloaded with
  | [] => ret tt
  | file :: rest => swallow (unlinkFile h file);; unlinkDownloaded h rest
  end.

(** [self.actuallyUploadUrls].  A description stands for the error thrown
    and for its [toString()] alike, so the two branches that end the
    [catch] block are one. *)
Definition actuallyUploadUrls (h : Host) (cfg : Config) (uc : UrlConfig)
    (net : Net) (clamd : option Clamd) (req : Request)
    (filelength : option string) (user : option User) (albumid : option Z)
    (age : JsAge) (body_urls : JsUrls) : M Response :=
  if negb (urlMaxSize uc) then throw urlsDisabled
  else
    match body_urls with
    | UrlsFalsy | UrlsNotArray => throw urlsMissing
    | UrlsArray urls =>
        if Z.of_nat (List.length urls) >? maxFilesPerUpload
        then throw urlsTooMany
        else fun st =>
          match downloadUrls h cfg uc net filelength albumid age urls [] st with
          | (Thrown description, downloaded, st1) =>
              (Thrown description, snd (unlinkDownloaded h downloaded st1))
          | (Returned infoMap, _, st1) =>
              (* downloaded.length = 0 *)
              (scanGuard clamd h user infoMap;;
               result ← storeFilesToDb h cfg req user infoMap;
               ret (sendUploadResponse cfg req result)) st1
          end
    end.

(** A request to [self.upload] whose body has a truthy [urls]. *)
Record UrlRequest := {
  ur_req : Request;
  ur_age : option string;          (* [req.headers.age] *)
  ur_albumid : option string;      (* [req.headers.albumid || req.params.albumid] *)
  ur_filelength : option string;   (* [req.headers.filelength] *)
  ur_urls : JsUrls
}.

(** [self.upload] for such a request, once the acting [user] is resolved. *)
Definition uploadUrls (h : Host) (cfg : Config) (uc : UrlConfig) (net : Net)
    (clamd : option Clamd) (user : option User) (r : UrlRequest) (st : State)
  : Response * State :=
  let albumid := ur_albumid r ≫= parseInt h in
  match upload_age h cfg (ur_age r) with
  | inl description => (RespFailure 200 description, st)
  | inr age =>
      match actuallyUploadUrls h cfg uc net clamd (ur_req r) (ur_filelength r)
              user albumid (age_of_option age) (ur_urls r) st with
      | (Returned resp, st') => (resp, st')
      | (Thrown description, st') => (RespFailure 400 description, st')
      end
  end.

(** ** The callbacks given to multer: [fileFilter], [destination], [filename] *)

(** "Re-map Dropzone keys": one iteration of the loop over the keys of
    [req.body].  A key deleted before its turn is not visited. *)
Definition remapKey (body : gmap string string) (key : string)
  : gmap string string :=
  if String.prefix "dz" key then
    match body !! key with
    | Some value => delete key (<[drop_str 2 key := value]> body)
    | None => body
    end
  else body.

(** The loop; [keys] are the keys of [req.body] in the order in which
    [for ... in] enumerates them, fixed when the loop starts. *)
Definition remapDropzone (keys : list string) (body : gmap string string)
  : gmap string string :=
  foldl remapKey body keys.

Definition chunksDisabled : string := "Chunked uploads are disabled at the moment.".
(** [fileFilter]: [inl] is the error handed to the callback, [inr] the
    extension recorded on the file and the body as the loop left it. *)
Definition fileFilter (h : Host) (cfg : Config) (keys : list string)
    (body : gmap string string) (originalname : string)
  : string + (string * gmap string string) :=
  let file_extname := utils_extname h originalname in
  if isExtensionFiltered cfg file_extname then inl (notPermitted file_extname)
  else
    let body' := remapDropzone keys body in
    if bool_decide (is_Some (body' !! "chunkindex")) && negb (chunkSize cfg)
    then inl chunksDisabled
    else inr (file_extname, body').

(** [!chunkedUploads || (req.body.uuid === undefined && req.body.chunkindex === undefined)] *)
Definition isPlainUpload (cfg : Config) (body : gmap string string) : bool :=
  negb (chunkSize cfg)
  || (bool_decide (body !! "uuid" = None)
      && bool_decide (body !! "chunkindex" = None)).

Definition multerDestination (h : Host) (cfg : Config)
    (body : gmap string string) : M string :=
  if isPlainUpload cfg body then ret (uploadsDir h)
  else initChunksOf h (body !! "uuid").

Definition multerFilename (h : Host) (cfg : Config) (filelength : option string)
    (body : gmap string string) (file_extname : string) : M string :=
  if isPlainUpload cfg body then
    getUniqueRandomName h cfg
      (Z.to_nat (parseFileIdentifierLength h cfg filelength)) file_extname
  else
    ret (chunkFilename h (body !! "totalchunkcount")
           (default "undefined" (body !! "chunkindex"))).

(** A file part of a multipart request, as multer reads it. *)
Record Part := {
  part_originalname : string;
  part_mimetype : string;
  part_content : list Byte.byte
}.

(** One file of a multipart request through the three callbacks and the
    write of the disk storage; the second component is [req.body] as the
    file left it.  The limits of multer are not part of it. *)
Definition multerFile (h : Host) (cfg : Config) (filelength : option string)
    (keys : list string) (body : gmap string string) (file : Part)
  : M (MulterFile * gmap string string) :=
  match fileFilter h cfg keys body (part_originalname file) with
  | inl description => throw description
  | inr (file_extname, body') =>
      dir ← multerDestination h cfg body';
      fileName ← multerFilename h cfg filelength body' file_extname;
      modify (set_disk (insert (path_join dir fileName) (part_content file)));;
      ret ({| m_filename := fileName;
              m_originalname := part_originalname file;
              m_extname := file_extname;
              m_mimetype := part_mimetype file;
              m_size := Z.of_nat (List.length (part_content file)) |}, body')
  end.

(** ** Listing uploads: what [self.list] asks of the store *)

Record ListRequest := {
  l_all : option string;        (* [req.headers.all] *)
  l_filters : option string;    (* [req.headers.filters] *)
  l_minoffset : option Z;       (* the number [req.headers.minoffset] coerces to *)
  l_id : option string;         (* [req.params.id] *)
  l_page : option string        (* [req.params.page] *)
}.

(** The second query on the files table; the count that precedes it uses
    the same predicate. *)
Record StoreQuery := {
  sq_where : Predicate;
  sq_orderByRaw : string;
  sq_limit : Z;
  sq_offset : option Z;         (* [None] is [NaN] *)
  sq_columns : list string
}.

Inductive ListOutcome : Type :=
| ListForbidden                                   (* [res.status(403).end()] *)
| ListFailed (status : Z) (description : string)
| ListQuery (q : StoreQuery).

Definition header_truthy (v : option string) : bool :=
  match v with
  | Some s => str_truthy s
  | None => false
  end.

Definition unexpectedError : string := "An unexpected error occurred. Try again?".

(** [self.list] up to the page query, for the user that [utils.authorize]
    returned; [ismoderator] is [perms.is(user, 'moderator')]. *)
Definition listQuery (h : Host) (cfg : Config) (users_table : list User)
    (now : Z) (ismoderator : bool) (user : User) (r : ListRequest)
  : ListOutcome :=
  let all := header_truthy (l_all r) in
  if (all || header_truthy (l_filters r)) && negb ismoderator then ListForbidden
  else
    let translated :=
      match l_filters r with
      | Some (String c s) =>
          translateFilters h users_table now (l_minoffset r) (String c s)
      | _ =>
          inr ({| uploaders := []; excludeUploaders := [];
                  queries := emptyQueries;
                  flag_noip := false; flag_nouser := false |}, [])
      end in
    match translated with
    | inl description => ListFailed 200 description
    | inr (f, parsed) =>
        match filterPredicate (l_id r) all user f with
        | inl _ => ListFailed 500 unexpectedError
        | inr p =>
            ListQuery
              {| sq_where := p;
                 sq_orderByRaw := match parsed with
                                  | [] => "`id` desc"
                                  | _ => String.concat ", " parsed
                                  end;
                 sq_limit := 25;
                 sq_offset := match l_page r with
                              | None => Some 0
                              | Some page => Z.mul 25 <$> toNumber h page
                              end;
                 sq_columns :=
                   (["id"; "name"; "userid"; "size"; "timestamp"]
                    ++ (if temporaryUploads cfg then ["expirydate"] else [])
                    ++ [if all then "ip" else "albumid"])%list |}
        end
    end.

(** ** Who uploads: the first lines of [self.upload] and [self.finishChunks] *)

(** A row of the [users] table as these lines read it; [acc_enabled] is
    false for [false] and for [0]. *)
Record Account := {
  acc_user : User;
  acc_token : string;
  acc_enabled : bool
}.

Inductive Uploader : Type :=
| Proceed (user : option User)
| Disabled                       (* 'This account has been disabled.' *)
| Answered.                      (* [utils.authorize] has sent the response *)

Definition accountDisabled : string := "This account has been disabled.".

(** [private] is [config.private === true]; [authorized] is what
    [utils.authorize] returns. *)
Definition resolveUploader (private : bool) (authorized : option User)
    (accounts : list Account) (token : option string) : Uploader :=
  if private then
    match authorized with
    | Some u => Proceed (Some u)
    | None => Answered
    end
  else if header_truthy token then
    match List.find (fun a => String.eqb (acc_token a) (default "" token))
                    accounts with
    | Some a => if acc_enabled a then Proceed (Some (acc_user a)) else Disabled
    | None => Proceed None
    end
  else Proceed None.

(** [self.upload] for a multipart request, from its first line; [None]
    when the controller sends nothing itself. *)
Definition uploadAs (h : Host) (cfg : Config) (private : bool)
    (authorized : option User) (accounts : list Account)
    (token : option string) (r : UploadRequest) (st : State)
  : option Response * State :=
  match resolveUploader private authorized accounts token with
  | Proceed user =>
      let '(resp, st') := upload h cfg user r st in (Some resp, st')
  | Disabled => (Some (RespFailure 200 accountDisabled), st)
  | Answered => (None, st)
  end.

(** ** [src/routes/api.js]: the [/info] route *)

Record ApiConfig := {
  api_TOKEN : bool;                  (* [config.TOKEN === true] *)
  api_clientToken : option string;   (* [config.clientToken] *)
  api_maxsize : string               (* [config.uploads.maxsize] *)
}.

Inductive InfoResponse : Type :=
| NotAuthorized                      (* status 401, 'not-authorized' *)
| MaxFileSize (maxFileSize : string).

(** [s.slice(0, -2)] *)
Definition slice_0_neg2 (s : string) : string :=
  String.substring 0 (String.length s - 2) s.

(** [auth] is [req.headers.auth]. *)
Definition info (c : ApiConfig) (auth : option string) : InfoResponse :=
  if api_TOKEN c && negb (bool_decide (auth = api_clientToken c))
  then NotAuthorized
  else MaxFileSize (slice_0_neg2 (api_maxsize c)).

(** ** Stripping tags: [self.parseStripTags] and [self.stripTags] *)

(** [config.uploads.stripTags], by the truthiness of its two fields. *)
Record StripTagsConfig := {
  strip_force : bool;
  strip_default : bool
}.

(** [stripTags] is the request header; [None] for a configuration without
    [stripTags]. *)
Definition parseStripTags (h : Host) (sc : option StripTagsConfig)
    (stripTags : option string) : bool :=
  match sc with
  | None => false
  | Some c =>
      match stripTags with
      | Some v =>
          if strip_force c then strip_default c
          else match parseInt h v with
               | Some n => negb (n =? 0)
               | None => false
               end
      | None => strip_default c
      end
  end.

(** [self.stripTags], with the configuration made explicit; [strip] is
    [utils.stripTags(filename, extname)], whatever it does to the file. *)
Definition stripTagsWith (h : Host) (sc : option StripTagsConfig)
    (strip : string -> string -> M unit)
    (req : Request) (infoMap : list Info) : M unit :=
  if negb (parseStripTags h sc (req_striptags req)) then ret tt
  else
    onThrow
      (forEachM (fun info => strip (filename (data info)) (extname (data info)))
                infoMap;;
       ret tt)
      (unlinkEach h infoMap).

(** ** Further samples *)

(** The sample configuration with a maximal size of 2 MB. *)
Definition tinyConfig : Config :=
  {| filterNoExtension := false;
     extensionsFilter := [".exe"];
     extensionsFilterMode := "blacklist";
     temporaryUploadAges := [Qc_of_Z 0; Qc_of_Z 1; Qc_of_Z 24];
     cacheFileIdentifiers := true;
     filterEmptyFile := true;
     storeIP := true;
     maxSize := 2;
     chunkSize := true;
     fileIdentifierLength := None;
     domain := "https://example.org" |}.

(** The sample configuration without chunked uploads. *)
Definition plainConfig : Config :=
  {| filterNoExtension := false;
     extensionsFilter := [".exe"];
     extensionsFilterMode := "blacklist";
     temporaryUploadAges := [Qc_of_Z 0; Qc_of_Z 1; Qc_of_Z 24];
     cacheFileIdentifiers := true;
     filterEmptyFile := true;
     storeIP := true;
     maxSize := 512;
     chunkSize := false;
     fileIdentifierLength := None;
     domain := "https://example.org" |}.

(** A scanner that finds a test signature in [b.png] and nothing
    elsewhere; text files are not scanned, and the moderator bypasses the
    scan. *)
Definition sampleClamd : Clamd :=
  {| groupBypass := Some "moderator";
     whitelistExtensions := Some [".txt"];
     clamd_maxSize := Some 1000000;
     perms_is := fun u group => (u_id u =? 1) && String.eqb group "moderator";
     scanFile := fun p =>
       if String.eqb p "uploads/b.png"
       then Some ("stream: Eicar-Test-Signature FOUND" +:+ nul)
       else Some ("stream: OK" +:+ nul) |}.

Definition sampleUrlConfig : UrlConfig :=
  {| urlMaxSize := true;
     urlExtensionsFilter := [];
     urlExtensionsFilterMode := "";
     urlProxy := None |}.

(** One address answers with three bytes, every other one with 404; the
    base name of a URL is what follows its last slash. *)
Definition sampleNet : Net :=
  {| net_fetch := fun url =>
       if String.eqb url "https://example.org/cat.png?size=big"
       then inr {| fetched_status := 200; fetched_statusText := "OK";
                   fetched_contentType := Some "image/png; charset=binary";
                   fetched_body := sampleBytes |}
       else inr {| fetched_status := 404; fetched_statusText := "Not Found";
                   fetched_contentType := None; fetched_body := [] |};
     path_basename := fun url => List.last (split_on "/" url) "";
     encodeURIComponent := fun s => s |}.

Definition sampleUrlRequest (url : string) : UrlRequest :=
  {| ur_req := sampleRequest; ur_age := None; ur_albumid := None;
     ur_filelength := None; ur_urls := UrlsArray [url] |}.

(** The fields of a fragment request sent by Dropzone, after a stale plain
    [uuid]. *)
Definition sampleBody : gmap string string :=
  list_to_map [("uuid", "stale"); ("dzuuid", "u1"); ("dzchunkindex", "3");
               ("name", "cat.png")].

(** A picture of three bytes sent as a file part. *)
Definition samplePart : Part :=
  {| part_originalname := "cat.png"; part_mimetype := "image/png";
     part_content := sampleBytes |}.

(** A batch of two files, the second one empty. *)
Definition sampleBatch : list MulterFile :=
  [{| m_filename := "a.png"; m_originalname := "photo.png";
      m_extname := ".png"; m_mimetype := "image/png"; m_size := 3 |};
   {| m_filename := "b.png"; m_originalname := "empty.png";
      m_extname := ".png"; m_mimetype := "image/png"; m_size := 0 |}].

(** * Properties *)

(** ** Extension policy *)

Lemma toLowerCase_idem s : toLowerCase (toLowerCase s) = toLowerCase s.
Proof.
  induction s as [|c r IH]; [done|]. simpl. rewrite IH. f_equal.
  revert c. by intros [[] [] [] [] [] [] [] []].
Qed.

Lemma extension_match_lower cfg extname :
  toLowerCase extname = extname ->
  extension_match cfg extname = listedIgnoringCase cfg extname.
Proof.
  intros Hl. unfold extension_match, listedIgnoringCase. by rewrite Hl.
Qed.

(** C6, as amended.  For an extension in lower case (what the callers
    pass, leading dot included): no extension is filtered exactly when
    extension-less files are disallowed; otherwise, with a non-empty
    configured list, the blacklist filters the listed extensions and the
    whitelist the unlisted ones, the configured entries being compared in
    lower case; with an empty list nothing that has an extension is
    filtered. *)
Theorem isExtensionFiltered_spec (cfg : Config) (extname : string) :
  toLowerCase extname = extname ->
  isExtensionFiltered cfg extname =
    match extname with
    | EmptyString => filterNoExtension cfg
    | _ =>
        match extensionsFilter cfg with
        | [] => false
        | _ =>
            if String.eqb (extensionsFilterMode cfg) "whitelist"
            then negb (listedIgnoringCase cfg extname)
            else listedIgnoringCase cfg extname
        end
    end.
Proof.
  intros Hl. unfold isExtensionFiltered, extensionsFilter_on.
  rewrite (extension_match_lower _ _ Hl).
  destruct extname as [|c r]; simpl.
  - by destruct (filterNoExtension cfg).
  - destruct (extensionsFilter cfg) as [|e es] eqn:He; simpl; [done|].
    destruct (String.eqb (extensionsFilterMode cfg) "whitelist");
      by destruct (listedIgnoringCase cfg (String c r)).
Qed.

Lemma isExtensionFiltered_spec_witness :
  isExtensionFiltered (withExtensions "blacklist" [".exe"]) ".exe" = true
  /\ isExtensionFiltered (withExtensions "whitelist" [".png"]) ".jpg" = true
  /\ isExtensionFiltered (withExtensions "whitelist" [".PNG"]) ".png" = false.
Proof.
  split; [|split].
  - rewrite (isExtensionFiltered_spec (withExtensions "blacklist" [".exe"]) ".exe");
      reflexivity.
  - rewrite (isExtensionFiltered_spec (withExtensions "whitelist" [".png"]) ".jpg");
      reflexivity.
  - rewrite (isExtensionFiltered_spec (withExtensions "whitelist" [".PNG"]) ".png");
      reflexivity.
Defined.

(** C6, as stated, fails: an upper-case extension passes a blacklist that
    lists it in lower case. *)
Lemma extension_policy_is_case_sensitive : ~ extension_policy_ignoring_case.
Proof.
  intros H.
  destruct (H (withExtensions "blacklist" [".exe"]) ".EXE") as (_ & Hb & _).
  destruct (Hb ltac:(discriminate) eq_refl) as [_ Hf].
  specialize (Hf eq_refl). discriminate Hf.
Qed.

(** A whitelist that is empty filters nothing, although no extension is
    listed. *)
Example empty_whitelist_filters_nothing :
  isExtensionFiltered (withExtensions "whitelist" []) ".jpg" = false
  /\ listedIgnoringCase (withExtensions "whitelist" []) ".jpg" = false.
Proof. split; reflexivity. Qed.

(** ** Retention age *)

Lemma includes_num_elem_of (x : Qc) (arr : list Qc) :
  includes_num x arr = true <-> x ∈ arr.
Proof.
  unfold includes_num. rewrite existsb_exists. split.
  - intros (a & Ha & Heq). apply bool_decide_eq_true in Heq. subst a.
    by apply list_elem_of_In.
  - intros Hx. exists x. split; [by apply list_elem_of_In|].
    by apply bool_decide_eq_true.
Qed.

Lemma includes_num_not_elem_of (x : Qc) (arr : list Qc) :
  includes_num x arr = false <-> x ∉ arr.
Proof.
  rewrite <- includes_num_elem_of. by destruct (includes_num x arr).
Qed.

Lemma parseUploadAge_listed h cfg s (q : Qc) :
  parseFloat h s = Some q -> q ∈ temporaryUploadAges cfg ->
  parseUploadAge h cfg (Some s) = Some q.
Proof.
  intros Hp Hin. unfold parseUploadAge. rewrite Hp.
  apply includes_num_elem_of in Hin. by rewrite Hin.
Qed.

Lemma parseUploadAge_unlisted h cfg s :
  (forall q, parseFloat h s = Some q -> q ∉ temporaryUploadAges cfg) ->
  parseUploadAge h cfg (Some s) = None.
Proof.
  intros Hn. unfold parseUploadAge.
  destruct (parseFloat h s) as [q|] eqn:Hp; [|done].
  specialize (Hn q eq_refl). apply includes_num_not_elem_of in Hn.
  by rewrite Hn.
Qed.

(** C5.  With temporary uploads enabled, a requested age that is in the
    allow-set resolves to exactly that value; a requested age that is not
    resolves to no age, and the upload is then rejected with "Permanent
    uploads are not permitted." if and only if 0 is not in the allow-set.
    With the allow-set {0, 1, 24}: 24 resolves to 24 and 2 to no age. *)
Theorem parseUploadAge_resolves (h : Host) (cfg : Config) (s : string) :
  temporaryUploads cfg = true ->
  (forall q, parseFloat h s = Some q -> q ∈ temporaryUploadAges cfg ->
     parseUploadAge h cfg (Some s) = Some q
     /\ upload_age h cfg (Some s) =
          (if age_rejected cfg (Some q) then inl permanentNotPermitted
           else inr (Some q)))
  /\ ((forall q, parseFloat h s = Some q -> q ∉ temporaryUploadAges cfg) ->
      parseUploadAge h cfg (Some s) = None
      /\ (upload_age h cfg (Some s) = inl permanentNotPermitted
          <-> Qc_of_Z 0 ∉ temporaryUploadAges cfg))
  /\ (temporaryUploadAges cfg = [Qc_of_Z 0; Qc_of_Z 1; Qc_of_Z 24] ->
      (parseFloat h s = Some (Qc_of_Z 24) ->
         parseUploadAge h cfg (Some s) = Some (Qc_of_Z 24))
      /\ (parseFloat h s = Some (Qc_of_Z 2) ->
         parseUploadAge h cfg (Some s) = None
         /\ upload_age h cfg (Some s) = inr None)).
Proof.
  intros Hon. split; [|split].
  - intros q Hp Hin. split; [by apply parseUploadAge_listed|].
    unfold upload_age. rewrite Hon.
    by rewrite (parseUploadAge_listed _ _ _ _ Hp Hin).
  - intros Hn. split; [by apply parseUploadAge_unlisted|].
    unfold upload_age. rewrite Hon, (parseUploadAge_unlisted _ _ _ Hn).
    unfold age_rejected. simpl.
    rewrite <- includes_num_not_elem_of.
    destruct (includes_num (Qc_of_Z 0) (temporaryUploadAges cfg));
      split; (done || discriminate).
  - intros Hages. split.
    + intros Hp. apply parseUploadAge_listed; [done|].
      rewrite Hages. set_solver.
    + intros Hp.
      assert (parseUploadAge h cfg (Some s) = None) as Hnone.
      { unfold parseUploadAge. rewrite Hp, Hages. reflexivity. }
      split; [done|].
      unfold upload_age. rewrite Hon, Hnone. unfold age_rejected.
      rewrite Hages. reflexivity.
Qed.

Lemma parseUploadAge_resolves_witness :
  parseUploadAge sampleHost sampleConfig (Some "24") = Some (Qc_of_Z 24)
  /\ parseUploadAge sampleHost sampleConfig (Some "2") = None
  /\ upload_age sampleHost sampleConfig (Some "2") = inr None
  /\ upload_age sampleHost (withAges [Qc_of_Z 1; Qc_of_Z 24]) (Some "2")
     = inl permanentNotPermitted.
Proof.
  destruct (parseUploadAge_resolves sampleHost sampleConfig "24" eq_refl)
    as (_ & _ & H24).
  destruct (parseUploadAge_resolves sampleHost sampleConfig "2" eq_refl)
    as (_ & _ & H2).
  destruct (parseUploadAge_resolves sampleHost
              (withAges [Qc_of_Z 1; Qc_of_Z 24]) "2" eq_refl)
    as (_ & Hrej & _).
  split; [|split; [|split]].
  - apply (H24 eq_refl). reflexivity.
  - apply (H2 eq_refl). reflexivity.
  - apply (H2 eq_refl). reflexivity.
  - apply Hrej.
    + intros q Hq. injection Hq as <-. vm_compute. intros Hin.
      repeat (apply elem_of_cons in Hin as [Hin|Hin]; [discriminate Hin|]).
      by apply elem_of_nil in Hin.
    + vm_compute. intros Hin.
      repeat (apply elem_of_cons in Hin as [Hin|Hin]; [discriminate Hin|]).
      by apply elem_of_nil in Hin.
Defined.

(** ** Identifier allocator *)

(** What one run of the allocation loop with [tries] iterations does: it
    returns the first identifier drawn that is not taken, or throws when all
    of them are. *)
Lemma getUniqueRandomName_loop_spec h cfg tries len extension st :
  match getUniqueRandomName_loop h cfg tries len extension st with
  | (Returned name, st') =>
      exists i : nat,
        (i < tries)%nat
        /\ (forall j : nat, (j < i)%nat ->
              identifierTaken h cfg st (generate h (draws st + j)%nat len)
                extension = true)
        /\ identifierTaken h cfg st (generate h (draws st + i)%nat len)
             extension = false
        /\ name = generate h (draws st + i)%nat len +:+ extension
        /\ draws st' = (draws st + i + 1)%nat
        /\ disk st' = disk st
        /\ idSet st'
           = if cacheFileIdentifiers cfg
             then {[generate h (draws st + i)%nat len]} ∪ idSet st
             else idSet st
  | (Thrown e, st') =>
      e = allocationExhausted
      /\ (forall j : nat, (j < tries)%nat ->
            identifierTaken h cfg st (generate h (draws st + j)%nat len)
              extension = true)
      /\ draws st' = (draws st + tries)%nat
      /\ disk st' = disk st
      /\ idSet st' = idSet st
  end.
Proof.
  revert st. induction tries as [|n IH]; intros st.
  - cbn. split; [done|]. split; [intros j Hj; lia|]. split; [lia|done].
  - assert (forall identifier,
              identifierTaken h cfg (set_draws S st) identifier extension
              = identifierTaken h cfg st identifier extension) as Hsame by done.
    assert (identifierTaken h cfg st (generate h (draws st) len) extension = true ->
            match getUniqueRandomName_loop h cfg n len extension (set_draws S st) with
            | (Returned name, st') =>
                exists i : nat,
                  (i < S n)%nat
                  /\ (forall j : nat, (j < i)%nat ->
                        identifierTaken h cfg st
                          (generate h (draws st + j)%nat len) extension = true)
                  /\ identifierTaken h cfg st
                       (generate h (draws st + i)%nat len) extension = false
                  /\ name = generate h (draws st + i)%nat len +:+ extension
                  /\ draws st' = (draws st + i + 1)%nat
                  /\ disk st' = disk st
                  /\ idSet st'
                     = if cacheFileIdentifiers cfg
                       then {[generate h (draws st + i)%nat len]} ∪ idSet st
                       else idSet st
            | (Thrown e, st') =>
                e = allocationExhausted
                /\ (forall j : nat, (j < S n)%nat ->
                      identifierTaken h cfg st
                        (generate h (draws st + j)%nat len) extension = true)
                /\ draws st' = (draws st + S n)%nat
                /\ disk st' = disk st
                /\ idSet st' = idSet st
            end) as Hrec.
    { intros Htaken. specialize (IH (set_draws S st)).
      destruct (getUniqueRandomName_loop h cfg n len extension (set_draws S st))
        as [[name|e] st'].
      - destruct IH as (i & Hi & Hprev & Hfree & Hname & Hdraws & Hdisk & Hset).
        exists (S i). cbn [draws set_draws] in *.
        replace (draws st + S i)%nat with (S (draws st) + i)%nat by lia.
        split; [lia|]. split; [|by rewrite <- Hsame; repeat split; try lia].
        intros [|j] Hj; [by rewrite Nat.add_0_r|].
        replace (draws st + S j)%nat with (S (draws st) + j)%nat by lia.
        rewrite <- Hsame. apply Hprev. lia.
      - destruct IH as (-> & Hall & Hdraws & Hdisk & Hset).
        cbn [draws set_draws] in *. split; [done|].
        split; [|by repeat split; try lia].
        intros [|j] Hj; [by rewrite Nat.add_0_r|].
        replace (draws st + S j)%nat with (S (draws st) + j)%nat by lia.
        rewrite <- Hsame. apply Hall. lia. }
    cbn [getUniqueRandomName_loop]. unfold identifierTaken in Hrec |- *.
    destruct (cacheFileIdentifiers cfg) eqn:Hc; cbn [idSet disk set_draws] in *.
    all: match goal with
         | |- context [bool_decide ?P] => destruct (bool_decide P) eqn:Hin
         end.
    all: try (by apply Hrec).
    all: exists 0%nat; rewrite Nat.add_0_r.
    all: (split; [lia|]); (split; [intros j Hj; lia|]); (split; [done|]).
    all: cbn [draws set_draws set_idSet idSet disk].
    all: repeat split; lia.
Qed.

(** C4.  [getUniqueRandomName] draws at most [utils.idMaxTries]
    identifiers; each is a random string of [length] characters to which
    the extension is appended; a name whose identifier is taken (in the
    cache, or on disk without cache) is never returned; in cache mode the
    returned identifier is in the set when the name is returned; if every
    attempt collides the allocation throws instead of returning a name. *)
Theorem getUniqueRandomName_spec (h : Host) (cfg : Config) (len : nat)
    (extension : string) (st : State) :
  (forall n l, String.length (generate h n l) = l) ->
  (match getUniqueRandomName h cfg len extension st with
   | (Returned name, st') =>
       (draws st < draws st' <= draws st + idMaxTries h)%nat
       /\ exists identifier,
            identifier = generate h (draws st' - 1)%nat len
            /\ String.length identifier = len
            /\ name = identifier +:+ extension
            /\ identifierTaken h cfg st identifier extension = false
            /\ (forall j : nat, (draws st + j < draws st' - 1)%nat ->
                  identifierTaken h cfg st (generate h (draws st + j)%nat len)
                    extension = true)
            /\ (cacheFileIdentifiers cfg = true ->
                (identifier ∉ idSet st)
                /\ (identifier ∈ idSet st')
                /\ idSet st' = {[identifier]} ∪ idSet st)
   | (Thrown e, st') =>
       e = allocationExhausted
       /\ draws st' = (draws st + idMaxTries h)%nat
       /\ idSet st' = idSet st
   end)
  /\ ((forall j : nat, (j < idMaxTries h)%nat ->
         identifierTaken h cfg st (generate h (draws st + j)%nat len) extension
         = true) ->
      fst (getUniqueRandomName h cfg len extension st)
      = Thrown allocationExhausted).
Proof.
  intros Hlen. unfold getUniqueRandomName.
  pose proof (getUniqueRandomName_loop_spec h cfg (idMaxTries h) len extension st)
    as Hs.
  destruct (getUniqueRandomName_loop h cfg (idMaxTries h) len extension st)
    as [[name|e] st'] eqn:Hrun; cbn [fst].
  - destruct Hs as (i & Hi & Hprev & Hfree & Hname & Hdraws & _ & Hset).
    replace (draws st' - 1)%nat with (draws st + i)%nat by lia.
    split.
    + split; [lia|]. eexists. split; [reflexivity|].
      split; [apply Hlen|]. split; [done|]. split; [done|].
      split; [intros j Hj; apply Hprev; lia|].
      intros Hcache. rewrite Hcache in Hset.
      unfold identifierTaken in Hfree. rewrite Hcache in Hfree.
      apply bool_decide_eq_false in Hfree.
      split; [done|]. split; [|done].
      rewrite Hset. by apply elem_of_union_l, elem_of_singleton.
    + intros Hall. rewrite (Hall i Hi) in Hfree. discriminate Hfree.
  - destruct Hs as (-> & Hall & Hdraws & _ & Hset). split; [|done]. done.
Qed.

Lemma repeatChar_length c n : String.length (repeatChar c n) = n.
Proof. induction n as [|n IH]; simpl; [done | by rewrite IH]. Qed.

Lemma getUniqueRandomName_spec_witness :
  getUniqueRandomName sampleHost sampleConfig 4 ".png"
    (set_idSet (fun _ => {["aaaa"]}) emptyState)
  = (Returned "bbbb.png",
     set_draws (fun _ => 2%nat)
       (set_idSet (fun _ => {["bbbb"]} ∪ {["aaaa"]}) emptyState))
  /\ fst (getUniqueRandomName sampleHost sampleConfig 4 ".png"
            (set_idSet (fun _ => {["aaaa"; "bbbb"; "cccc"]}) emptyState))
     = Thrown allocationExhausted.
Proof.
  split.
  - reflexivity.
  - apply (getUniqueRandomName_spec sampleHost sampleConfig 4 ".png").
    + intros n l. apply repeatChar_length.
    + intros j Hj. simpl in Hj.
      destruct j as [|[|[|j]]]; [vm_compute; reflexivity..|lia].
Defined.

(** ** Fragment names *)

Lemma string_app_cons c (a b : string) : String c a +:+ b = String c (a +:+ b).
Proof. reflexivity. Qed.


Lemma string_app_assoc (a b c : string) : (a +:+ b) +:+ c = a +:+ (b +:+ c).
Proof.
  induction a as [|x a IH]; [done|]. rewrite !string_app_cons. by rewrite IH.
Qed.


Lemma string_app_length (a b : string) :
  String.length (a +:+ b) = (String.length a + String.length b)%nat.
Proof.
  induction a as [|x a IH]; [done|].
  rewrite string_app_cons. cbn [String.length]. by rewrite IH.
Qed.







Lemma drop_str_app (a b : string) : drop_str (String.length a) (a +:+ b) = b.
Proof.
  induction a as [|x a IH]; [done|].
  rewrite string_app_cons. cbn [String.length drop_str]. exact IH.
Qed.





(** ** Lexicographic order on fragment names *)








(** ** Arrival and reassembly of fragments *)

Ltac unfold_M :=
  unfold mbind, M_bind, bind, mret, M_ret, ret, throw, get, modify, swallow in *.














(** Eleven fragments without a declared total: the file of fragment 0 is
    overwritten by fragment 10, and the combined file starts with fragment
    10 twice instead of fragment 0. *)
Example eleven_fragments_without_total :
  let st1 :=
    snd (forEachM (receiveChunk sampleHost sampleConfig sampleRequest None)
           (map (fragmentRequest "u1" None "blob" samplePayload) (seq 0 11))
           emptyState) in
  (chunks <$> chunksData st1 !! "u1")
  = Some ["0"; "1"; "2"; "3"; "4"; "5"; "6"; "7"; "8"; "9"; "0"]
  /\ (take 4 <$> disk (snd (combineChunks "uploads/x.bin" "u1" st1))
                   !! "uploads/x.bin")
     = Some [Byte.x61; Byte.x7a; Byte.x61; Byte.x7a]
  /\ take 4 (concat (map samplePayload (seq 0 11)))
     = [Byte.x61; Byte.x61; Byte.x61; Byte.x62].
Proof. vm_compute. done. Qed.

(** ** Filter translation *)










(** ** User lookup *)

(** C8: every supplied username matches an account, yet the translation
    fails and names nobody.  The username [alice] is supplied by both
    [user:] and [-user:]; one account is found for two names, and the empty
    array of unmatched names is truthy. *)
Theorem duplicate_username_reported_missing (now : Z) :
  selectUsers sampleUsers ["alice"; "alice"]
  = [{| u_id := 1; u_username := "alice" |}]
  /\ translateFilters sampleHost sampleUsers now (Some 0)
       "user:alice -user:alice"
     = inl "Users not found: ."
  /\ translateFilters sampleHost sampleUsers now (Some 0)
       "-user:bob -user:bob"
     = inl "Users not found: .".
Proof. split; [|split]; vm_compute; reflexivity. Qed.

(** An unmatched username is named in the failure. *)
Example unmatched_username_named (now : Z) :
  translateFilters sampleHost sampleUsers now (Some 0) "user:alice -user:carol"
  = inl "User not found: carol.".
Proof. vm_compute. reflexivity. Qed.

(** Distinct matched usernames are split between the two lists. *)
Example matched_usernames_partitioned (now : Z) :
  exists f,
    translateFilters sampleHost sampleUsers now (Some 0) "user:alice -user:bob"
    = inr (f, [])
    /\ uploaders f = [{| u_id := 1; u_username := "alice" |}]
    /\ excludeUploaders f = [{| u_id := 2; u_username := "bob" |}].
Proof. eexists. vm_compute. done. Qed.

Lemma includes_str_elem_of (x : string) (arr : list string) :
  includes_str x arr = true <-> x ∈ arr.
Proof.
  unfold includes_str. rewrite existsb_exists. split.
  - intros (y & Hy & Heq). apply String.eqb_eq in Heq. subst y.
    by apply list_elem_of_In.
  - intros Hx. exists x. split; [by apply list_elem_of_In|].
    apply String.eqb_refl.
Qed.

Lemma selectUsers_elem_of users_table usernames u :
  u ∈ selectUsers users_table usernames
  <-> u ∈ users_table /\ u_username u ∈ usernames.
Proof.
  unfold selectUsers.
  rewrite list_elem_of_In, filter_In, includes_str_elem_of, <- list_elem_of_In.
  done.
Qed.

Lemma selectUsers_NoDup users_table usernames :
  NoDup (map u_username users_table) ->
  NoDup (map u_username (selectUsers users_table usernames)).
Proof.
  unfold selectUsers.
  induction users_table as [|u users_table IH]; intros Hnd; [constructor|].
  cbn [map] in Hnd. apply list.NoDup_cons in Hnd as [Hu Hnd].
  cbn [List.filter]. destruct (includes_str (u_username u) usernames).
  - cbn [map]. apply list.NoDup_cons. split; [|by apply IH].
    intros Hin. apply Hu. apply list_elem_of_fmap in Hin as (v & Hv & Hin).
    apply list_elem_of_In, filter_In in Hin as [Hin _].
    apply list_elem_of_fmap. exists v. split; [done|by apply list_elem_of_In].
  - by apply IH.
Qed.

(** The accounts found are as many as the usernames exactly when the
    usernames are distinct and all match, given that accounts have distinct
    usernames. *)
Lemma selectUsers_length_lt users_table usernames n :
  NoDup (map u_username users_table) ->
  n ∈ usernames -> n ∉ map u_username users_table ->
  (List.length (selectUsers users_table usernames) < List.length usernames)%nat.
Proof.
  intros Hnd Hin Hmiss.
  apply elem_of_Permutation in Hin as [rest Hperm].
  rewrite (Permutation_length Hperm). cbn [List.length].
  rewrite <- (length_fmap u_username).
  apply Nat.lt_succ_r, submseteq_length, NoDup_submseteq.
  - by apply selectUsers_NoDup.
  - intros m Hm. apply list_elem_of_fmap in Hm as (u & -> & Hu).
    apply selectUsers_elem_of in Hu as [Hu Hname].
    rewrite Hperm in Hname. apply elem_of_cons in Hname as [Heq|Hname]; [|done].
    destruct Hmiss. rewrite <- Heq. apply list_elem_of_fmap. by exists u.
Qed.

Lemma selectUsers_length_eq users_table usernames :
  NoDup (map u_username users_table) -> NoDup usernames ->
  (forall n, n ∈ usernames -> n ∈ map u_username users_table) ->
  List.length (selectUsers users_table usernames) = List.length usernames.
Proof.
  intros Hnd Hnames Hall.
  rewrite <- (length_fmap u_username).
  apply Permutation_length, NoDup_Permutation; [by apply selectUsers_NoDup|done|].
  intros n. split.
  - intros Hn. apply list_elem_of_fmap in Hn as (u & -> & Hu).
    by apply selectUsers_elem_of in Hu as [_ Hname].
  - intros Hn. pose proof (Hall n Hn) as Hin.
    apply list_elem_of_fmap in Hin as (u & -> & Hu).
    apply list_elem_of_fmap. exists u. split; [done|].
    by apply selectUsers_elem_of.
Qed.

(** A supplied username that matches no account makes the lookup fail,
    and the failure names the unmatched usernames. *)
Lemma resolveUsers_unmatched users_table user exclude_user n :
  NoDup (map u_username users_table) ->
  n ∈ (default [] user ++ default [] exclude_user)%list ->
  n ∉ map u_username users_table ->
  exists notFound,
    resolveUsers users_table user exclude_user = inl (usersNotFound notFound)
    /\ forall m, m ∈ notFound
         <-> m ∈ (default [] user ++ default [] exclude_user)%list
             /\ m ∉ map u_username users_table.
Proof.
  intros Hnd Hin Hmiss.
  pose proof (selectUsers_length_lt _ _ _ Hnd Hin Hmiss) as Hlt.
  unfold resolveUsers.
  set (usernames := (default [] user ++ default [] exclude_user)%list) in *.
  set (found := selectUsers users_table usernames) in *.
  assert ((List.length found =? List.length usernames)%nat = false) as Hneq
    by (apply Nat.eqb_neq; lia).
  assert (exists notFound,
            List.filter
              (fun username =>
                 negb (existsb (fun u => String.eqb (u_username u) username) found))
              usernames = notFound
            /\ forall m, m ∈ notFound
                 <-> m ∈ usernames /\ m ∉ map u_username users_table)
    as (notFound & Hnf & Hspec).
  { eexists. split; [reflexivity|]. intros m.
    rewrite list_elem_of_In, filter_In, <- list_elem_of_In.
    split.
    - intros [Hm Hex]. split; [done|]. intros Hmt.
      apply negb_true_iff in Hex.
      assert (existsb (fun u => String.eqb (u_username u) m) found = true)
        as Hyes; [|congruence].
      apply list_elem_of_fmap in Hmt as (u & -> & Hu).
      apply existsb_exists. exists u. split; [|apply String.eqb_refl].
      apply list_elem_of_In. by apply selectUsers_elem_of.
    - intros [Hm Hmt]. split; [done|]. apply negb_true_iff.
      destruct (existsb _ found) eqn:Hex; [|done].
      apply existsb_exists in Hex as (u & Hu & Heq).
      apply String.eqb_eq in Heq. subst m.
      apply list_elem_of_In, selectUsers_elem_of in Hu as [Hu _].
      destruct Hmt. apply list_elem_of_fmap. by exists u. }
  exists notFound. split; [|done].
  destruct user as [l|], exclude_user as [l'|];
    try (rewrite Hneq; cbn [negb]; by rewrite Hnf).
  by apply elem_of_nil in Hin.
Qed.

(** Distinct usernames that all match are split between the two lists by
    the keyword that supplied them. *)
Lemma resolveUsers_matched users_table user exclude_user :
  NoDup (map u_username users_table) ->
  NoDup (default [] user ++ default [] exclude_user)%list ->
  (forall n, n ∈ (default [] user ++ default [] exclude_user)%list ->
             n ∈ map u_username users_table) ->
  exists ups excl,
    resolveUsers users_table user exclude_user = inr (ups, excl)
    /\ (forall u, u ∈ ups <-> u ∈ users_table /\ u_username u ∈ default [] user)
    /\ (forall u, u ∈ excl
          <-> u ∈ users_table /\ u_username u ∈ default [] exclude_user).
Proof.
  intros Hnd Hnames Hall.
  pose proof (selectUsers_length_eq _ _ Hnd Hnames Hall) as Hlen.
  unfold resolveUsers.
  set (usernames := (default [] user ++ default [] exclude_user)%list) in *.
  set (found := selectUsers users_table usernames) in *.
  assert ((List.length found =? List.length usernames)%nat = true) as Heq
    by by apply Nat.eqb_eq.
  set (inUser := fun u : User =>
                   match user with
                   | Some l => includes_str (u_username u) l
                   | None => false
                   end).
  assert (forall u, inUser u = true <-> u_username u ∈ default [] user) as HinUser.
  { intros u. unfold inUser. destruct user as [l|]; cbn.
    - apply includes_str_elem_of.
    - split; [done|]. intros H. by apply elem_of_nil in H. }
  assert (forall u, u ∈ List.filter inUser found
                    <-> u ∈ users_table /\ u_username u ∈ default [] user) as Hups.
  { intros u. rewrite list_elem_of_In, filter_In, <- list_elem_of_In.
    subst found. rewrite selectUsers_elem_of, HinUser. subst usernames.
    rewrite elem_of_app. split.
    - by intros [[Hu _] Hn].
    - intros [Hu Hn]. split; [split; [done | by left] | done]. }
  assert (forall u, u ∈ List.filter (fun u => negb (inUser u)) found
                    <-> u ∈ users_table
                        /\ u_username u ∈ default [] exclude_user) as Hexcl.
  { intros u. rewrite list_elem_of_In, filter_In, <- list_elem_of_In.
    subst found. rewrite selectUsers_elem_of, negb_true_iff.
    subst usernames. rewrite elem_of_app.
    apply list.NoDup_app in Hnames as (_ & Hdisj & _).
    split.
    - intros [[Hu [Hn|Hn]] Hno]; [|done].
      apply HinUser in Hn. congruence.
    - intros [Hu Hn]. split; [by auto|].
      destruct (inUser u) eqn:Hi; [|done].
      apply HinUser in Hi. by destruct (Hdisj _ Hi). }
  destruct user as [l|], exclude_user as [l'|];
    try (rewrite Heq; cbn [negb]; by eexists _, _).
  exists [], []. split; [done|].
  split; intros u; (split; [intros H; by apply elem_of_nil in H|]);
    intros [_ H]; by apply elem_of_nil in H.
Qed.

(** ** The expiry range in the store predicate *)

(** With a numeric upper end the expiry range constrains [expirydate]
    between its own two ends. *)
Lemma expiryClauses_between (f : FilterObj) (e : Range Endpoint) :
  q_expiry (queries f) = Some e -> isNumberEndpoint (to e) = true ->
  expiryClauses f = inr [WhereBetween "expirydate" (from e) (to e)].
Proof. intros He Hto. unfold expiryClauses. by rewrite He, Hto. Qed.

(** Without one, the lower bound put on [expirydate] is the [from] of the
    creation-date range. *)
Lemma expiryClauses_open (f : FilterObj) (e d : Range Endpoint) :
  q_expiry (queries f) = Some e -> isNumberEndpoint (to e) = false ->
  q_date (queries f) = Some d ->
  expiryClauses f = inr [WhereGe "expirydate" (from d)].
Proof. intros He Hto Hd. unfold expiryClauses. by rewrite He, Hto, Hd. Qed.

(** C9: a privileged listing served at midnight UTC on 2020-09-13.  The
    filter asks for uploads created from 2019-01-01 (1546300800) that expire
    from 2020-01-01 (1577836800); the predicate bounds [expirydate] by
    1546300800.  With the expiry range alone, building the predicate
    throws. *)
Theorem expiry_lower_bound_reads_date_range :
  listPredicate sampleHost sampleUsers 1599955200000 (Some 0)
    (Some "date:2019/01/01 expiry:2020/01/01") None true sampleModerator
  = inr (ByFilter [] []
           [WhereGe "timestamp" (ENumber 1546300800);
            WhereGe "expirydate" (ENumber 1546300800)] [] [])
  /\ endpointFrom sampleHost 1599955200000 (Some 0) (Some "2020/01/01")
     = ENumber 1577836800
  /\ listPredicate sampleHost sampleUsers 1599955200000 (Some 0)
       (Some "expiry:2020/01/01") None true sampleModerator
     = inl "TypeError"
  /\ listPredicate sampleHost sampleUsers 1599955200000 (Some 0)
       (Some "expiry:2020/01/01-2020/02/01") None true sampleModerator
     = inr (ByFilter [] []
              [WhereBetween "expirydate" (ENumber 1577836800)
                 (ENumber 1580515200)] [] []).
Proof. repeat (split; [vm_compute; reflexivity|]). vm_compute. reflexivity. Qed.

(** ** Dedup and persistence *)

Lemma storeOne_run h cfg req user info st :
  storeOne h cfg req user info st
  = match disk st !! path info with
    | None => (Thrown "ENOENT", st)
    | Some content =>
        match List.find (isDuplicateOf user (md5 h content) (size (data info)))
                        (files_table st) with
        | Some dbFile =>
            (Returned (inl (existingFile req info dbFile)),
             set_disk (delete (path_join (uploadsDir h) (filename (data info)))) st)
        | None =>
            (Returned (inr (newRow h cfg req user info (md5 h content))), st)
        end
    end.
Proof.
  unfold storeOne. unfold_M.
  destruct (disk st !! path info) as [content|]; [|done].
  by destruct (List.find _ (files_table st)).
Qed.

Lemma forEachM_storeOne h cfg req user infoMap st results st' :
  forEachM (storeOne h cfg req user) infoMap st = (Returned results, st') ->
  files_table st' = files_table st
  /\ albums_table st' = albums_table st
  /\ chunksData st' = chunksData st
  /\ disk st' ⊆ disk st
  /\ Forall2 (fun info res =>
                exists content, disk st !! path info = Some content
                  /\ res = lookupResult h cfg req user st info content)
             infoMap results
  /\ (forall info, info ∈ infoMap -> is_Some (disk st !! path info))
  /\ (forall info dbFile, info ∈ infoMap ->
        duplicateOf h user st info = Some dbFile ->
        disk st' !! path_join (uploadsDir h) (filename (data info)) = None).
Proof.
  revert st results.
  induction infoMap as [|info infoMap IH]; intros st results Hrun.
  - cbn in Hrun. injection Hrun as <- <-.
    repeat split; try done; intros info; intros; by apply elem_of_nil in H.
  - cbn [forEachM] in Hrun. unfold_M. rewrite storeOne_run in Hrun.
    destruct (disk st !! path info) as [content|] eqn:Hc; [|done].
    set (res := lookupResult h cfg req user st info content).
    assert (exists st1,
              match List.find (isDuplicateOf user (md5 h content) (size (data info)))
                              (files_table st) with
              | Some dbFile =>
                  (Returned (inl (existingFile req info dbFile)),
                   set_disk (delete (path_join (uploadsDir h) (filename (data info)))) st)
              | None =>
                  (Returned (inr (newRow h cfg req user info (md5 h content))), st)
              end = (Returned res, st1)
              /\ files_table st1 = files_table st
              /\ albums_table st1 = albums_table st
              /\ chunksData st1 = chunksData st
              /\ disk st1 ⊆ disk st
              /\ (forall dbFile, duplicateOf h user st info = Some dbFile ->
                    disk st1 !! path_join (uploadsDir h) (filename (data info)) = None))
      as (st1 & Hstep & Hft & Hat & Hcd & Hsub & Hdel).
    { subst res. unfold lookupResult, duplicateOf. rewrite Hc. cbn.
      destruct (List.find _ (files_table st)) as [dbFile|].
      - eexists. split; [reflexivity|]. cbn. repeat split; try done.
        + apply delete_subseteq.
        + intros _ _. apply lookup_delete_eq.
      - exists st. repeat split; try done. }
    rewrite Hstep in Hrun.
    destruct (forEachM (storeOne h cfg req user) infoMap st1)
      as [[results'|e] st2] eqn:Hrest; [|done].
    injection Hrun as <- <-.
    destruct (IH st1 results' Hrest)
      as (Hft2 & Hat2 & Hcd2 & Hsub2 & Hall & Hsome & Hdel2).
    split; [congruence|]. split; [congruence|]. split; [congruence|].
    split; [by etrans|].
    split; [|split].
    + constructor; [by exists content|].
      eapply Forall2_impl; [|exact Hall].
      intros i r (c & Hci & ->). exists c. split.
      * eapply lookup_weaken; done.
      * unfold lookupResult. by rewrite Hft.
    + intros i Hin. apply elem_of_cons in Hin as [->|Hin]; [by eexists|].
      destruct (Hsome i Hin) as [c Hci]. exists c. eapply lookup_weaken; done.
    + intros i dbFile Hin Hdup.
      apply elem_of_cons in Hin as [->|Hin].
      * eapply lookup_weaken_None; [|exact Hsub2]. by eapply Hdel.
      * destruct (Hsome i Hin) as [c1 Hc1].
        apply (Hdel2 i dbFile Hin). unfold duplicateOf in *. rewrite Hc1. cbn.
        rewrite Hft. rewrite (lookup_weaken _ _ _ _ Hc1 Hsub) in Hdup. exact Hdup.
Qed.

Lemma storeFilesToDb_returned h cfg req user infoMap st result st' :
  storeFilesToDb h cfg req user infoMap st = (Returned result, st') ->
  exists results st1,
    forEachM (storeOne h cfg req user) infoMap st = (Returned results, st1)
    /\ result
       = (map storedOfRow
            (withAuthorizedAlbums (albumidsOf (rights results))
               (authorizedIdsOf user (albumidsOf (rights results))
                  (albums_table st1))
               (rights results))
          ++ lefts results)%list
    /\ files_table st'
       = (files_table st1
          ++ withAuthorizedAlbums (albumidsOf (rights results))
               (authorizedIdsOf user (albumidsOf (rights results))
                  (albums_table st1))
               (rights results))%list
    /\ disk st' = disk st1
    /\ chunksData st' = chunksData st1.
Proof.
  unfold storeFilesToDb. unfold_M. intros Hrun.
  destruct (forEachM (storeOne h cfg req user) infoMap st)
    as [[results|e] st1] eqn:Hres; [|done].
  exists results, st1. split; [done|].
  destruct (rights results) as [|row rows] eqn:Hrows.
  - injection Hrun as <- <-. cbn. by rewrite app_nil_r.
  - set (files := row :: rows) in *.
    destruct (authorizedIdsOf user (albumidsOf files) (albums_table st1));
      injection Hrun as <- <-; done.
Qed.

Lemma withAuthorizedAlbums_rows albumids authorizedIds files :
  Forall2 (fun row row' => row' = row \/ row' = set_albumid None row)
          files (withAuthorizedAlbums albumids authorizedIds files).
Proof.
  unfold withAuthorizedAlbums. destruct albumids as [|a0 albumids].
  - induction files; constructor; auto.
  - induction files as [|file files IH]; cbn [map]; constructor; [|done].
    destruct (f_albumid file) as [a|]; [|by left].
    destruct (includes_Z a authorizedIds); [by left | by right].
Qed.

Lemma withAuthorizedAlbums_names albumids authorizedIds files :
  map f_name (withAuthorizedAlbums albumids authorizedIds files)
  = map f_name files.
Proof.
  pose proof (withAuthorizedAlbums_rows albumids authorizedIds files) as H.
  induction H as [|row row' files files' [->| ->] _ IH]; cbn; [done|..];
    by rewrite IH.
Qed.

Lemma new_rows_names h cfg req user st infoMap results :
  Forall2 (fun info res =>
             exists content, disk st !! path info = Some content
               /\ res = lookupResult h cfg req user st info content)
          infoMap results ->
  map f_name (rights results)
  = map (fun info => filename (data info))
        (List.filter (isNewFile h user st) infoMap).
Proof.
  induction 1 as [|info res infoMap results (content & Hc & ->) _ IH]; [done|].
  cbn [List.filter]. unfold isNewFile at 1, duplicateOf, lookupResult.
  rewrite Hc. cbn.
  destruct (List.find _ (files_table st)); cbn; [done|]. by rewrite IH.
Qed.






(** ** Computations that leave the [files] table alone *)

Lemma keepsTable_ret {A} (a : A) : keepsTable (mret a).
Proof. by intros st. Qed.

Lemma keepsTable_throw {A} e : keepsTable (@throw A e).
Proof. by intros st. Qed.

Lemma keepsTable_bind {A B} (m : M A) (k : A -> M B) :
  keepsTable m -> (forall a, keepsTable (k a)) -> keepsTable (m ≫= k).
Proof.
  intros Hm Hk st. unfold_M. specialize (Hm st).
  destruct (m st) as [[a|e] st1]; simpl in *; [|done].
  by rewrite (Hk a st1).
Qed.

Lemma keepsTable_get_bind {B} (k : State -> M B) :
  (forall s, keepsTable (k s)) -> keepsTable (get ≫= k).
Proof. intros Hk st. unfold_M. apply Hk. Qed.

Lemma keepsTable_swallow (m : M unit) : keepsTable m -> keepsTable (swallow m).
Proof. intros Hm st. unfold swallow. simpl. apply Hm. Qed.

Lemma keepsTable_modify (f : State -> State) :
  (forall st, files_table (f st) = files_table st) -> keepsTable (modify f).
Proof. intros Hf st. apply Hf. Qed.

Lemma keepsTable_forEachM {A B} (f : A -> M B) xs :
  (forall x, keepsTable (f x)) -> keepsTable (forEachM f xs).
Proof.
  intros Hf. induction xs as [|x xs IH]; cbn [forEachM].
  - apply keepsTable_ret.
  - apply keepsTable_bind; [done|]. intros y.
    apply keepsTable_bind; [done|]. intros ys. apply keepsTable_ret.
Qed.

Lemma keepsTable_getUniqueRandomName h cfg len ext :
  keepsTable (getUniqueRandomName h cfg len ext).
Proof.
  unfold getUniqueRandomName. generalize (idMaxTries h) as tries.
  induction tries as [|n IH]; intros st; [done|].
  cbn [getUniqueRandomName_loop].
  destruct (cacheFileIdentifiers cfg); case_bool_decide;
    try (by rewrite IH); done.
Qed.

Lemma keepsTable_appendChunks r dest names : keepsTable (appendChunks r dest names).
Proof.
  induction names as [|n names IH]; intros st; [done|].
  cbn [appendChunks]. destruct (disk st !! path_join r n); [|done].
  by rewrite IH.
Qed.

Lemma keepsTable_combineChunks dest uuid : keepsTable (combineChunks dest uuid).
Proof.
  intros st. unfold combineChunks. cbn.
  destruct (chunksData st !! uuid); [|done]. by rewrite keepsTable_appendChunks.
Qed.

Lemma keepsTable_cleanUpChunks uuid : keepsTable (cleanUpChunks uuid).
Proof.
  intros st. unfold cleanUpChunks.
  destruct (chunksData st !! uuid) as [s|]; [|done].
  destruct (unlinkAll _ _) as [[] d]; [|done].
  by destruct (dirNotEmpty _ _).
Qed.

Lemma keepsTable_lstatSize dest : keepsTable (lstatSize dest).
Proof. intros st. unfold lstatSize. by destruct (disk st !! dest). Qed.

Lemma keepsTable_unlinkEach h infoMap : keepsTable (unlinkEach h infoMap).
Proof.
  induction infoMap as [|i infoMap IH]; cbn [unlinkEach].
  - apply keepsTable_ret.
  - apply keepsTable_bind; [|done].
    apply keepsTable_swallow. by apply keepsTable_modify.
Qed.

Lemma keepsTable_scanStep h user infoMap : keepsTable (scanStep h user infoMap).
Proof.
  unfold scanStep. destruct (scanVerdict h user infoMap).
  - apply keepsTable_bind; [apply keepsTable_unlinkEach|].
    intros _. apply keepsTable_throw.
  - apply keepsTable_ret.
Qed.

Lemma keepsTable_stripTags h req infoMap : keepsTable (stripTags h req infoMap).
Proof.
  unfold stripTags. destruct (stripTagsError h _ infoMap).
  - apply keepsTable_bind; [apply keepsTable_unlinkEach|].
    intros _. apply keepsTable_throw.
  - apply keepsTable_ret.
Qed.

Lemma keepsTable_finishFile_verify h file c : keepsTable (finishFile_verify h file c).
Proof.
  unfold finishFile_verify. apply keepsTable_bind; [apply keepsTable_lstatSize|].
  intros sz. destruct (negb _); [apply keepsTable_throw | apply keepsTable_ret].
Qed.

Lemma keepsTable_finishFile_combine h cfg file :
  keepsTable (finishFile_combine h cfg file).
Proof.
  unfold finishFile_combine. apply keepsTable_get_bind. intros s.
  destruct (ff_uuid file ≫= _) as [[uuid session]|]; [|apply keepsTable_throw].
  destruct (_ >? _); [apply keepsTable_throw|].
  destruct (isExtensionFiltered _ _); [apply keepsTable_throw|].
  apply keepsTable_bind.
  { destruct (temporaryUploads cfg); [|apply keepsTable_ret].
    destruct (age_rejected _ _); [apply keepsTable_throw | apply keepsTable_ret]. }
  intros a. destruct (_ && _); [apply keepsTable_throw|].
  destruct (_ >? _); [apply keepsTable_throw|].
  apply keepsTable_bind; [apply keepsTable_getUniqueRandomName|]. intros name.
  apply keepsTable_bind; [apply keepsTable_combineChunks|]. intros _.
  apply keepsTable_bind;
    [apply keepsTable_swallow, keepsTable_cleanUpChunks|].
  intros _. apply keepsTable_ret.
Qed.

Lemma keepsTable_finishFile h cfg file : keepsTable (finishFile h cfg file).
Proof.
  unfold finishFile. apply keepsTable_bind; [apply keepsTable_finishFile_combine|].
  intros c. apply keepsTable_finishFile_verify.
Qed.

Lemma keepsTable_cleanUpLeftovers files : keepsTable (cleanUpLeftovers files).
Proof.
  induction files as [|f files IH]; cbn [cleanUpLeftovers].
  - apply keepsTable_ret.
  - apply keepsTable_get_bind. intros s. apply keepsTable_bind; [|done].
    destruct (ff_uuid f ≫= _);
      [apply keepsTable_swallow, keepsTable_cleanUpChunks | apply keepsTable_ret].
Qed.

Lemma storeFilesToDb_thrown h cfg req user infoMap st e st' :
  storeFilesToDb h cfg req user infoMap st = (Thrown e, st') ->
  files_table st' = files_table st.
Proof.
  unfold storeFilesToDb. unfold_M. intros Hrun.
  pose proof (keepsTable_forEachM (storeOne h cfg req user) infoMap) as Hk.
  destruct (forEachM (storeOne h cfg req user) infoMap st)
    as [[results|e1] st1] eqn:Hres.
  - destruct (rights results) as [|row rows]; [done|].
    destruct (authorizedIdsOf _ _ _); done.
  - injection Hrun as <- <-.
    assert (keepsTable (forEachM (storeOne h cfg req user) infoMap)) as Hkeep.
    { apply keepsTable_forEachM. intros info st0. rewrite storeOne_run.
      destruct (disk st0 !! path info); [|done].
      by destruct (List.find _ _). }
    specialize (Hkeep st). by rewrite Hres in Hkeep.
Qed.

(** Where every file names a registered session, [check] does not throw. *)
Lemma someCheck_registered h st files :
  existsb (finishCheck st) files = false ->
  someCheck h st files = Returned false.
Proof.
  induction files as [|file files IH]; [done|].
  cbn [existsb someCheck]. intros [Hfile Hrest]%orb_false_iff.
  rewrite Hfile, (IH Hrest).
  unfold finishCheckThrows, finishCheck in *.
  destruct (ff_uuid file) as [uuid|]; [|done].
  by destruct (chunksData st !! uuid).
Qed.

(** A finalisation that throws has persisted nothing. *)
Lemma actuallyFinishChunks_thrown h cfg req user files st e st' :
  actuallyFinishChunks h cfg req user files st = (Thrown e, st') ->
  files_table st' = files_table st.
Proof.
  unfold actuallyFinishChunks. unfold_M.
  destruct files as [|file files]; [by intros [= <- <-]|].
  destruct (someCheck h st (file :: files)) as [[]|];
    [by intros [= <- <-]| |by intros [= <- <-]].
  unfold onThrow.
  set (fs := file :: files).
  pose proof (keepsTable_forEachM (finishFile h cfg) fs
                (keepsTable_finishFile h cfg) st) as Hf.
  destruct (forEachM (finishFile h cfg) fs st) as [[infoMap|e1] st1];
    simpl in Hf.
  - pose proof (keepsTable_scanStep h user infoMap st1) as Hs.
    destruct (scanStep h user infoMap st1) as [[[]|e2] st2]; simpl in Hs.
    + pose proof (keepsTable_stripTags h req infoMap st2) as Ht.
      destruct (stripTags h req infoMap st2) as [[[]|e3] st3]; simpl in Ht.
      * destruct (storeFilesToDb h cfg req user infoMap st3)
          as [[result|e4] st4] eqn:Hstore; [done|].
        intros [= <- <-]. etrans; [apply (keepsTable_cleanUpLeftovers fs)|].
        rewrite (storeFilesToDb_thrown _ _ _ _ _ _ _ _ Hstore). congruence.
      * intros [= <- <-]. etrans; [apply (keepsTable_cleanUpLeftovers fs)|]. congruence.
    + intros [= <- <-]. etrans; [apply (keepsTable_cleanUpLeftovers fs)|]. congruence.
  - intros [= <- <-]. etrans; [apply (keepsTable_cleanUpLeftovers fs)|]. congruence.
Qed.

Lemma finishChunks_failure h cfg req user files st status description st' :
  finishChunks h cfg req user files st = (RespFailure status description, st') ->
  files_table st' = files_table st.
Proof.
  unfold finishChunks. destruct (negb (chunkSize cfg)); [by intros [= _ _ <-]|].
  destruct (actuallyFinishChunks h cfg req user files st)
    as [[resp|e] st1] eqn:Hrun.
  - intros [= -> <-]. revert Hrun.
    unfold actuallyFinishChunks. unfold_M.
    destruct files as [|file files]; [done|].
    destruct (someCheck _ _ _) as [[]|]; [done| |done]. unfold onThrow.
    destruct (forEachM _ _ st) as [[infoMap|?] ?]; [|done].
    destruct (scanStep _ _ _ _) as [[[]|?] ?]; [|done].
    destruct (stripTags _ _ _ _) as [[[]|?] ?]; [|done].
    destruct (storeFilesToDb _ _ _ _ _ _) as [[?|?] ?]; done.
  - intros [= _ _ <-]. by eapply actuallyFinishChunks_thrown.
Qed.

Lemma finishFile_verify_mismatch h file c st bytes :
  disk st !! cb_destination c = Some bytes ->
  Z.of_nat (List.length bytes) <> cb_size c ->
  finishFile_verify h file c st = (Thrown chunksMismatched, st).
Proof.
  intros Hb Hne. unfold finishFile_verify, lstatSize. unfold_M. rewrite Hb.
  apply Z.eqb_neq in Hne. by rewrite Hne.
Qed.

Lemma finishFile_verify_returned h file c st info st' :
  finishFile_verify h file c st = (Returned info, st') ->
  st' = st
  /\ size (data info) = cb_size c
  /\ exists bytes, disk st !! path info = Some bytes
       /\ Z.of_nat (List.length bytes) = cb_size c.
Proof.
  unfold finishFile_verify, lstatSize. unfold_M.
  destruct (disk st !! cb_destination c) as [bytes|] eqn:Hb; [|done].
  destruct (Z.of_nat (List.length bytes) =? cb_size c) eqn:Heq; [|done].
  intros [= <- <-]. cbn. apply Z.eqb_eq in Heq. eauto.
Qed.

Lemma finishFile_combine_size h cfg file st c st' :
  finishFile_combine h cfg file st = (Returned c, st') ->
  exists uuid session,
    ff_uuid file = Some uuid /\ chunksData st !! uuid = Some session
    /\ cb_size c = csize session.
Proof.
  unfold finishFile_combine. unfold_M.
  destruct (ff_uuid file) as [uuid|]; [|done]. cbn.
  destruct (chunksData st !! uuid) as [session|] eqn:Hs; [|done]. cbn.
  destruct (_ >? _); [done|].
  destruct (isExtensionFiltered _ _); [done|].
  destruct (if temporaryUploads cfg then _ else _) as [[a|?] st0]; [|done].
  destruct (_ && _); [done|]. destruct (_ >? _); [done|].
  destruct (getUniqueRandomName _ _ _ _ _) as [[name|?] st1]; [|done].
  destruct (combineChunks _ _ _) as [[[]|?] st2]; [|done].
  cbn. intros [= <- <-]. by exists uuid, session.
Qed.

(** ** Size check of a finalisation *)

(** A file whose combined size differs from the tracked size fails the
    finalisation of its request. *)
Lemma finishChunks_mismatch h cfg req user file st c st1 bytes :
  chunkSize cfg = true -> finishCheck st file = false ->
  finishFile_combine h cfg file st = (Returned c, st1) ->
  disk st1 !! cb_destination c = Some bytes ->
  Z.of_nat (List.length bytes) <> cb_size c ->
  exists st',
    finishChunks h cfg req user [file] st
    = (RespFailure 400 chunksMismatched, st')
    /\ files_table st' = files_table st.
Proof.
  intros Hon Hcheck Hcombine Hbytes Hne.
  assert (exists st', finishChunks h cfg req user [file] st
                      = (RespFailure 400 chunksMismatched, st'))
    as [st' Hrun].
  { unfold finishChunks, actuallyFinishChunks. rewrite Hon. unfold_M.
    rewrite (someCheck_registered h st [file])
      by (cbn [existsb]; by rewrite Hcheck).
    cbn [negb onThrow forEachM].
    unfold finishFile, onThrow. unfold_M. rewrite Hcombine.
    rewrite (finishFile_verify_mismatch h file c st1 bytes Hbytes Hne).
    by eexists. }
  exists st'. split; [done|]. by eapply finishChunks_failure.
Qed.

(** C3, as amended.  The size of a request element is replaced by the
    tracked size of its session; once the fragments are combined, a
    combined file whose byte size differs from that tracked size fails the
    finalisation with "Chunks size mismatched." and status 400; a
    descriptor is produced only when the two are equal; a finalisation that
    fails has persisted no record; the size claimed in the finalize request
    takes no part in any of this. *)
Theorem finish_size_check (h : Host) (cfg : Config) (req : Request)
    (user : option User) (file : FinishFile) (st : State) :
  (forall c st1 bytes,
     chunkSize cfg = true -> finishCheck st file = false ->
     finishFile_combine h cfg file st = (Returned c, st1) ->
     disk st1 !! cb_destination c = Some bytes ->
     Z.of_nat (List.length bytes) <> cb_size c ->
     exists st',
       finishChunks h cfg req user [file] st
       = (RespFailure 400 chunksMismatched, st')
       /\ files_table st' = files_table st)
  /\ (forall c st1,
        finishFile_combine h cfg file st = (Returned c, st1) ->
        exists uuid session,
          ff_uuid file = Some uuid /\ chunksData st !! uuid = Some session
          /\ cb_size c = csize session)
  /\ (forall info st1,
        finishFile h cfg file st = (Returned info, st1) ->
        exists uuid session bytes,
          ff_uuid file = Some uuid /\ chunksData st !! uuid = Some session
          /\ size (data info) = csize session
          /\ disk st1 !! path info = Some bytes
          /\ Z.of_nat (List.length bytes) = csize session)
  /\ (forall files status description st',
        finishChunks h cfg req user files st
        = (RespFailure status description, st') ->
        files_table st' = files_table st)
  /\ (forall claimed,
        finishChunks h cfg req user [withClaimedSize claimed file] st
        = finishChunks h cfg req user [file] st).
Proof.
  split; [|split; [|split; [|split]]].
  - intros c st1 bytes. apply finishChunks_mismatch.
  - intros c st1. apply finishFile_combine_size.
  - intros info st1 Hrun. unfold finishFile in Hrun. unfold_M.
    destruct (finishFile_combine h cfg file st) as [[c|e] st0] eqn:Hc; [|done].
    destruct (finishFile_verify_returned _ _ _ _ _ _ Hrun)
      as (-> & Hsize & bytes & Hb & Hlen).
    destruct (finishFile_combine_size _ _ _ _ _ _ Hc) as (uuid & session & Hu & Hs & Hcs).
    exists uuid, session, bytes. repeat split; congruence.
  - intros files status description st'. apply finishChunks_failure.
  - intros claimed. reflexivity.
Qed.

(** A finalisation of the session in which a fragment was sent twice. *)
Lemma finish_size_check_witness :
  exists st',
    finishChunks sampleHost sampleConfig sampleRequest None [sampleFinish 4]
      resentSession
    = (RespFailure 400 chunksMismatched, st')
    /\ files_table st' = files_table resentSession.
Proof.
  eapply (proj1 (finish_size_check sampleHost sampleConfig sampleRequest None
                   (sampleFinish 4) resentSession)).
  - reflexivity.
  - vm_compute. reflexivity.
  - vm_compute. reflexivity.
  - vm_compute. reflexivity.
  - vm_compute. discriminate.
Defined.

(** C3, as stated, fails: the session holds six bytes, the request claims
    999, and the finalisation succeeds with a file of six bytes. *)
Lemma finalize_ignores_claimed_size : ~ finalize_compares_claimed_size.
Proof.
  intros H.
  assert (exists files st',
            finishChunks sampleHost sampleConfig sampleRequest None
              [sampleFinish 999] sampleSession = (RespFiles files, st')
            /\ exists entry bytes,
                 entry ∈ files
                 /\ disk st' !! path_join (uploadsDir sampleHost) (name entry)
                    = Some bytes
                 /\ Z.of_nat (List.length bytes) = 6)
    as (files & st' & Hrun & entry & bytes & Hin & Hbytes & Hlen).
  { eexists _, _. split; [vm_compute; reflexivity|].
    eexists _, _. split; [apply elem_of_cons; by left|].
    split; [vm_compute; reflexivity | reflexivity]. }
  specialize (H sampleHost sampleConfig sampleRequest None (sampleFinish 999)
                999 sampleSession st' files eq_refl Hrun entry bytes Hin Hbytes).
  lia.
Qed.

(** ** Expiry of stored records *)

Lemma new_rows_expiry h cfg req user st infoMap results :
  Forall2 (fun info res =>
             exists content, disk st !! path info = Some content
               /\ res = lookupResult h cfg req user st info content)
          infoMap results ->
  Forall (fun row =>
            exists info, info ∈ infoMap
              /\ f_expirydate row
                 = expiryOf h (req_now req / 1000) (age (data info)))
         (rights results).
Proof.
  induction 1 as [|info res infoMap results (content & Hc & ->) _ IH];
    [constructor|].
  assert (Forall (fun row =>
            exists i, i ∈ info :: infoMap
              /\ f_expirydate row
                 = expiryOf h (req_now req / 1000) (age (data i)))
            (rights results)) as IH'.
  { eapply Forall_impl; [|exact IH]. intros row (i & Hi & Hrow).
    exists i. split; [|done]. apply elem_of_cons. by right. }
  unfold lookupResult. destruct (List.find _ (files_table st)); cbn [rights];
    [done|].
  constructor; [|done]. exists info. split; [apply elem_of_cons; by left|done].
Qed.

Lemma withAuthorizedAlbums_Forall (P : FileRow -> Prop) albumids authorizedIds files :
  (forall row, P row -> P (set_albumid None row)) ->
  Forall P files ->
  Forall P (withAuthorizedAlbums albumids authorizedIds files).
Proof.
  intros Hset Hall.
  pose proof (withAuthorizedAlbums_rows albumids authorizedIds files) as H.
  induction H as [|row row' files files' Hrow _ IH]; [constructor|].
  inversion_clear Hall as [|? ? Hrow0 Hall'].
  constructor; [|by apply IH].
  destruct Hrow as [->| ->]; [done | by apply Hset].
Qed.

(** The rows that a batch inserts carry the expiry computed from the age of
    their file descriptor. *)
Lemma storeFilesToDb_expiry h cfg req user infoMap st out st' :
  storeFilesToDb h cfg req user infoMap st = (out, st') ->
  exists rows,
    files_table st' = (files_table st ++ rows)%list
    /\ Forall (fun row =>
                 exists info, info ∈ infoMap
                   /\ f_expirydate row
                      = expiryOf h (req_now req / 1000) (age (data info)))
              rows.
Proof.
  intros Hrun. destruct out as [result|e].
  - destruct (storeFilesToDb_returned _ _ _ _ _ _ _ _ Hrun)
      as (results & st1 & Hres & _ & Hft & _).
    destruct (forEachM_storeOne _ _ _ _ _ _ _ _ Hres)
      as (Hft1 & _ & _ & _ & Hall & _).
    eexists. split; [by rewrite Hft, Hft1|].
    apply withAuthorizedAlbums_Forall; [done|]. by eapply new_rows_expiry.
  - exists []. rewrite app_nil_r. split; [|constructor].
    by eapply storeFilesToDb_thrown.
Qed.

(** Files that are on disk under distinct names are all looked up. *)
Lemma forEachM_storeOne_runs h cfg req user infoMap st :
  NoDup (map (fun info => filename (data info)) infoMap) ->
  (forall info, info ∈ infoMap ->
     path info = path_join (uploadsDir h) (filename (data info))
     /\ is_Some (disk st !! path info)) ->
  exists results st',
    forEachM (storeOne h cfg req user) infoMap st = (Returned results, st').
Proof.
  revert st. induction infoMap as [|info infoMap IH]; intros st Hnd Hall.
  - by eexists _, _.
  - cbn [map] in Hnd. apply list.NoDup_cons in Hnd as [Hnotin Hnd].
    destruct (Hall info) as [Hpath [content Hc]]; [apply elem_of_cons; by left|].
    assert (forall st1,
              st1 = st
              \/ st1 = set_disk
                         (delete (path_join (uploadsDir h) (filename (data info))))
                         st ->
              exists results st',
                forEachM (storeOne h cfg req user) infoMap st1
                = (Returned results, st')) as Hrest.
    { intros st1 Hst1. apply IH; [done|]. intros i Hi.
      destruct (Hall i) as [Hp Hsome]; [apply elem_of_cons; by right|].
      split; [done|]. destruct Hst1 as [->| ->]; [done|]. cbn.
      rewrite lookup_delete_ne; [done|]. rewrite Hp. intros Heq.
      unfold path_join in Heq.
      apply (inj (String.app (uploadsDir h))) in Heq.
      apply (inj (String.app "/")) in Heq.
      apply Hnotin. rewrite Heq. apply list_elem_of_fmap. by exists i. }
    cbn [forEachM]. unfold_M. rewrite storeOne_run, Hc.
    destruct (List.find _ (files_table st)) as [dbFile|].
    + destruct (Hrest _ (or_intror eq_refl)) as (results & st' & ->).
      by eexists _, _.
    + destruct (Hrest _ (or_introl eq_refl)) as (results & st' & ->).
      by eexists _, _.
Qed.

Lemma storeFilesToDb_runs h cfg req user infoMap st results st1 :
  forEachM (storeOne h cfg req user) infoMap st = (Returned results, st1) ->
  exists result st',
    storeFilesToDb h cfg req user infoMap st = (Returned result, st').
Proof.
  intros Hres. unfold storeFilesToDb. unfold_M. rewrite Hres.
  destruct (rights results) as [|row rows]; [by eexists _, _|].
  destruct (authorizedIdsOf _ _ _); by eexists _, _.
Qed.

(** A multipart batch that is no fragment of a session, holds no rejected
    empty file, passes the scan and the stripping, and whose files are on
    disk under distinct names, is handed to [storeFilesToDb] as it is. *)
Lemma actuallyUploadFiles_stores h cfg req user albumid a uuid files st :
  files <> [] ->
  (chunkSize cfg = true ->
   chunksData st !! default "undefined" uuid = None
   /\ inheritedKey h (default "undefined" uuid) = false) ->
  (filterEmptyFile cfg = true -> Forall (fun file => m_size file <> 0) files) ->
  scanVerdict h user (map (infoOf h albumid a) files) = None ->
  stripTagsError h (req_striptags req) (map (infoOf h albumid a) files) = None ->
  NoDup (map m_filename files) ->
  Forall (fun file =>
            is_Some (disk st !! path_join (uploadsDir h) (m_filename file)))
         files ->
  exists result st',
    storeFilesToDb h cfg req user (map (infoOf h albumid a) files) st
    = (Returned result, st')
    /\ actuallyUploadFiles h cfg req user albumid a uuid files st
       = (Returned (sendUploadResponse cfg req result), st').
Proof.
  intros Hne Hkey Hempty Hscan Hstrip Hnd Hdisk.
  destruct (forEachM_storeOne_runs h cfg req user
              (map (infoOf h albumid a) files) st)
    as (results & st1 & Hres).
  { by rewrite map_map. }
  { intros info (file & -> & Hfile)%list_elem_of_fmap. split; [done|].
    rewrite list.Forall_forall in Hdisk. by apply Hdisk. }
  destruct (storeFilesToDb_runs _ _ _ _ _ _ _ _ Hres) as (result & st' & Hstore).
  exists result, st'. split; [done|].
  unfold actuallyUploadFiles. destruct files as [|file files]; [done|].
  set (fs := file :: files) in *. unfold_M.
  assert (chunkSize cfg
          && bool_decide (is_Some (chunksData st !! default "undefined" uuid))
          = false) as ->.
  { destruct (chunkSize cfg); [|done]. destruct (Hkey eq_refl) as [Hnone _].
    cbn [andb]. apply bool_decide_eq_false. rewrite Hnone. by intros []. }
  assert (chunkSize cfg && inheritedKey h (default "undefined" uuid) = false)
    as ->.
  { destruct (chunkSize cfg); [|done]. by destruct (Hkey eq_refl) as [_ Hinh]. }
  assert (filterEmptyFile cfg
          && existsb (fun info => size (data info) =? 0)
               (map (infoOf h albumid a) fs) = false) as ->.
  { destruct (filterEmptyFile cfg); [|done]. cbn [andb].
    specialize (Hempty eq_refl). clear -Hempty.
    induction Hempty as [|f l Hf _ IH]; [done|]. cbn [map existsb].
    rewrite IH, orb_false_r. cbn. by apply Z.eqb_neq. }
  unfold scanStep, stripTags. rewrite Hscan, Hstrip. unfold_M.
  by rewrite Hstore.
Qed.

(** C10.  With temporary uploads enabled, a request that supplies no age
    resolves to the first configured age, not to null.  An expiry date is
    assigned exactly when the age is non-zero.  So a multipart upload whose
    age resolves to 0 and that reaches the store (it is no fragment of a
    chunk session, holds no rejected empty file, passes the scan and the
    stripping, its files being on disk under distinct names) is answered
    with the list of its files and inserts one record for each file that has
    no stored duplicate, every one without expiry date. *)
Theorem default_age_and_permanent (h : Host) (cfg : Config) :
  temporaryUploads cfg = true ->
  (exists a0, head (temporaryUploadAges cfg) = Some a0
              /\ parseUploadAge h cfg None = Some a0)
  /\ (forall timestamp q,
        expiryOf h timestamp (AgeNum q)
        = if bool_decide (q = Qc_of_Z 0) then None
          else Some (Qc_of_Z timestamp + q * Qc_of_Z 3600)%Qc)
  /\ (forall user r st,
        let infoMap :=
          map (infoOf h (up_albumid r ≫= parseInt h) (AgeNum (Qc_of_Z 0)))
              (up_files r) in
        let key := default "undefined" (up_uuid r) in
        parseUploadAge h cfg (up_age r) = Some (Qc_of_Z 0) ->
        up_files r <> [] ->
        (chunkSize cfg = true ->
         chunksData st !! key = None /\ inheritedKey h key = false) ->
        (filterEmptyFile cfg = true ->
         Forall (fun file => m_size file <> 0) (up_files r)) ->
        scanVerdict h user infoMap = None ->
        stripTagsError h (req_striptags (up_req r)) infoMap = None ->
        NoDup (map m_filename (up_files r)) ->
        Forall (fun file =>
                  is_Some (disk st !! path_join (uploadsDir h) (m_filename file)))
               (up_files r) ->
        exists entries st' rows,
          upload h cfg user r st = (RespFiles entries, st')
          /\ List.length entries = List.length (up_files r)
          /\ files_table st' = (files_table st ++ rows)%list
          /\ map f_name rows
             ≡ₚ map (fun info => filename (data info))
                  (List.filter (isNewFile h user st) infoMap)
          /\ Forall (fun row => f_expirydate row = None) rows).
Proof.
  intros Hon. split; [|split].
  - unfold temporaryUploads in Hon. cbn [parseUploadAge].
    destruct (temporaryUploadAges cfg) as [|a0 ages]; [done|]. by exists a0.
  - intros timestamp q. unfold expiryOf. cbn. by case_bool_decide.
  - intros user r st infoMap key Hage Hne Hkey Hempty Hscan Hstrip Hnd Hdisk.
    destruct (actuallyUploadFiles_stores h cfg (up_req r) user
                (up_albumid r ≫= parseInt h) (AgeNum (Qc_of_Z 0)) (up_uuid r)
                (up_files r) st Hne Hkey Hempty Hscan Hstrip Hnd Hdisk)
      as (result & st' & Hstore & Hrun).
    fold infoMap in Hstore.
    destruct (storeFilesToDb_returned _ _ _ _ _ _ _ _ Hstore)
      as (results & st1 & Hres & Hresult & Hft & _).
    destruct (forEachM_storeOne _ _ _ _ _ _ _ _ Hres)
      as (Hft1 & _ & _ & _ & Hall & _).
    destruct (storeFilesToDb_expiry _ _ _ _ _ _ _ _ Hstore)
      as (rows & Hrows & Hexp).
    exists (map (uploadedOf cfg (up_req r)) result), st', rows.
    split.
    { unfold upload, upload_age. rewrite Hon, Hage.
      assert (age_rejected cfg (Some (Qc_of_Z 0)) = false) as ->.
      { unfold age_rejected. apply andb_false_iff. right.
        apply negb_false_iff. revert Hage. unfold parseUploadAge.
        destruct (up_age r) as [raw|].
        - destruct (parseFloat h raw) as [parsed|]; [|done].
          destruct (includes_num parsed (temporaryUploadAges cfg)) eqn:Hin;
            [|done].
          by intros [= ->].
        - destruct (temporaryUploadAges cfg) as [|a0 ages]; [done|].
          intros [= ->]. unfold includes_num. cbn [existsb].
          apply orb_true_iff. left. by apply bool_decide_eq_true. }
      cbn [age_of_option]. by rewrite Hrun. }
    split.
    { rewrite length_map, Hresult, length_app, length_map.
      pose proof (Forall2_length Hall) as Hlen.
      pose proof (Forall2_length
                    (withAuthorizedAlbums_rows
                       (albumidsOf (rights results))
                       (authorizedIdsOf user (albumidsOf (rights results))
                          (albums_table st1))
                       (rights results))) as Hlen'.
      rewrite <- Hlen'. unfold infoMap in Hlen. rewrite length_map in Hlen.
      rewrite Hlen. clear. induction results as [|[|] results IH]; cbn; lia. }
    split; [done|].
    split.
    { assert (rows
              = withAuthorizedAlbums (albumidsOf (rights results))
                  (authorizedIdsOf user (albumidsOf (rights results))
                     (albums_table st1))
                  (rights results)) as ->.
      { rewrite Hft, Hft1 in Hrows. by apply app_inv_head in Hrows. }
      rewrite withAuthorizedAlbums_names.
      by rewrite (new_rows_names _ _ _ _ _ _ _ Hall). }
    eapply Forall_impl; [|exact Hexp].
    intros row (info & Hin & ->). unfold infoMap in Hin.
    apply list_elem_of_fmap in Hin as (file & -> & _). done.
Qed.

(** An upload of one new file without age header, the first configured age
    being 0: one record is stored, named after the file, without expiry
    date. *)
Lemma default_age_and_permanent_witness :
  parseUploadAge sampleHost sampleConfig None = Some (Qc_of_Z 0)
  /\ exists entries st' rows,
       upload sampleHost sampleConfig (Some bob) (sampleUpload None) sampleStore
       = (RespFiles entries, st')
       /\ List.length entries = 1%nat
       /\ files_table st' = (files_table sampleStore ++ rows)%list
       /\ map f_name rows ≡ₚ ["a.png"]
       /\ Forall (fun row => f_expirydate row = None) rows.
Proof.
  destruct (default_age_and_permanent sampleHost sampleConfig eq_refl)
    as ((a0 & Hhead & Hdefault) & _ & Hupload).
  split.
  - rewrite Hdefault. rewrite <- Hhead. reflexivity.
  - apply (Hupload (Some bob) (sampleUpload None) sampleStore).
    + reflexivity.
    + discriminate.
    + intros _. split; reflexivity.
    + intros _. repeat constructor. discriminate.
    + reflexivity.
    + reflexivity.
    + repeat constructor. intros Hin. by apply elem_of_nil in Hin.
    + repeat constructor. by eexists.
Defined.

(** The same upload stores one record, without expiry date; with the age
    header 24 the record expires 86400 seconds after its creation. *)
Example upload_ages_stored :
  map f_expirydate
    (files_table
       (snd (upload sampleHost sampleConfig (Some bob) (sampleUpload None)
               sampleStore)))
  = [None]
  /\ map (fun row => this <$> f_expirydate row)
       (files_table
          (snd (upload sampleHost sampleConfig (Some bob)
                  (sampleUpload (Some "24")) sampleStore)))
     = [Some (1600086400 # 1)%Q].
Proof. split; vm_compute; reflexivity. Qed.

(** * Further properties *)

(** ** Parsed dates *)

Lemma localTime_utcTime h t : localTime h (utcTime h t) = t.
Proof. unfold localTime, utcTime. lia. Qed.

Lemma msPerDay_whole_seconds : msPerDay = 86400 * 1000.
Proof. reflexivity. Qed.

(** The value of a date that gives both the year and the hour, on a server
    at a fixed offset from UTC. *)
Lemma parseDate_full_date_time_value (h : Host) (now : Z) (date : string)
    (minoffset y hh : Z) (mth d mi ss : option Z) :
  matchDate date
  = Some {| dm_year := Some y; dm_month := mth; dm_day := d;
            dm_hours := Some hh; dm_minutes := mi; dm_seconds := ss |} ->
  parseDate h now date (Some minoffset) true
  = DateAt (makeDay y (match mth with Some x => x - 1 | None => 0 end)
                    (default 1 d) * msPerDay
            + hh * 3600000 + default 0 mi * 60000 + default 0 ss * 1000
            + minoffset * 60000).
Proof.
  intros Hm. unfold parseDate. rewrite Hm. cbn [dm_year dm_month dm_day
    dm_hours dm_minutes dm_seconds]. f_equal.
  unfold setMilliseconds0, setHours, setFullYear.
  rewrite !localTime_utcTime.
  set (D := makeDay y _ _). set (MI := default 0 mi). set (SS := default 0 ss).
  set (offset := 60000 * (timezoneOffset h - minoffset)).
  set (r := localTime h (now + offset) `mod` msPerDay).
  assert (0 <= r < msPerDay) as Hr by (apply Z.mod_pos_bound; reflexivity).
  assert ((D * msPerDay + r) `div` msPerDay = D) as ->.
  { rewrite Z.add_comm, Z.div_add by (unfold msPerDay; lia).
    rewrite Z.div_small by done. lia. }
  assert ((D * msPerDay + r) `mod` 1000 = r `mod` 1000) as ->.
  { rewrite msPerDay_whole_seconds.
    replace (D * (86400 * 1000) + r) with (r + (D * 86400) * 1000) by lia.
    apply Z.mod_add. lia. }
  assert ((D * msPerDay + hh * 3600000 + MI * 60000 + SS * 1000 + r `mod` 1000)
            `mod` 1000 = r `mod` 1000) as ->.
  { rewrite msPerDay_whole_seconds.
    replace (D * (86400 * 1000) + hh * 3600000 + MI * 60000 + SS * 1000
             + r `mod` 1000)
      with (r `mod` 1000 + (D * 86400 + hh * 3600 + MI * 60 + SS) * 1000) by lia.
    rewrite Z.mod_add by lia. apply Z.mod_mod. lia. }
  unfold utcTime, offset. lia.
Qed.

(** X2.  A filter date that gives both the year and the hour denotes one
    instant, whenever the request is served: every field of the date built
    from the current time is overwritten, and the milliseconds are reset.
    (A date without time of day keeps the time of day of the request.) *)
Theorem parseDate_full_date_time (h : Host) (now1 now2 : Z) (date : string)
    (minoffset : option Z) (m : DateMatch) :
  matchDate date = Some m -> is_Some (dm_year m) -> is_Some (dm_hours m) ->
  parseDate h now1 date minoffset true = parseDate h now2 date minoffset true.
Proof.
  intros Hm [y Hy] [hh Hh]. destruct minoffset as [mo|].
  - destruct m as [yr mth d hrs mi ss]. cbn in Hy, Hh. subst yr hrs.
    by rewrite (parseDate_full_date_time_value h now1 date mo y hh mth d mi ss Hm),
               (parseDate_full_date_time_value h now2 date mo y hh mth d mi ss Hm).
  - unfold parseDate. by rewrite Hm.
Qed.

(** ** Keyword values *)

Lemma app_snoc_cons {A} (l : list A) (x : A) (k : list A) :
  ((l ++ [x]) ++ k = l ++ x :: k)%list.
Proof. induction l as [|y l IH]; simpl; congruence. Qed.

Lemma uniqueValues_from (acc arr : list string) :
  exists kept,
    foldl (fun acc v => if includes_str v acc then acc else (acc ++ [v])%list)
          acc arr = (acc ++ kept)%list
    /\ sublist kept arr
    /\ (NoDup acc -> NoDup (acc ++ kept)%list)
    /\ (forall v, v ∈ arr -> v ∈ (acc ++ kept)%list).
Proof.
  revert acc. induction arr as [|x r IH]; intros acc.
  - exists []. rewrite app_nil_r. split; [done|]. split; [done|].
    split; [done|]. intros v Hv. by apply elem_of_nil in Hv.
  - cbn [foldl]. destruct (includes_str x acc) eqn:Hx.
    + destruct (IH acc) as (kept & Heq & Hsub & Hnd & Hin).
      exists kept. split; [done|]. split; [by apply sublist_cons|].
      split; [done|]. intros v [->|Hv]%elem_of_cons; [|by apply Hin].
      apply elem_of_app. left. by apply includes_str_elem_of.
    + destruct (IH (acc ++ [x])%list) as (kept & Heq & Hsub & Hnd & Hin).
      rewrite app_snoc_cons in Heq, Hnd, Hin.
      exists (x :: kept). split; [done|]. split; [by apply sublist_skip|].
      split.
      * intros Hacc. apply Hnd.
        apply list.NoDup_app. split; [done|]. split; [|apply list.NoDup_singleton].
        intros v Hv ->%list_elem_of_singleton.
        apply includes_str_elem_of in Hv. congruence.
      * intros v [->|Hv]%elem_of_cons; [|by apply Hin].
        apply elem_of_app. right. by apply elem_of_cons; left.
Qed.

Lemma uniqueValues_spec (arr : list string) :
  NoDup (uniqueValues arr) /\ sublist (uniqueValues arr) arr
  /\ forall v, v ∈ uniqueValues arr <-> v ∈ arr.
Proof.
  unfold uniqueValues.
  destruct (uniqueValues_from [] arr) as (kept & -> & Hsub & Hnd & Hin).
  cbn [app] in *. split; [apply Hnd, base.NoDup_nil_2|]. split; [done|].
  intros v. split; [|apply Hin]. intros Hv.
  by eapply elem_of_sublist.
Qed.

Lemma removeFirstDash_spec (l : list string) :
  NoDup l ->
  NoDup (removeFirstDash l) /\ sublist (removeFirstDash l) l
  /\ forall v, v ∈ removeFirstDash l <-> v ∈ l /\ v <> "-".
Proof.
  induction l as [|x r IH]; intros Hnd.
  - cbn. split; [done|]. split; [done|]. intros v. split; [|by intros []].
    intros Hv. by apply elem_of_nil in Hv.
  - apply list.NoDup_cons in Hnd as [Hx Hr]. cbn [removeFirstDash].
    destruct (String.eqb x "-") eqn:Hd.
    + apply String.eqb_eq in Hd as ->.
      split; [done|]. split; [by apply sublist_cons|].
      intros v. rewrite elem_of_cons. split.
      * intros Hv. split; [by right|]. by intros ->.
      * by intros [[->|Hv] Hne].
    + apply String.eqb_neq in Hd. destruct (IH Hr) as (Hnd' & Hsub & Hin).
      split.
      { apply list.NoDup_cons. split; [|done]. rewrite Hin. by intros []. }
      split; [by apply sublist_skip|].
      intros v. rewrite !elem_of_cons, Hin. split.
      * intros [->|[Hv Hne]]; [by split; [left|]|]. by split; [right|].
      * intros [[->|Hv] Hne]; [by left|by right].
Qed.

Lemma uniqueValues_first (pre : list string) (v : string) (post : list string) :
  v ∉ pre ->
  exists kpost,
    uniqueValues (pre ++ v :: post) = (uniqueValues pre ++ v :: kpost)%list.
Proof.
  intros Hv. unfold uniqueValues. rewrite foldl_app. cbn [foldl].
  fold (uniqueValues pre).
  assert (includes_str v (uniqueValues pre) = false) as ->.
  { destruct (includes_str v (uniqueValues pre)) eqn:Hin; [|done].
    apply includes_str_elem_of in Hin.
    destruct (uniqueValues_spec pre) as (_ & _ & Hmem). by apply Hmem in Hin. }
  destruct (uniqueValues_from (uniqueValues pre ++ [v]) post) as (kpost & -> & _).
  exists kpost. apply app_snoc_cons.
Qed.

Lemma filter_not_dash_id (l : list string) :
  "-" ∉ l -> filter (fun v => v <> "-") l = l.
Proof.
  induction l as [|x r IH]; intros Hno; [done|].
  rewrite filter_cons_True by (intros ->; apply Hno, elem_of_cons; by left).
  f_equal. apply IH. intros Hin. apply Hno, elem_of_cons. by right.
Qed.

Lemma removeFirstDash_filter (l : list string) :
  NoDup l -> removeFirstDash l = filter (fun v => v <> "-") l.
Proof.
  induction l as [|x r IH]; intros Hnd; [done|].
  apply list.NoDup_cons in Hnd as [Hx Hr]. cbn [removeFirstDash].
  destruct (String.eqb x "-") eqn:Hd.
  - apply String.eqb_eq in Hd as ->.
    rewrite filter_cons_False by (by intros []).
    symmetry. by apply filter_not_dash_id.
  - apply String.eqb_neq in Hd. rewrite filter_cons_True by done.
    f_equal. by apply IH.
Qed.

(** X3.  The values kept for a keyword ([ip], [user]) are the supplied ones
    without repetition and without the dash, in the order of their first
    occurrence: the values kept before a value are those supplied before
    its first occurrence.  The flag that matches NULL is raised exactly when
    a dash was among the supplied values. *)
Theorem keywordValues_spec (arr : list string) :
  exists kept,
    fst (keywordValues (Some arr)) = Some kept
    /\ NoDup kept
    /\ sublist kept arr
    /\ (forall v, v ∈ kept <-> v ∈ arr /\ v <> "-")
    /\ (forall pre v post,
          arr = (pre ++ v :: post)%list -> v ∉ pre -> v <> "-" ->
          exists kpre kpost,
            kept = (kpre ++ v :: kpost)%list
            /\ forall w, w ∈ kpre <-> w ∈ pre /\ w <> "-")
    /\ (snd (keywordValues (Some arr)) = true <-> "-" ∈ arr).
Proof.
  destruct (uniqueValues_spec arr) as (Hnd & Hsub & Hin).
  assert (fst (keywordValues (Some arr))
          = Some (filter (fun v => v <> "-") (uniqueValues arr))) as Hkept.
  { unfold keywordValues.
    destruct (includes_str "-" (uniqueValues arr)) eqn:Hd; cbn [fst]; f_equal.
    - by apply removeFirstDash_filter.
    - symmetry. apply filter_not_dash_id.
      intros Hc%includes_str_elem_of. congruence. }
  assert (snd (keywordValues (Some arr)) = includes_str "-" (uniqueValues arr))
    as Hflag.
  { unfold keywordValues. by destruct (includes_str "-" (uniqueValues arr)). }
  exists (filter (fun v => v <> "-") (uniqueValues arr)).
  split; [done|]. split; [by apply list.NoDup_filter|].
  split; [etrans; [apply sublist_filter|done]|].
  split; [intros v; rewrite list_elem_of_filter, Hin; tauto|].
  split.
  - intros pre v post -> Hv Hne.
    destruct (uniqueValues_first pre v post Hv) as (kpost & ->).
    rewrite list.filter_app, filter_cons_True by done.
    eexists _, _. split; [reflexivity|]. intros w.
    destruct (uniqueValues_spec pre) as (_ & _ & Hpre).
    rewrite list_elem_of_filter, Hpre. tauto.
  - rewrite Hflag. split.
    + intros Hd%includes_str_elem_of. by apply Hin.
    + intros Hd. apply includes_str_elem_of. by apply Hin.
Qed.

(** ** Ordering keys *)

Lemma toLowerCase_toUpperCase s : toLowerCase (toUpperCase s) = toLowerCase s.
Proof.
  induction s as [|c r IH]; [done|]. simpl. rewrite IH. f_equal.
  revert c. by intros [[] [] [] [] [] [] [] []].
Qed.

Lemma split_on_nonempty c s : split_on c s <> [].
Proof.
  destruct s as [|x r]; [done|]. cbn [split_on].
  destruct (Ascii.eqb x c); [done|]. by destruct (split_on c r).
Qed.

(** X4.  An ordering key is read without regard to case, its direction is
    descending exactly when the text after the first colon starts with the
    letter d, whatever follows, and the result always ends in one of the
    two directions, followed by [nulls last] or not. *)
Theorem parseOrderBy_spec (obQuery : string) :
  parseOrderBy (toUpperCase obQuery) = parseOrderBy obQuery
  /\ parseOrderBy (toLowerCase obQuery) = parseOrderBy obQuery
  /\ exists column direction suffix,
       parseOrderBy obQuery = column +:+ " " +:+ direction +:+ suffix
       /\ (direction = "asc" \/ direction = "desc")
       /\ (suffix = "" \/ suffix = " nulls last")
       /\ (suffix = " nulls last"
           <-> column = "userid" \/ column = "expirydate" \/ column = "ip")
       /\ (direction = "desc"
           <-> exists key rest more,
                 split_on ":" (toLowerCase obQuery)
                 = key :: String "d" rest :: more).
Proof.
  split; [unfold parseOrderBy; by rewrite toLowerCase_toUpperCase|].
  split; [unfold parseOrderBy; by rewrite toLowerCase_idem|].
  unfold parseOrderBy.
  set (tmp := split_on ":" (toLowerCase obQuery)).
  set (column := if String.eqb _ "size" then _ else _).
  eexists column, _, _. split; [reflexivity|].
  split.
  { destruct tmp as [|? [|t1 ?]]; [by left..|].
    destruct (str_truthy t1 && startsWith_d t1); [by right|by left]. }
  split.
  { destruct (includes_str column _); [by right|by left]. }
  split.
  { destruct (includes_str column ["userid"; "expirydate"; "ip"]) eqn:Hc.
    - split; [intros _|done]. apply includes_str_elem_of in Hc.
      rewrite !elem_of_cons in Hc.
      destruct Hc as [?|[?|[?|Hn]]]; [tauto..|by apply elem_of_nil in Hn].
    - split; [done|]. intros Hcol.
      assert (includes_str column ["userid"; "expirydate"; "ip"] = true);
        [|congruence].
      apply includes_str_elem_of. rewrite !elem_of_cons. tauto. }
  destruct tmp as [|key [|t1 more]].
  - split; [done|]. by intros (?&?&?&?).
  - split; [done|]. by intros (?&?&?&?).
  - destruct t1 as [|a rest].
    + cbn. split; [done|]. by intros (?&?&?&?).
    + cbn [str_truthy andb]. unfold startsWith_d.
      destruct (Ascii.eqb_spec a "d") as [->|Hne].
      * split; [intros _|done]. by exists key, rest, more.
      * assert ((match a with
                 | "d"%char => true
                 | _ => false
                 end) = false) as Hnd.
        { revert Hne. clear. by intros; destruct a as [[] [] [] [] [] [] [] []]. }
        split.
        -- destruct a as [[] [] [] [] [] [] [] []]; try done.
        -- intros (?&?&?&[= _ -> _ _]). done.
Qed.

(** ** Identifier length *)

(** X5.  The length of a file identifier is 32 when the configured entry
    is falsy.  Otherwise the length that the request asks for is returned
    exactly when [parseInt] reads it, the length is not forced, both bounds
    are numbers and the asked length lies between them; in every other case
    the configured default is returned, 32 standing in for a default that is
    missing or zero. *)
Theorem parseFileIdentifierLength_range (h : Host) (cfg : Config)
    (fileLength : option string) :
  match fileIdentifierLength cfg with
  | None => parseFileIdentifierLength h cfg fileLength = 32
  | Some c =>
      let dflt := match fil_default c with
                  | Some d => if d =? 0 then 32 else d
                  | None => 32
                  end in
      (forall parsed mn mx,
         fileLength ≫= parseInt h = Some parsed -> fil_force c = false ->
         fil_min c = Some mn -> fil_max c = Some mx ->
         parseFileIdentifierLength h cfg fileLength
         = if bool_decide (mn <= parsed <= mx) then parsed else dflt)
      /\ (fileLength ≫= parseInt h = None \/ fil_force c = true
          \/ fil_min c = None \/ fil_max c = None ->
          parseFileIdentifierLength h cfg fileLength = dflt)
  end.
Proof.
  unfold parseFileIdentifierLength, fileIdentifierLengthFallback.
  destruct (fileIdentifierLength cfg) as [c|]; [|done].
  cbn zeta. split.
  - intros parsed mn mx -> -> -> ->.
    destruct (parsed <? mn) eqn:Hlo; destruct (parsed >? mx) eqn:Hhi;
      cbn [orb]; case_bool_decide; try done; lia.
  - intros Hcase.
    destruct (fileLength ≫= parseInt h) as [parsed|]; [|done].
    destruct (fil_force c); [done|].
    destruct (fil_min c) as [mn|]; [|done].
    destruct (fil_max c) as [mx|]; [|done].
    by destruct Hcase as [|[|[|]]].
Qed.

(** ** Clean-up of a chunk session *)

Lemma unlinkAll_spec (paths : list string) (d : gmap string (list Byte.byte)) :
  (forall p, snd (unlinkAll paths d) !! p
             = if bool_decide (p ∈ paths) then None else d !! p)
  /\ (fst (unlinkAll paths d) = true
      <-> NoDup paths /\ forall p, p ∈ paths -> is_Some (d !! p)).
Proof.
  revert d. induction paths as [|q rest IH]; intros d.
  - cbn. split.
    + intros p. rewrite bool_decide_eq_false_2; [done|]. apply not_elem_of_nil.
    + split; [intros _|done]. split; [apply base.NoDup_nil_2|].
      intros p Hp. by apply elem_of_nil in Hp.
  - cbn [unlinkAll]. destruct (IH (delete q d)) as [Hd Hok].
    destruct (unlinkAll rest (delete q d)) as [ok d'] eqn:Hrun.
    cbn [fst snd] in *. split.
    + intros p. rewrite Hd. destruct (decide (p = q)) as [->|Hne].
      * rewrite (bool_decide_eq_true_2 (q ∈ q :: rest)) by (apply elem_of_cons; by left).
        case_bool_decide; [done|]. apply lookup_delete_eq.
      * rewrite lookup_delete_ne by done.
        destruct (bool_decide (p ∈ rest)) eqn:Hin.
        -- apply bool_decide_eq_true in Hin.
           rewrite bool_decide_eq_true_2; [done|]. apply elem_of_cons. by right.
        -- apply bool_decide_eq_false in Hin.
           rewrite bool_decide_eq_false_2; [done|].
           intros [?|?]%elem_of_cons; done.
    + rewrite andb_true_iff, bool_decide_eq_true, Hok, list.NoDup_cons.
      split.
      * intros (Hq & Hnd & Hall). split.
        -- split; [|done]. intros Hin. destruct (Hall q Hin) as [x Hx].
           by rewrite lookup_delete_eq in Hx.
        -- intros p [->|Hp]%elem_of_cons; [done|].
           destruct (Hall p Hp) as [x Hx].
           apply lookup_delete_Some in Hx as [_ Hx]. by eexists.
      * intros ((Hq & Hnd) & Hall). split; [apply Hall, elem_of_cons; by left|].
        split; [done|]. intros p Hp.
        destruct (Hall p) as [x Hx]; [apply elem_of_cons; by right|].
        exists x. apply lookup_delete_Some. split; [|done]. by intros ->.
Qed.




Lemma cleanUpChunks_other (uuid : string) (st : State) (p : string) :
  (forall s, chunksData st !! uuid = Some s ->
             forall n, p <> path_join (root s) n) ->
  disk (snd (cleanUpChunks uuid st)) !! p = disk st !! p.
Proof.
  intros Hp. unfold cleanUpChunks.
  destruct (chunksData st !! uuid) as [s|] eqn:Hs; [|done].
  destruct (unlinkAll_spec (map (path_join (root s)) (chunks s)) (disk st))
    as [Hd _].
  destruct (unlinkAll _ _) as [ok d'] eqn:Hrun. cbn [fst snd] in *.
  assert (d' !! p = disk st !! p) as Hsame.
  { rewrite Hd. rewrite bool_decide_eq_false_2; [done|].
    intros (n & -> & _)%list_elem_of_fmap. by eapply Hp. }
  destruct ok; [|done]. by destruct (dirNotEmpty _ _).
Qed.

(** X7.  A finalisation that fails the size check leaves the combined file
    in the uploads directory: the handler of the failure cleans up chunk
    sessions only, and no record is inserted for the file. *)
Theorem mismatched_file_stays_on_disk (h : Host) (cfg : Config) (req : Request)
    (user : option User) (file : FinishFile) (st : State)
    (c : Combined) (st1 : State) (bytes : list Byte.byte) :
  chunkSize cfg = true -> finishCheck st file = false ->
  finishFile_combine h cfg file st = (Returned c, st1) ->
  disk st1 !! cb_destination c = Some bytes ->
  Z.of_nat (List.length bytes) <> cb_size c ->
  (forall uuid s, ff_uuid file = Some uuid -> chunksData st1 !! uuid = Some s ->
                  forall n, cb_destination c <> path_join (root s) n) ->
  exists st',
    finishChunks h cfg req user [file] st
    = (RespFailure 400 chunksMismatched, st')
    /\ disk st' !! cb_destination c = Some bytes
    /\ files_table st' = files_table st.
Proof.
  intros Hon Hcheck Hcombine Hbytes Hne Hout.
  assert (finishChunks h cfg req user [file] st
          = (RespFailure 400 chunksMismatched,
             snd (cleanUpLeftovers [file] st1))) as Hrun.
  { unfold finishChunks, actuallyFinishChunks. rewrite Hon. unfold_M.
    rewrite (someCheck_registered h st [file])
      by (cbn [existsb]; by rewrite Hcheck).
    cbn [negb onThrow forEachM].
    unfold finishFile, onThrow. unfold_M. rewrite Hcombine.
    by rewrite (finishFile_verify_mismatch h file c st1 bytes Hbytes Hne). }
  eexists. split; [exact Hrun|]. split.
  - rewrite <- Hbytes. cbn [cleanUpLeftovers]. unfold_M.
    destruct (ff_uuid file) as [uuid|] eqn:Hu; [|done]. cbn.
    destruct (chunksData st1 !! uuid) as [s|] eqn:Hs; [|done]. cbn.
    apply cleanUpChunks_other. intros s' Hs'. by apply (Hout uuid).
  - by eapply finishChunks_failure.
Qed.

(** The session in which fragment 1 was sent twice: five bytes are tracked,
    four are combined. *)
Lemma mismatched_file_stays_on_disk_witness :
  exists st',
    finishChunks sampleHost sampleConfig sampleRequest None [sampleFinish 4]
      resentSession
    = (RespFailure 400 chunksMismatched, st')
    /\ disk st' !! "uploads/aaaaaaaaaaaaaaaaaaaaaaaaaaaaaaaa.bin"
       = Some [Byte.x61; Byte.x61; Byte.x7a; Byte.x7a]
    /\ files_table st' = files_table resentSession.
Proof.
  eapply (mismatched_file_stays_on_disk sampleHost sampleConfig sampleRequest
            None (sampleFinish 4) resentSession
            {| cb_extname := ".bin"; cb_age := AgeNum (Qc_of_Z 0); cb_size := 5;
               cb_name := "aaaaaaaaaaaaaaaaaaaaaaaaaaaaaaaa.bin";
               cb_destination := "uploads/aaaaaaaaaaaaaaaaaaaaaaaaaaaaaaaa.bin" |}).
  - reflexivity.
  - vm_compute. reflexivity.
  - vm_compute. reflexivity.
  - vm_compute. reflexivity.
  - vm_compute. discriminate.
  - intros uuid s [= <-] Hs n Heq. vm_compute in Hs. injection Hs as <-.
    vm_compute in Heq. discriminate Heq.
Defined.

Lemma someCheck_no_throw h st files :
  (forall file uuid, file ∈ files -> ff_uuid file = Some uuid ->
     chunksData st !! uuid = None -> inheritedKey h uuid = false) ->
  someCheck h st files = Returned (existsb (finishCheck st) files).
Proof.
  induction files as [|file files IH]; intros Hkeys; [done|].
  cbn [someCheck existsb].
  assert (finishCheckThrows h st file = false) as ->.
  { unfold finishCheckThrows. destruct (ff_uuid file) as [uuid|] eqn:Hu; [|done].
    case_bool_decide as Hnone; [|done]. cbn.
    apply (Hkeys file uuid); [apply elem_of_cons; by left|done..]. }
  destruct (finishCheck st file); [done|]. cbn [orb]. apply IH.
  intros f uuid Hf. apply Hkeys, elem_of_cons. by right.
Qed.

(** X8.  With chunked uploads enabled, a finalisation that lists no file,
    or a file that names no session, a session nobody opened or one with
    fewer than two fragments, is answered with status 400 and changes
    nothing: no session is cleaned up, those of the other files included.
    This is so when no listed identifier without session is a property name
    that [chunksData] inherits; reading such a one throws a [TypeError]
    instead. *)
Theorem finishChunks_rejects_unready (h : Host) (cfg : Config) (req : Request)
    (user : option User) (files : list FinishFile) (st : State) :
  chunkSize cfg = true ->
  (forall file uuid, file ∈ files -> ff_uuid file = Some uuid ->
     chunksData st !! uuid = None -> inheritedKey h uuid = false) ->
  files = []
  \/ (exists file, file ∈ files
        /\ match ff_uuid file with
           | None => True
           | Some uuid =>
               match chunksData st !! uuid with
               | None => True
               | Some s => (List.length (chunks s) < 2)%nat
               end
           end) ->
  finishChunks h cfg req user files st
  = (RespFailure 400 "An unexpected error occurred.", st).
Proof.
  intros Hon Hkeys Hbad. unfold finishChunks, actuallyFinishChunks. rewrite Hon.
  unfold_M. cbn [negb]. destruct files as [|f fs]; [done|].
  destruct Hbad as [|(file & Hin & Hfile)]; [done|].
  rewrite (someCheck_no_throw h st (f :: fs) Hkeys).
  assert (existsb (finishCheck st) (f :: fs) = true) as ->; [|done].
  apply existsb_exists. exists file. split; [by apply list_elem_of_In|].
  unfold finishCheck. destruct (ff_uuid file) as [uuid|]; [|done].
  destruct (chunksData st !! uuid) as [s|]; [|done].
  by apply Nat.ltb_lt.
Qed.

(** ** Owners and albums of stored records *)

Lemma includes_Z_elem_of (x : Z) (arr : list Z) :
  includes_Z x arr = true <-> x ∈ arr.
Proof.
  unfold includes_Z. rewrite existsb_exists. split.
  - intros (y & Hy & ->%Z.eqb_eq). by apply list_elem_of_In.
  - intros Hx. exists x. split; [by apply list_elem_of_In | apply Z.eqb_refl].
Qed.

Lemma albumidsOf_from (acc : list Z) (rows : list FileRow) (a : Z) :
  a ∈ foldl (fun acc r =>
               match f_albumid r with
               | Some a => if includes_Z a acc then acc else (acc ++ [a])%list
               | None => acc
               end) acc rows
  <-> a ∈ acc \/ exists row, row ∈ rows /\ f_albumid row = Some a.
Proof.
  revert acc. induction rows as [|r rows IH]; intros acc; cbn [foldl].
  - split; [by left|]. intros [|(row & Hrow & _)]; [done|].
    by apply elem_of_nil in Hrow.
  - rewrite IH. split.
    + intros [Hacc|(row & Hrow & Ha)].
      * destruct (f_albumid r) as [b|] eqn:Hb; [|by left].
        destruct (includes_Z b acc); [by left|].
        apply elem_of_app in Hacc as [| ->%list_elem_of_singleton]; [by left|].
        right. exists r. split; [apply elem_of_cons; by left|done].
      * right. exists row. split; [apply elem_of_cons; by right|done].
    + intros [Hacc|(row & [->|Hrow]%elem_of_cons & Ha)].
      * left. destruct (f_albumid r) as [b|]; [|done].
        destruct (includes_Z b acc); [done|]. apply elem_of_app. by left.
      * left. rewrite Ha. destruct (includes_Z a acc) eqn:Hin.
        -- by apply includes_Z_elem_of.
        -- apply elem_of_app. right. by apply list_elem_of_singleton.
      * right. by exists row.
Qed.

Lemma albumidsOf_elem_of (rows : list FileRow) (a : Z) :
  a ∈ albumidsOf rows <-> exists row, row ∈ rows /\ f_albumid row = Some a.
Proof.
  unfold albumidsOf. rewrite albumidsOf_from. split; [|by right].
  intros [Hnil|]; [|done]. by apply elem_of_nil in Hnil.
Qed.

Lemma authorizedIdsOf_elem_of user albumids albums (a : Z) :
  a ∈ authorizedIdsOf user albumids albums ->
  exists u alb, user = Some u /\ alb ∈ albums /\ a_id alb = a
                /\ a_userid alb = u_id u /\ a ∈ albumids.
Proof.
  unfold authorizedIdsOf. intros Ha.
  assert (a ∈ match user with
              | Some u =>
                  map a_id
                    (List.filter
                       (fun alb => (a_userid alb =? u_id u)
                                   && includes_Z (a_id alb) albumids) albums)
              | None => []
              end) as Ha'.
  { destruct albumids; [by apply elem_of_nil in Ha|]. by destruct user. }
  clear Ha. destruct user as [u|]; [|by apply elem_of_nil in Ha'].
  apply list_elem_of_fmap in Ha' as (alb & -> & Halb).
  apply list_elem_of_In, filter_In in Halb as [Halb Hok].
  apply andb_true_iff in Hok as [Hu%Z.eqb_eq Hin%includes_Z_elem_of].
  exists u, alb. repeat split; try done. by apply list_elem_of_In.
Qed.


Lemma rights_lookupResult h cfg req user st infoMap results row :
  Forall2 (fun info res =>
             exists content, disk st !! path info = Some content
               /\ res = lookupResult h cfg req user st info content)
          infoMap results ->
  row ∈ rights results ->
  exists info content, info ∈ infoMap
    /\ disk st !! path info = Some content
    /\ row = newRow h cfg req user info (md5 h content).
Proof.
  induction 1 as [|info res infoMap results (content & Hc & ->) _ IH].
  { intros Hrow. by apply elem_of_nil in Hrow. }
  unfold lookupResult. destruct (List.find _ (files_table st)); cbn [rights].
  - intros Hrow. destruct (IH Hrow) as (i & ct & Hi & Hct & ->).
    exists i, ct. split; [apply elem_of_cons; by right|done].
  - intros [->|Hrow]%elem_of_cons.
    + exists info, content. split; [apply elem_of_cons; by left|done].
    + destruct (IH Hrow) as (i & ct & Hi & Hct & ->).
      exists i, ct. split; [apply elem_of_cons; by right|done].
Qed.

Lemma forEachM_storeOne_albums h cfg req user infoMap st :
  albums_table (snd (forEachM (storeOne h cfg req user) infoMap st))
  = albums_table st.
Proof.
  revert st. induction infoMap as [|info infoMap IH]; intros st; [done|].
  cbn [forEachM]. unfold_M. rewrite storeOne_run.
  destruct (disk st !! path info); [|done].
  destruct (List.find _ _).
  - specialize (IH (set_disk (delete (path_join (uploadsDir h)
                                        (filename (data info)))) st)).
    by destruct (forEachM _ infoMap _) as [[rs|e'] st2].
  - specialize (IH st). by destruct (forEachM _ infoMap _) as [[rs|e'] st2].
Qed.

(** What a batch does to the two tables. *)
Lemma storeFilesToDb_tables h cfg req user infoMap st :
  files_table (snd (storeFilesToDb h cfg req user infoMap st)) = files_table st
  /\ albums_table (snd (storeFilesToDb h cfg req user infoMap st))
     = albums_table st
  \/ exists results st1,
       forEachM (storeOne h cfg req user) infoMap st = (Returned results, st1)
       /\ files_table (snd (storeFilesToDb h cfg req user infoMap st))
          = (files_table st
             ++ withAuthorizedAlbums (albumidsOf (rights results))
                  (authorizedIdsOf user (albumidsOf (rights results))
                     (albums_table st))
                  (rights results))%list
       /\ albums_table (snd (storeFilesToDb h cfg req user infoMap st))
          = match authorizedIdsOf user (albumidsOf (rights results))
                    (albums_table st) with
            | [] => albums_table st
            | ids => touchAlbums ids (req_now req / 1000) (albums_table st)
            end.
Proof.
  unfold storeFilesToDb. unfold_M.
  destruct (forEachM (storeOne h cfg req user) infoMap st)
    as [[results|e] st1] eqn:Hres.
  - destruct (forEachM_storeOne _ _ _ _ _ _ _ _ Hres)
      as (Hft & Hat & _).
    destruct (rights results) as [|row rows] eqn:Hrows.
    + left. cbn. done.
    + right. exists results, st1. split; [done|]. rewrite Hrows.
      set (files := row :: rows) in *. rewrite <- Hat, <- Hft.
      by destruct (authorizedIdsOf user (albumidsOf files) (albums_table st1)).
  - left. cbn.
    pose proof (keepsTable_forEachM (storeOne h cfg req user) infoMap) as Hk.
    assert (keepsTable (forEachM (storeOne h cfg req user) infoMap)) as Hkeep.
    { apply keepsTable_forEachM. intros info st0. rewrite storeOne_run.
      destruct (disk st0 !! path info); [|done].
      by destruct (List.find _ _). }
    specialize (Hkeep st). rewrite Hres in Hkeep. split; [done|].
    pose proof (forEachM_storeOne_albums h cfg req user infoMap st) as Ha.
    by rewrite Hres in Ha.
Qed.


Lemma NoDup_fmap_elem_eq {A B} (f : A -> B) (l : list A) (x y : A) :
  NoDup (map f l) -> x ∈ l -> y ∈ l -> f x = f y -> x = y.
Proof.
  induction l as [|z l IH]; cbn [map]; intros Hnd Hx Hy Hxy.
  { by apply elem_of_nil in Hx. }
  apply list.NoDup_cons in Hnd as [Hz Hnd].
  apply elem_of_cons in Hx as [->|Hx]; apply elem_of_cons in Hy as [->|Hy].
  - done.
  - exfalso. apply Hz. rewrite Hxy. by apply list_elem_of_fmap_2.
  - exfalso. apply Hz. rewrite <- Hxy. by apply list_elem_of_fmap_2.
  - by apply IH.
Qed.

(** X10.  Album identifiers being unique, a batch changes nothing in the
    albums table but the edition time of albums that the uploader owns and
    that a file of the batch is destined to. *)
Theorem albums_only_touched (h : Host) (cfg : Config) (req : Request)
    (user : option User) (infoMap : list Info) (st : State) :
  NoDup (map a_id (albums_table st)) ->
  Forall2 (fun alb alb' =>
             a_id alb' = a_id alb /\ a_userid alb' = a_userid alb
             /\ (alb' = alb
                 \/ a_editedAt alb' = req_now req / 1000
                    /\ exists u info,
                         user = Some u /\ a_userid alb = u_id u
                         /\ info ∈ infoMap
                         /\ albumid (data info) = Some (a_id alb)))
          (albums_table st)
          (albums_table (snd (storeFilesToDb h cfg req user infoMap st))).
Proof.
  intros Hnd.
  assert (forall albums : list AlbumRow,
            Forall2 (fun alb alb' =>
                       a_id alb' = a_id alb /\ a_userid alb' = a_userid alb
                       /\ (alb' = alb
                           \/ a_editedAt alb' = req_now req / 1000
                              /\ exists u info,
                                   user = Some u /\ a_userid alb = u_id u
                                   /\ info ∈ infoMap
                                   /\ albumid (data info) = Some (a_id alb)))
                    albums albums) as Hrefl.
  { induction albums; constructor; [|done]. repeat split; by left. }
  destruct (storeFilesToDb_tables h cfg req user infoMap st)
    as [[_ ->]|(results & st1 & Hres & _ & ->)]; [done|].
  destruct (forEachM_storeOne _ _ _ _ _ _ _ _ Hres) as (_ & _ & _ & _ & Hall & _).
  set (ids := authorizedIdsOf user (albumidsOf (rights results)) (albums_table st)).
  assert (forall a, a ∈ ids ->
            exists u alb info, user = Some u /\ alb ∈ albums_table st
              /\ a_id alb = a /\ a_userid alb = u_id u
              /\ info ∈ infoMap /\ albumid (data info) = Some a) as Hids.
  { intros a Ha.
    destruct (authorizedIdsOf_elem_of _ _ _ _ Ha)
      as (u & alb & -> & Halb & Hid & Howner & Hin).
    apply albumidsOf_elem_of in Hin as (row & Hrow & Hrow_a).
    destruct (rights_lookupResult _ _ _ _ _ _ _ _ Hall Hrow)
      as (info & content & Hinfo & _ & ->).
    exists u, alb, info. repeat split; done. }
  destruct ids as [|i0 ids'] eqn:Hids_eq; [done|].
  rewrite <- Hids_eq in *. clear Hids_eq.
  unfold touchAlbums.
  assert (forall alb, alb ∈ albums_table st -> alb ∈ albums_table st) as Hsub
    by done.
  revert Hsub. generalize (albums_table st) at 1 3 4 as albums.
  induction albums as [|alb albums IH]; intros Hsub; cbn [map]; constructor.
  - destruct (includes_Z (a_id alb) ids) eqn:Hin; [|repeat split; by left].
    cbn. split; [done|]. split; [done|]. right. split; [done|].
    apply includes_Z_elem_of in Hin.
    destruct (Hids _ Hin) as (u & alb2 & info & -> & Halb2 & Hid & Howner & Hi & Ha).
    assert (alb2 = alb) as ->.
    { apply (NoDup_fmap_elem_eq a_id (albums_table st)); try done.
      apply Hsub, elem_of_cons. by left. }
    by exists u, info.
  - apply IH. intros a Ha. apply Hsub, elem_of_cons. by right.
Qed.

(** Two files of bob, one destined to his album 7 and one to album 8 of the
    moderator: the second is stored outside any album, and only album 7 is
    touched. *)
Lemma albums_only_touched_witness :
  Forall2 (fun alb alb' =>
             a_id alb' = a_id alb /\ a_userid alb' = a_userid alb
             /\ (alb' = alb
                 \/ a_editedAt alb' = req_now sampleRequest / 1000
                    /\ exists u info,
                         Some bob = Some u /\ a_userid alb = u_id u
                         /\ info ∈ [sampleInfoIn "a.png" 7; sampleInfoIn "b.png" 8]
                         /\ albumid (data info) = Some (a_id alb)))
          (albums_table sampleAlbums)
          (albums_table
             (snd (storeFilesToDb sampleHost sampleConfig sampleRequest
                     (Some bob) [sampleInfoIn "a.png" 7; sampleInfoIn "b.png" 8]
                     sampleAlbums)))
  /\ albums_table
       (snd (storeFilesToDb sampleHost sampleConfig sampleRequest
               (Some bob) [sampleInfoIn "a.png" 7; sampleInfoIn "b.png" 8]
               sampleAlbums))
     = [{| a_id := 7; a_userid := 2; a_editedAt := 1600000000 |};
        {| a_id := 8; a_userid := 1; a_editedAt := 0 |}]
  /\ map f_albumid
       (files_table
          (snd (storeFilesToDb sampleHost sampleConfig sampleRequest
                  (Some bob) [sampleInfoIn "a.png" 7; sampleInfoIn "b.png" 8]
                  sampleAlbums)))
     = [Some 7; None].
Proof.
  split; [|split; vm_compute; reflexivity].
  apply (albums_only_touched sampleHost sampleConfig sampleRequest (Some bob)
           [sampleInfoIn "a.png" 7; sampleInfoIn "b.png" 8] sampleAlbums).
  vm_compute. apply list.NoDup_cons. split.
  - rewrite elem_of_cons, elem_of_nil. intros [H|[]]. discriminate H.
  - apply list.NoDup_singleton.
Defined.

Lemma lefts_rights_names (results : list (StoredFile + FileRow)) :
  (map f_name (rights results) ++ map s_name (lefts results))%list
  ≡ₚ map (fun res => match res with
                     | inl file => s_name file
                     | inr row => f_name row
                     end) results.
Proof.
  induction results as [|[file|row] results IH]; cbn [rights lefts map app].
  - done.
  - rewrite <- IH. symmetry. apply Permutation_middle.
  - by rewrite IH.
Qed.

(** X11.  The array that [storeFilesToDb] returns holds one entry for each
    file of the batch: under the name of the stored duplicate if there is
    one, under the file's own name otherwise.  The response has as many
    entries as the batch has files. *)
Theorem every_file_reported_once (h : Host) (cfg : Config) (req : Request)
    (user : option User) (infoMap : list Info) (st : State)
    (result : list StoredFile) (st' : State) :
  storeFilesToDb h cfg req user infoMap st = (Returned result, st') ->
  map s_name result
  ≡ₚ map (fun info => match duplicateOf h user st info with
                      | Some dbFile => f_name dbFile
                      | None => filename (data info)
                      end) infoMap
  /\ exists files,
       sendUploadResponse cfg req result = RespFiles files
       /\ map name files = map s_name result
       /\ List.length files = List.length infoMap.
Proof.
  intros Hrun.
  destruct (storeFilesToDb_returned _ _ _ _ _ _ _ _ Hrun)
    as (results & st1 & Hres & -> & _).
  destruct (forEachM_storeOne _ _ _ _ _ _ _ _ Hres) as (_ & _ & _ & _ & Hall & _).
  assert (map s_name
            (map storedOfRow
               (withAuthorizedAlbums (albumidsOf (rights results))
                  (authorizedIdsOf user (albumidsOf (rights results))
                     (albums_table st1)) (rights results)) ++ lefts results)
          ≡ₚ map (fun info => match duplicateOf h user st info with
                              | Some dbFile => f_name dbFile
                              | None => filename (data info)
                              end) infoMap) as Hperm.
  { rewrite map_app, map_map.
    change (fun x => s_name (storedOfRow x)) with f_name.
    rewrite withAuthorizedAlbums_names, lefts_rights_names.
    clear Hres Hrun. induction Hall as [|info res infoMap results (content & Hc & ->) _ IH];
      [done|].
    cbn [map]. rewrite IH. unfold duplicateOf at 2, lookupResult. rewrite Hc. cbn.
    by destruct (List.find _ (files_table st)). }
  split; [done|].
  eexists. split; [reflexivity|]. split.
  - rewrite map_map. done.
  - rewrite length_map. rewrite <- (length_map s_name), (Permutation_length Hperm).
    apply length_map.
Qed.

(** The same three bytes as the stored [a.png], uploaded twice more by its
    owner. *)
Lemma every_file_reported_once_witness :
  map s_name [{| s_name := "a.png"; s_expirydate := None; s_original := None |};
              {| s_name := "a.png"; s_expirydate := None; s_original := None |}]
  ≡ₚ map (fun info =>
            match duplicateOf sampleHost (Some sampleModerator) afterFirstStore
                    info with
            | Some dbFile => f_name dbFile
            | None => filename (data info)
            end) [sampleInfo "b.png"; sampleInfo "c.png"]
  /\ exists files,
       sendUploadResponse sampleConfig sampleRequest
         [{| s_name := "a.png"; s_expirydate := None; s_original := None |};
          {| s_name := "a.png"; s_expirydate := None; s_original := None |}]
       = RespFiles files
       /\ map name files
          = map s_name
              [{| s_name := "a.png"; s_expirydate := None; s_original := None |};
               {| s_name := "a.png"; s_expirydate := None; s_original := None |}]
       /\ List.length files
          = List.length [sampleInfo "b.png"; sampleInfo "c.png"].
Proof.
  apply (every_file_reported_once sampleHost sampleConfig sampleRequest
           (Some sampleModerator) [sampleInfo "b.png"; sampleInfo "c.png"]
           afterFirstStore _
           (snd (storeFilesToDb sampleHost sampleConfig sampleRequest
                   (Some sampleModerator)
                   [sampleInfo "b.png"; sampleInfo "c.png"] afterFirstStore))).
  vm_compute. reflexivity.
Defined.

(** ** Unlinking a batch *)

Lemma unlinkEach_run (h : Host) (infoMap : list Info) (st : State) :
  fst (unlinkEach h infoMap st) = Returned tt
  /\ (forall p, disk (snd (unlinkEach h infoMap st)) !! p
                = if bool_decide
                       (p ∈ map (fun info => path_join (uploadsDir h)
                                                (filename (data info))) infoMap)
                  then None else disk st !! p)
  /\ files_table (snd (unlinkEach h infoMap st)) = files_table st
  /\ albums_table (snd (unlinkEach h infoMap st)) = albums_table st
  /\ chunksData (snd (unlinkEach h infoMap st)) = chunksData st
  /\ idSet (snd (unlinkEach h infoMap st)) = idSet st.
Proof.
  revert st. induction infoMap as [|info infoMap IH]; intros st.
  - cbn. split; [done|]. split; [|done]. intros p.
    rewrite bool_decide_eq_false_2; [done|]. apply not_elem_of_nil.
  - cbn [unlinkEach map]. unfold unlinkFile. unfold_M. cbn [fst snd].
    set (q := path_join (uploadsDir h) (filename (data info))).
    destruct (IH (set_disk (delete q) st)) as (Hout & Hd & Hft & Hat & Hcd & Hid).
    destruct (unlinkEach h infoMap (set_disk (delete q) st)) as [out st'].
    cbn [fst snd] in *. split; [done|]. split; [|done].
    intros p. rewrite Hd. cbn [disk set_disk].
    destruct (decide (p = q)) as [->|Hne].
    + rewrite (bool_decide_eq_true_2 (q ∈ q :: _)) by (apply elem_of_cons; by left).
      rewrite lookup_delete_eq. by case_bool_decide.
    + rewrite lookup_delete_ne by done.
      destruct (bool_decide (p ∈ map _ infoMap)) eqn:Hin.
      * apply bool_decide_eq_true in Hin.
        rewrite bool_decide_eq_true_2; [done|]. apply elem_of_cons. by right.
      * apply bool_decide_eq_false in Hin.
        rewrite bool_decide_eq_false_2; [done|].
        intros [?|?]%elem_of_cons; done.
Qed.

(** X12.  With [filterEmptyFile] set, one empty file rejects the whole
    multipart batch: every file of the batch is unlinked from the uploads
    directory, the good ones included, and nothing is recorded.  The batch
    is one whose [uuid] field reads no chunk session: none is registered
    under it (under the key [undefined] when the field is absent) and it is
    no property name that [chunksData] inherits. *)
Theorem empty_file_rejects_batch (h : Host) (cfg : Config) (req : Request)
    (user : option User) (albumid : option Z) (age : JsAge)
    (uuid : option string) (files : list MulterFile) (st : State) :
  filterEmptyFile cfg = true ->
  (exists file, file ∈ files /\ m_size file = 0) ->
  (chunkSize cfg = true ->
   chunksData st !! default "undefined" uuid = None
   /\ inheritedKey h (default "undefined" uuid) = false) ->
  exists st',
    actuallyUploadFiles h cfg req user albumid age uuid files st
    = (Thrown "Empty files are not allowed.", st')
    /\ (forall p, disk st' !! p
                  = if bool_decide
                         (p ∈ map (fun file => path_join (uploadsDir h)
                                                 (m_filename file)) files)
                    then None else disk st !! p)
    /\ files_table st' = files_table st
    /\ chunksData st' = chunksData st.
Proof.
  intros Hfilter (file & Hin & Hsize) Hplain.
  unfold actuallyUploadFiles. destruct files as [|f fs].
  { by apply elem_of_nil in Hin. }
  set (all := f :: fs) in *.
  assert (existsb (fun info => size (data info) =? 0)
                  (map (infoOf h albumid age) all) = true) as Hempty.
  { apply existsb_exists. exists (infoOf h albumid age file). split.
    - apply in_map. by apply list_elem_of_In.
    - cbn. by apply Z.eqb_eq. }
  destruct (unlinkEach_run h (map (infoOf h albumid age) all) st)
    as (Hout & Hd & Hft & _ & Hcd & _).
  exists (snd (unlinkEach h (map (infoOf h albumid age) all) st)).
  split; [|split; [|done]].
  - unfold_M.
    assert (chunkSize cfg
            && bool_decide (is_Some (chunksData st !! default "undefined" uuid))
            = false) as ->.
    { destruct (chunkSize cfg); [|done]. destruct (Hplain eq_refl) as [Hnone _].
      cbn [andb]. apply bool_decide_eq_false. rewrite Hnone. by intros []. }
    assert (chunkSize cfg && inheritedKey h (default "undefined" uuid) = false)
      as ->.
    { destruct (chunkSize cfg); [|done]. by destruct (Hplain eq_refl). }
    rewrite Hfilter, Hempty; cbn [andb].
    destruct (unlinkEach h (map (infoOf h albumid age) all) st) as [out st'].
    cbn [fst snd] in *; by subst out.
  - intros p. rewrite Hd. by rewrite map_map.
Qed.

(** ** Virus scan *)

Lemma stripSuffix_app (p x : string) : stripSuffix p (x +:+ p) = x.
Proof.
  induction x as [|c x IH].
  - change ("" +:+ p) with p.
    destruct p; cbn [stripSuffix]; by rewrite String.eqb_refl.
  - change (String c x +:+ p) with (String c (x +:+ p)). cbn [stripSuffix].
    destruct (String.eqb_spec (String c (x +:+ p)) p) as [Heq|_].
    + apply (f_equal String.length) in Heq. cbn in Heq.
      rewrite string_app_length in Heq. lia.
    + by rewrite IH.
Qed.

Lemma prefix_app (p s : string) : String.prefix p (p +:+ s) = true.
Proof.
  induction p as [|c p IH]; [change ("" +:+ s) with s; by destruct s|].
  change (String c p +:+ s) with (String c (p +:+ s)). cbn [String.prefix].
  destruct (ascii_dec c c); [done|congruence].
Qed.

Lemma stripPrefix_app (p s : string) : stripPrefix p (p +:+ s) = s.
Proof. unfold stripPrefix. by rewrite prefix_app, drop_str_app. Qed.

Lemma includes_sub_app (needle a b : string) :
  includes_sub needle (a +:+ needle +:+ b) = true.
Proof.
  induction a as [|c a IH].
  - change ("" +:+ needle +:+ b) with (needle +:+ b).
    destruct (needle +:+ b) eqn:Heq; cbn [includes_sub];
      rewrite <- Heq, prefix_app; done.
  - change (String c a +:+ needle +:+ b) with (String c (a +:+ needle +:+ b)).
    cbn [includes_sub]. rewrite IH. apply orb_true_r.
Qed.

Lemma foundThreats_elem_of (replies : list ScanReply) (t : string) :
  t ∈ foundThreats replies <-> ScanThreat t ∈ replies.
Proof.
  induction replies as [|r replies IH]; cbn [foundThreats].
  - by rewrite !elem_of_nil.
  - destruct r as [| |t'|]; rewrite ?elem_of_cons, IH.
    + split; [by right|]. intros [H|H]; [discriminate H|done].
    + split; [by right|]. intros [H|H]; [discriminate H|done].
    + split; (intros [H|H]; [left|by right]); [by f_equal|by injection H].
    + split; [by right|]. intros [H|H]; [discriminate H|done].
Qed.

Lemma foundThreats_nil (replies : list ScanReply) :
  foundThreats replies = []
  <-> Forall (fun r => forall t, r <> ScanThreat t) replies.
Proof.
  induction replies as [|r replies IH]; cbn [foundThreats].
  - split; [constructor|done].
  - destruct r; rewrite ?Forall_cons_iff; try (rewrite IH; split;
      [intros H; split; [done|exact H] | intros [_ H]; exact H]).
    split; [done|]. intros [H _]. by destruct (H foundThreat).
Qed.

Lemma scanOne_passes (c : Clamd) (info : Info) :
  scanPasses c info
  <-> scanOne c info = ScanSkipped \/ scanOne c info = ScanClean.
Proof.
  unfold scanPasses, scanOne.
  destruct (scanWhitelisted c info); [split; intros _; by left|].
  destruct (scanOversized c info); [split; intros _; [by left|right; by left]|].
  assert (forall P : Prop, ~ P -> (false = true \/ false = true \/ P) <-> False)
    as Hfalse.
  { intros P HP. split; [|done]. intros [H|[H|H]]; [discriminate H..|done]. }
  destruct (scanFile c (path info)) as [reply|].
  - destruct (includes_sub "OK" reply) eqn:Hok,
             (includes_sub "FOUND" reply) eqn:Hfound; cbn [negb orb].
    + rewrite Hfalse by (intros (r & [= <-] & ? & ?); congruence).
      split; [done|]. intros [H|H]; discriminate H.
    + split; [intros _; by right|]. intros _. right. right. by exists reply.
    + rewrite Hfalse by (intros (r & [= <-] & ? & ?); congruence).
      split; [done|]. intros [H|H]; discriminate H.
    + rewrite Hfalse by (intros (r & [= <-] & ? & ?); congruence).
      split; [done|]. intros [H|H]; discriminate H.
  - rewrite Hfalse by (by intros (r & H & _)).
    split; [done|]. intros [H|H]; discriminate H.
Qed.

Lemma existsb_isRejected (replies : list ScanReply) :
  existsb isRejected replies = false
  <-> Forall (fun r => r <> ScanRejected) replies.
Proof.
  induction replies as [|r replies IH]; cbn [existsb].
  - split; [constructor|done].
  - rewrite orb_false_iff, Forall_cons_iff, IH.
    by destruct r; cbn; split; intros [? ?]; split.
Qed.

Lemma reply_passes (r : ScanReply) :
  r = ScanSkipped \/ r = ScanClean
  <-> r <> ScanRejected /\ forall t, r <> ScanThreat t.
Proof.
  destruct r as [| |t0|].
  - split; [intros _; split; [discriminate|intros t; discriminate]
           | intros _; by left].
  - split; [intros _; split; [discriminate|intros t; discriminate]
           | intros _; by right].
  - split; [intros [H|H]; discriminate H | intros [_ H]; by destruct (H t0)].
  - split; [intros [H|H]; discriminate H | intros [H _]; by destruct H].
Qed.

Lemma scanResults_None (c : Clamd) (infoMap : list Info) :
  scanResults c infoMap = None <-> Forall (scanPasses c) infoMap.
Proof.
  unfold scanResults.
  assert (Forall (scanPasses c) infoMap
          <-> Forall (fun r => r <> ScanRejected) (map (scanOne c) infoMap)
              /\ Forall (fun r => forall t, r <> ScanThreat t)
                        (map (scanOne c) infoMap)) as ->.
  { induction infoMap as [|info infoMap IH]; cbn [map].
    - split; [by split; constructor|constructor].
    - rewrite !Forall_cons_iff, IH, scanOne_passes, reply_passes. tauto. }
  rewrite <- existsb_isRejected, <- foundThreats_nil.
  destruct (existsb isRejected (map (scanOne c) infoMap)).
  - split; [done|]. by intros [? _].
  - destruct (foundThreats (map (scanOne c) infoMap)).
    + done.
    + split; [done|]. by intros [_ ?].
Qed.

Lemma foundThreats_infected (c : Clamd) (infoMap : list Info) :
  List.length (foundThreats (map (scanOne c) infoMap))
  = List.length (infected c infoMap).
Proof.
  unfold infected. induction infoMap as [|info infoMap IH]; [done|].
  cbn [map foundThreats List.filter].
  destruct (scanOne c info); cbn [isThreat List.length]; by rewrite ?IH.
Qed.

(** X13.  [scanFiles] lets a batch through exactly when the uploader is in
    the bypass group or every file passes: it is skipped for its extension
    or its size, or the scanner's reply contains OK and does not contain
    FOUND.  A batch let through is left untouched. *)
Theorem scanFiles_verdict (c : Clamd) (h : Host) (user : option User)
    (infoMap : list Info) (st : State) :
  (fst (scanFiles c h user infoMap st) = Returned None
   <-> scanBypassed c user = true \/ Forall (scanPasses c) infoMap)
  /\ (fst (scanFiles c h user infoMap st) = Returned None ->
      snd (scanFiles c h user infoMap st) = st).
Proof.
  unfold scanFiles. destruct (scanBypassed c user).
  { split; [split; [by left|done]|done]. }
  pose proof (scanResults_None c infoMap) as Hnone.
  destruct (scanResults c infoMap) as [results|].
  - unfold_M. destruct (unlinkEach_run h infoMap st) as (Hout & _).
    destruct (unlinkEach h infoMap st) as [out st']. cbn [fst] in Hout.
    subst out. cbn [fst snd]. split; [|done]. split; [done|].
    intros [H|H]; [done|]. by apply Hnone in H.
  - split; [|done]. split; [|done]. intros _. right. by apply Hnone.
Qed.

(** X14.  A batch that [scanFiles] reports is unlinked as a whole, the
    files that passed included, and nothing is recorded.  The report is
    the scanner failure when a scan was rejected; otherwise it names a
    threat found in a file of the batch, and adds "and more" exactly when
    more than one file is infected. *)
Theorem scanFiles_finding (c : Clamd) (h : Host) (user : option User)
    (infoMap : list Info) (st : State) (description : string) :
  fst (scanFiles c h user infoMap st) = Returned (Some description) ->
  (forall p, disk (snd (scanFiles c h user infoMap st)) !! p
             = if bool_decide
                    (p ∈ map (fun info => path_join (uploadsDir h)
                                             (filename (data info))) infoMap)
               then None else disk st !! p)
  /\ files_table (snd (scanFiles c h user infoMap st)) = files_table st
  /\ (description = clamavFailed
        /\ (exists info, info ∈ infoMap /\ scanOne c info = ScanRejected)
      \/ (forall info, info ∈ infoMap -> scanOne c info <> ScanRejected)
         /\ exists t info,
              info ∈ infoMap /\ scanOne c info = ScanThreat t
              /\ description
                 = "Threat found: " +:+ t
                   +:+ (if (1 <? List.length (infected c infoMap))%nat
                        then ", and more" else "") +:+ ".").
Proof.
  unfold scanFiles. destruct (scanBypassed c user); [done|].
  destruct (scanResults c infoMap) as [results|] eqn:Hres; [|done].
  unfold_M. destruct (unlinkEach_run h infoMap st) as (Hout & Hd & Hft & _).
  destruct (unlinkEach h infoMap st) as [out st']. cbn [fst snd] in *.
  subst out. intros [= ->]. split; [done|]. split; [done|].
  revert Hres. unfold scanResults.
  destruct (existsb isRejected (map (scanOne c) infoMap)) eqn:Hrej.
  { intros [= <-]. left. split; [done|].
    apply existsb_exists in Hrej as (r & Hr & Hrej).
    apply in_map_iff in Hr as (info & <- & Hin).
    exists info. split; [by apply list_elem_of_In|].
    by destruct (scanOne c info). }
  pose proof (foundThreats_infected c infoMap) as Hlen.
  destruct (foundThreats (map (scanOne c) infoMap)) as [|t more] eqn:Hthreats;
    [done|].
  intros [= <-]. right. split.
  { apply existsb_isRejected in Hrej. rewrite Forall_forall in Hrej.
    intros info Hin. apply Hrej, in_map. by apply list_elem_of_In. }
  assert (ScanThreat t ∈ map (scanOne c) infoMap) as Ht.
  { apply foundThreats_elem_of. rewrite Hthreats. apply elem_of_cons. by left. }
  apply list_elem_of_fmap in Ht as (info & Hinfo & Hin).
  exists t, info. split; [done|]. split; [done|].
  rewrite <- Hlen. by destruct more.
Qed.

Lemma passes_replies (c : Clamd) (l : list Info) :
  Forall (scanPasses c) l ->
  existsb isRejected (map (scanOne c) l) = false
  /\ foundThreats (map (scanOne c) l) = [].
Proof.
  induction 1 as [|info l Hinfo _ [IH1 IH2]]; [done|].
  cbn [map existsb foundThreats].
  apply scanOne_passes in Hinfo as [-> | ->]; cbn; by rewrite IH1, IH2.
Qed.

Lemma foundThreats_app (l1 l2 : list ScanReply) :
  foundThreats (l1 ++ l2) = (foundThreats l1 ++ foundThreats l2)%list.
Proof.
  induction l1 as [|r l1 IH]; [done|]. cbn. destruct r; cbn; by rewrite IH.
Qed.

Lemma scanOne_found (c : Clamd) (info : Info) (sig : string) :
  scanWhitelisted c info = false -> scanOversized c info = false ->
  scanFile c (path info) = Some ("stream: " +:+ sig +:+ " FOUND" +:+ nul) ->
  scanOne c info = ScanThreat sig.
Proof.
  intros Hw Ho Hreply. unfold scanOne. rewrite Hw, Ho, Hreply.
  assert (includes_sub "FOUND" ("stream: " +:+ sig +:+ " FOUND" +:+ nul) = true)
    as ->.
  { replace ("stream: " +:+ sig +:+ " FOUND" +:+ nul)
      with (("stream: " +:+ sig +:+ " ") +:+ "FOUND" +:+ nul).
    - apply includes_sub_app.
    - by rewrite !string_app_assoc. }
  rewrite orb_true_r. f_equal. unfold foundThreatOf.
  by rewrite stripPrefix_app, stripSuffix_app.
Qed.

(** X15.  The reply [stream: SIG FOUND] followed by NUL, which the scanner
    gives for an infected stream, is reported to the uploader as
    [Threat found: SIG.] when the other files of the batch pass. *)
Theorem threat_signature_reported (c : Clamd) (h : Host) (user : option User)
    (before after : list Info) (info : Info) (sig : string) (st : State) :
  scanBypassed c user = false ->
  Forall (scanPasses c) (before ++ after) ->
  scanWhitelisted c info = false -> scanOversized c info = false ->
  scanFile c (path info) = Some ("stream: " +:+ sig +:+ " FOUND" +:+ nul) ->
  fst (scanFiles c h user (before ++ info :: after) st)
  = Returned (Some ("Threat found: " +:+ sig +:+ ".")).
Proof.
  intros Hby Hpass Hw Ho Hreply.
  apply Forall_app in Hpass as [Hb Ha].
  destruct (passes_replies c before Hb) as [Hb1 Hb2].
  destruct (passes_replies c after Ha) as [Ha1 Ha2].
  pose proof (scanOne_found c info sig Hw Ho Hreply) as Hone.
  unfold scanFiles. rewrite Hby.
  assert (scanResults c (before ++ info :: after)
          = Some ("Threat found: " +:+ sig +:+ ".")) as ->.
  { unfold scanResults. rewrite map_app, existsb_app, foundThreats_app.
    cbn [map existsb foundThreats]. rewrite Hone, Hb1, Hb2, Ha1, Ha2. done. }
  unfold_M. destruct (unlinkEach_run h (before ++ info :: after) st) as (Hout & _).
  destruct (unlinkEach h (before ++ info :: after) st) as [out st'].
  cbn [fst] in Hout. by subst out.
Qed.

(** ** Upload by URLs *)

Lemma keepsTable_saveUrl h cfg uc net filelength url :
  keepsTable (saveUrl h cfg uc net filelength url).
Proof.
  unfold saveUrl. destruct (urlFiltered _ _ _) as [?|[]];
    try apply keepsTable_throw.
  destruct (net_fetch _ _) as [?|fetchFile]; [apply keepsTable_throw|].
  destruct (negb _); [apply keepsTable_throw|].
  apply keepsTable_bind; [apply keepsTable_getUniqueRandomName|].
  intros name. apply keepsTable_bind; [by apply keepsTable_modify|].
  intros []. apply keepsTable_ret.
Qed.

Lemma downloadUrls_table h cfg uc net filelength albumid age urls downloaded st :
  files_table (snd (downloadUrls h cfg uc net filelength albumid age urls
                      downloaded st))
  = files_table st.
Proof.
  revert downloaded st. induction urls as [|url urls IH]; intros downloaded st;
    [done|].
  cbn [downloadUrls].
  pose proof (keepsTable_saveUrl h cfg uc net filelength url st) as Hs.
  destruct (saveUrl h cfg uc net filelength url st) as [[d|e] st1];
    cbn [snd] in Hs; [|done].
  destruct (infoOfDownload albumid age d) as [info|]; [|done].
  specialize (IH (downloaded ++ [dl_destination d])%list st1).
  destruct (downloadUrls h cfg uc net filelength albumid age urls _ st1)
    as [[[infoMap|e] downloaded2] st2]; cbn [snd] in *; congruence.
Qed.

Lemma keepsTable_unlinkDownloaded h downloaded :
  keepsTable (unlinkDownloaded h downloaded).
Proof.
  induction downloaded as [|file rest IH]; cbn [unlinkDownloaded].
  - apply keepsTable_ret.
  - apply keepsTable_bind; [|done].
    apply keepsTable_swallow. by apply keepsTable_modify.
Qed.

Lemma keepsTable_scanFiles c h user infoMap :
  keepsTable (scanFiles c h user infoMap).
Proof.
  unfold scanFiles. destruct (scanBypassed c user); [apply keepsTable_ret|].
  destruct (scanResults c infoMap); [|apply keepsTable_ret].
  apply keepsTable_bind; [apply keepsTable_unlinkEach|].
  intros []. apply keepsTable_ret.
Qed.

Lemma keepsTable_scanGuard clamd h user infoMap :
  keepsTable (scanGuard clamd h user infoMap).
Proof.
  unfold scanGuard. destruct clamd as [c|]; [|apply keepsTable_ret].
  apply keepsTable_bind; [apply keepsTable_scanFiles|].
  intros [description|]; [apply keepsTable_throw|apply keepsTable_ret].
Qed.

Lemma actuallyUploadUrls_thrown h cfg uc net clamd req filelength user albumid
    age body_urls st e st' :
  actuallyUploadUrls h cfg uc net clamd req filelength user albumid age
    body_urls st = (Thrown e, st') ->
  files_table st' = files_table st.
Proof.
  unfold actuallyUploadUrls.
  destruct (negb (urlMaxSize uc)); [by intros [= _ <-]|].
  destruct body_urls as [| |urls]; try by intros [= _ <-].
  destruct (_ >? _); [by intros [= _ <-]|].
  pose proof (downloadUrls_table h cfg uc net filelength albumid age urls [] st)
    as Hd.
  destruct (downloadUrls h cfg uc net filelength albumid age urls [] st)
    as [[[infoMap|e1] downloaded] st1]; cbn [snd] in Hd.
  - unfold_M.
    pose proof (keepsTable_scanGuard clamd h user infoMap st1) as Hs.
    destruct (scanGuard clamd h user infoMap st1) as [[[]|e2] st2];
      cbn [snd] in Hs; [|intros [= _ <-]; congruence].
    destruct (storeFilesToDb h cfg req user infoMap st2)
      as [[result|e3] st3] eqn:Hstore; [done|].
    intros [= _ <-]. rewrite (storeFilesToDb_thrown _ _ _ _ _ _ _ _ Hstore).
    congruence.
  - intros [= _ <-].
    rewrite (keepsTable_unlinkDownloaded h downloaded st1). done.
Qed.

(** X16.  An upload by URLs that is answered with a failure has recorded
    nothing, whatever was downloaded before the failure. *)
Theorem uploadUrls_failure (h : Host) (cfg : Config) (uc : UrlConfig)
    (net : Net) (clamd : option Clamd) (user : option User) (r : UrlRequest)
    (st : State) (status : Z) (description : string) (st' : State) :
  ur_urls r <> UrlsFalsy ->
  uploadUrls h cfg uc net clamd user r st
  = (RespFailure status description, st') ->
  files_table st' = files_table st.
Proof.
  intros _. unfold uploadUrls.
  destruct (upload_age h cfg (ur_age r)) as [d|age].
  { by intros [= _ _ <-]. }
  destruct (actuallyUploadUrls _ _ _ _ _ _ _ _ _ _ _ _) as [[resp|e] st1]
    eqn:Hrun.
  - intros [= -> <-]. revert Hrun. unfold actuallyUploadUrls.
    destruct (negb (urlMaxSize uc)); [done|].
    destruct (ur_urls r) as [| |urls]; try done.
    destruct (_ >? _); [done|].
    destruct (downloadUrls _ _ _ _ _ _ _ _ _ _) as [[[infoMap|e1] downloaded] st2];
      [|done].
    unfold_M. destruct (scanGuard _ _ _ _ _) as [[[]|?] ?]; [|done].
    destruct (storeFilesToDb _ _ _ _ _ _) as [[?|?] ?]; done.
  - intros [= _ _ <-]. by eapply actuallyUploadUrls_thrown.
Qed.

Lemma scanGuard_nil clamd h user st :
  scanGuard clamd h user [] st = (Returned tt, st).
Proof.
  unfold scanGuard, scanFiles. destruct clamd as [c|]; [|done].
  unfold_M. by destruct (scanBypassed c user).
Qed.

(** X17.  The bounds of an upload by URLs: it is refused, before anything
    is fetched, when uploads by URLs are disabled, when [urls] is not an
    array and when it holds more than 20 URLs; an empty array is accepted
    and answered with an empty list of files. *)
Theorem actuallyUploadUrls_bounds (h : Host) (cfg : Config) (uc : UrlConfig)
    (net : Net) (clamd : option Clamd) (req : Request)
    (filelength : option string) (user : option User) (albumid : option Z)
    (age : JsAge) (st : State) :
  (forall body_urls,
     urlMaxSize uc = false ->
     actuallyUploadUrls h cfg uc net clamd req filelength user albumid age
       body_urls st = (Thrown urlsDisabled, st))
  /\ (urlMaxSize uc = true ->
      actuallyUploadUrls h cfg uc net clamd req filelength user albumid age
        UrlsNotArray st = (Thrown urlsMissing, st))
  /\ (forall urls,
        urlMaxSize uc = true -> (20 < List.length urls)%nat ->
        actuallyUploadUrls h cfg uc net clamd req filelength user albumid age
          (UrlsArray urls) st
        = (Thrown "Maximum 20 URLs at a time.", st))
  /\ (urlMaxSize uc = true ->
      actuallyUploadUrls h cfg uc net clamd req filelength user albumid age
        (UrlsArray []) st
      = (Returned (RespFiles []), st)).
Proof.
  unfold actuallyUploadUrls. split; [|split; [|split]].
  - intros body_urls ->. done.
  - intros ->. done.
  - intros urls -> Hlen. cbn [negb].
    assert ((Z.of_nat (List.length urls) >? maxFilesPerUpload) = true) as ->;
      [|done].
    unfold maxFilesPerUpload. lia.
  - intros ->. cbn [negb].
    change (Z.of_nat (List.length (@nil string)) >? maxFilesPerUpload) with false.
    cbn [downloadUrls]. unfold_M. rewrite scanGuard_nil. reflexivity.
Qed.

(** X18.  URLs have an extension policy of their own when
    [urlExtensionsFilterMode] is [blacklist] or [whitelist]:
    [filterNoExtension] and the general list are not consulted.  A mode
    without list refuses every URL; under a whitelist a URL whose file name
    has no extension is refused, under a blacklist it is let through (the
    empty extension not being listed); with any other mode the general
    policy applies. *)
Theorem urlFiltered_spec (cfg : Config) (uc : UrlConfig) :
  (urlExtensionsFilterMode uc <> "blacklist" ->
   urlExtensionsFilterMode uc <> "whitelist" ->
   forall extname,
     urlFiltered cfg uc extname = inr (isExtensionFiltered cfg extname))
  /\ (urlExtensionsFilterMode uc = "blacklist"
      \/ urlExtensionsFilterMode uc = "whitelist" ->
      (urlExtensionsFilter uc = [] ->
       forall extname, urlFiltered cfg uc extname = inl invalidUrlFilter)
      /\ (urlExtensionsFilter uc <> [] ->
          (forall extension, extension ∈ urlExtensionsFilter uc ->
                             extension <> "") ->
          urlFiltered cfg uc ""
          = inr (String.eqb (urlExtensionsFilterMode uc) "whitelist"))
      /\ (urlExtensionsFilter uc <> [] ->
          forall extname,
            urlFiltered cfg uc extname
            = inr (xorb (String.eqb (urlExtensionsFilterMode uc) "whitelist")
                     (bool_decide
                        (extname ∈ map toLowerCase (urlExtensionsFilter uc)))))).
Proof.
  unfold urlFiltered. split.
  - intros Hb Hw extname.
    assert (includes_str (urlExtensionsFilterMode uc) ["blacklist"; "whitelist"]
            = false) as ->; [|done].
    apply not_true_is_false. rewrite includes_str_elem_of, !elem_of_cons.
    intros [?|[?|Hn]]; [done..|by apply elem_of_nil in Hn].
  - intros Hmode.
    assert (includes_str (urlExtensionsFilterMode uc) ["blacklist"; "whitelist"]
            = true) as ->.
    { apply includes_str_elem_of. rewrite !elem_of_cons. tauto. }
    assert (forall extname,
              existsb (fun extension => String.eqb extname (toLowerCase extension))
                      (urlExtensionsFilter uc)
              = bool_decide (extname ∈ map toLowerCase (urlExtensionsFilter uc)))
      as Hmatch.
    { intros extname. apply eq_true_iff_eq.
      rewrite existsb_exists, bool_decide_eq_true, list_elem_of_fmap.
      split.
      - intros (e & He & ->%String.eqb_eq). exists e.
        split; [done|by apply list_elem_of_In].
      - intros (e & -> & He). exists e.
        split; [by apply list_elem_of_In|apply String.eqb_refl]. }
    split; [intros -> extname; done|].
    split.
    + intros Hne Hnonempty. destruct (urlExtensionsFilter uc) as [|e0 es] eqn:Hl;
        [done|]. cbn [List.length Nat.eqb negb]. rewrite Hmatch.
      rewrite bool_decide_eq_false_2.
      * by destruct (String.eqb (urlExtensionsFilterMode uc) "whitelist").
      * intros (e & He & Hin)%list_elem_of_fmap. apply (Hnonempty e Hin).
        destruct e; [done|discriminate He].
    + intros Hne extname. destruct (urlExtensionsFilter uc) as [|e0 es] eqn:Hl;
        [done|]. cbn [List.length Nat.eqb negb]. rewrite Hmatch.
      by destruct (String.eqb (urlExtensionsFilterMode uc) "whitelist"),
                  (bool_decide _).
Qed.

Lemma storeFilesToDb_single_new h cfg req user info content st :
  disk st !! path info = Some content ->
  List.find (isDuplicateOf user (md5 h content) (size (data info)))
            (files_table st) = None ->
  exists row st',
    storeFilesToDb h cfg req user [info] st = (Returned [storedOfRow row], st')
    /\ files_table st' = (files_table st ++ [row])%list
    /\ disk st' = disk st
    /\ (row = newRow h cfg req user info (md5 h content)
        \/ row = set_albumid None (newRow h cfg req user info (md5 h content))).
Proof.
  intros Hc Hfind. unfold storeFilesToDb. cbn [forEachM]. unfold_M.
  rewrite storeOne_run, Hc, Hfind. cbn [rights lefts].
  set (row0 := newRow h cfg req user info (md5 h content)).
  set (ids := authorizedIdsOf user (albumidsOf [row0]) (albums_table st)).
  assert (exists row, withAuthorizedAlbums (albumidsOf [row0]) ids [row0] = [row]
                      /\ (row = row0 \/ row = set_albumid None row0))
    as (row & Hrow & Hcases).
  { pose proof (withAuthorizedAlbums_rows (albumidsOf [row0]) ids [row0]) as H.
    inversion H as [|? row ? rest Hr Hrest]; subst.
    inversion Hrest; subst. by exists row. }
  rewrite Hrow. exists row.
  destruct ids; eexists; (split; [reflexivity|]); cbn; done.
Qed.

Lemma scanGuard_passes clamd h user infoMap st :
  (forall c, clamd = Some c ->
             scanBypassed c user = true \/ Forall (scanPasses c) infoMap) ->
  scanGuard clamd h user infoMap st = (Returned tt, st).
Proof.
  intros Hpass. unfold scanGuard. destruct clamd as [c|]; [|done].
  unfold scanFiles. unfold_M.
  destruct (Hpass c eq_refl) as [-> | Hall]; [done|].
  destruct (scanBypassed c user); [done|].
  apply scanResults_None in Hall. by rewrite Hall.
Qed.

Lemma getUniqueRandomName_loop_frame h cfg tries len extension st :
  files_table (snd (getUniqueRandomName_loop h cfg tries len extension st))
  = files_table st
  /\ albums_table (snd (getUniqueRandomName_loop h cfg tries len extension st))
     = albums_table st
  /\ chunksData (snd (getUniqueRandomName_loop h cfg tries len extension st))
     = chunksData st
  /\ disk (snd (getUniqueRandomName_loop h cfg tries len extension st))
     = disk st.
Proof.
  revert st. induction tries as [|n IH]; intros st; [done|].
  cbn [getUniqueRandomName_loop].
  destruct (cacheFileIdentifiers cfg); case_bool_decide; try done;
    apply (IH (set_draws S st)).
Qed.

(** X19.  A single URL whose extension is allowed, that is fetched with
    status 200 and a content type, that passes the scan and whose content
    is not stored yet: the fetched bytes are written under the allocated
    name, one row is appended with that name, the byte length as size, the
    digest of the bytes, the content type up to its first semicolon and the
    file name of the URL up to its query, and the response lists the
    name. *)
Theorem url_download_stored (h : Host) (cfg : Config) (uc : UrlConfig)
    (net : Net) (clamd : option Clamd) (req : Request)
    (filelength : option string) (user : option User) (albumid : option Z)
    (age : JsAge) (url : string) (st : State)
    (fetchFile : Fetched) (contentType name : string) (st1 : State) :
  let original := cutAt isQueryOrHash (path_basename net url) in
  let file_extname := utils_extname h original in
  let body := fetched_body fetchFile in
  let info :=
    {| path := path_join (uploadsDir h) name;
       data := {| filename := name; originalname := original;
                  extname := file_extname;
                  mimetype := cutAt (Ascii.eqb ";") contentType;
                  size := Z.of_nat (List.length body);
                  albumid := albumid; age := age |} |} in
  urlMaxSize uc = true ->
  urlFiltered cfg uc file_extname = inr false ->
  net_fetch net (proxied net uc url) = inr fetchFile ->
  fetched_status fetchFile = 200 ->
  fetched_contentType fetchFile = Some contentType ->
  getUniqueRandomName h cfg
    (Z.to_nat (parseFileIdentifierLength h cfg filelength)) file_extname st
  = (Returned name, st1) ->
  (forall c, clamd = Some c ->
             scanBypassed c user = true \/ scanPasses c info) ->
  List.find (isDuplicateOf user (md5 h body) (Z.of_nat (List.length body)))
            (files_table st) = None ->
  exists row st',
    actuallyUploadUrls h cfg uc net clamd req filelength user albumid age
      (UrlsArray [url]) st
    = (Returned (sendUploadResponse cfg req [storedOfRow row]), st')
    /\ files_table st' = (files_table st ++ [row])%list
    /\ disk st' = <[path_join (uploadsDir h) name := body]> (disk st)
    /\ f_name row = name
    /\ f_original row = original
    /\ f_type row = cutAt (Ascii.eqb ";") contentType
    /\ f_size row = Z.of_nat (List.length body)
    /\ f_hash row = md5 h body
    /\ f_userid row = u_id <$> user
    /\ f_expirydate row = expiryOf h (req_now req / 1000) age.
Proof.
  intros original file_extname body info Hon Hfilter Hfetch Hstatus Hct Hname
    Hscan Hnew.
  destruct (getUniqueRandomName_loop_frame h cfg (idMaxTries h)
              (Z.to_nat (parseFileIdentifierLength h cfg filelength))
              file_extname st) as (Hft & Hat & Hcd & Hd).
  unfold getUniqueRandomName in Hname. rewrite Hname in Hft, Hat, Hcd, Hd.
  cbn [snd] in *.
  set (st2 := set_disk (insert (path_join (uploadsDir h) name) body) st1).
  destruct (storeFilesToDb_single_new h cfg req user info body st2)
    as (row & st' & Hstore & Hrows & Hdisk & Hrow).
  { cbn. apply lookup_insert_eq. }
  { cbn. by rewrite Hft. }
  exists row, st'. split.
  - unfold actuallyUploadUrls. rewrite Hon. cbn [negb].
    change (Z.of_nat (List.length [url]) >? maxFilesPerUpload) with false.
    cbn [downloadUrls]. unfold saveUrl.
    fold original. fold file_extname. rewrite Hfilter, Hfetch, Hstatus.
    cbn [Z.eqb Pos.eqb negb]. unfold_M. unfold getUniqueRandomName. rewrite Hname.
    unfold infoOfDownload. cbn [dl_fetched dl_destination dl_name dl_original
      dl_extname]. rewrite Hct. fold body. fold info. fold st2.
    rewrite (scanGuard_passes clamd h user [info] st2).
    + by rewrite Hstore.
    + intros c Hc. destruct (Hscan c Hc) as [?|?]; [by left|right].
      by constructor.
  - split; [by rewrite Hrows; cbn; rewrite Hft|].
    split; [by rewrite Hdisk; cbn; rewrite Hd|].
    destruct Hrow as [-> | ->]; cbn; repeat split; done.
Qed.

(** ** Dropzone keys *)

Lemma prefix_dz (key : string) :
  String.prefix "dz" key = true <-> key = "dz" +:+ drop_str 2 key.
Proof.
  split; [|intros ->; apply prefix_app].
  destruct key as [|c1 [|c2 rest]]; cbn [String.prefix].
  - discriminate.
  - by destruct (ascii_dec "d" c1).
  - destruct (ascii_dec "d" c1) as [<-|]; [|discriminate].
    destruct (ascii_dec "z" c2) as [<-|]; [|discriminate]. reflexivity.
Qed.

Lemma prefix_dz_app (a : string) : String.prefix "dz" ("dz" +:+ a) = true.
Proof. apply prefix_app. Qed.

Lemma remapDropzone_lookup (keys : list string) (body : gmap string string)
    (k : string) :
  NoDup keys ->
  (forall key, key ∈ keys -> String.prefix "dzdz" key = false) ->
  foldl remapKey body keys !! k
  = if String.prefix "dz" k
    then (if bool_decide (k ∈ keys) then None else body !! k)
    else match (if bool_decide ("dz" +:+ k ∈ keys)
                then body !! ("dz" +:+ k) else None) with
         | Some value => Some value
         | None => body !! k
         end.
Proof.
  revert body. induction keys as [|q keys IH]; intros body Hnd Hdzdz.
  { cbn. rewrite !bool_decide_eq_false_2 by apply not_elem_of_nil.
    by destruct (String.prefix "dz" k). }
  apply list.NoDup_cons in Hnd as [Hq Hnd]. cbn [foldl].
  rewrite IH; [|done|intros key Hkey; apply Hdzdz, elem_of_cons; by right].
  assert (String.prefix "dzdz" q = false) as Hq2
    by (apply Hdzdz, elem_of_cons; by left).
  unfold remapKey.
  destruct (String.prefix "dz" q) eqn:Hpq.
  - (* [q] is a Dropzone key *)
    apply prefix_dz in Hpq. set (a := drop_str 2 q) in *.
    assert (String.prefix "dz" a = false) as Ha.
    { apply not_true_is_false. intros Hpa. apply prefix_dz in Hpa.
      rewrite Hpq, Hpa in Hq2.
      change ("dz" +:+ "dz" +:+ drop_str 2 a) with ("dzdz" +:+ drop_str 2 a) in Hq2.
      by rewrite prefix_app in Hq2. }
    destruct (String.prefix "dz" k) eqn:Hpk.
    + assert (k <> a) as Hka by (intros ->; congruence).
      destruct (decide (k = q)) as [->|Hkq].
      * rewrite (bool_decide_eq_true_2 (q ∈ q :: keys)) by (apply elem_of_cons; by left).
        rewrite (bool_decide_eq_false_2 (q ∈ keys)) by done.
        destruct (body !! q) eqn:Hbq; [apply lookup_delete_eq|done].
      * destruct (bool_decide (k ∈ keys)) eqn:Hin.
        -- apply bool_decide_eq_true in Hin.
           rewrite bool_decide_eq_true_2; [done|]. apply elem_of_cons. by right.
        -- apply bool_decide_eq_false in Hin.
           rewrite bool_decide_eq_false_2
             by (intros [?|?]%elem_of_cons; done).
           destruct (body !! q); [|done].
           by rewrite lookup_delete_ne, lookup_insert_ne.
    + assert (k <> q) as Hkq.
      { intros ->. rewrite Hpq in Hpk. by rewrite prefix_app in Hpk. }
      destruct (decide (k = a)) as [->|Hka].
      * rewrite <- Hpq.
        rewrite (bool_decide_eq_true_2 (q ∈ q :: keys)) by (apply elem_of_cons; by left).
        rewrite (bool_decide_eq_false_2 (q ∈ keys)) by done.
        destruct (body !! q) eqn:Hbq; [|done].
        by rewrite lookup_delete_ne, lookup_insert_eq.
      * assert ("dz" +:+ k <> q) as Hdk.
        { rewrite Hpq. intros Heq. by apply (inj (String.app "dz")) in Heq. }
        assert ("dz" +:+ k <> a) as Hda.
        { intros Heq. rewrite <- Heq in Ha. by rewrite prefix_app in Ha. }
        assert (bool_decide ("dz" +:+ k ∈ q :: keys)
                = bool_decide ("dz" +:+ k ∈ keys)) as ->.
        { apply bool_decide_ext. rewrite elem_of_cons. tauto. }
        destruct (body !! q) eqn:Hbq; [|done].
        rewrite !lookup_delete_ne, !lookup_insert_ne by done. done.
  - (* [q] is left alone *)
    destruct (String.prefix "dz" k) eqn:Hpk.
    + assert (k <> q) as Hkq by (intros ->; congruence).
      assert (bool_decide (k ∈ q :: keys) = bool_decide (k ∈ keys)) as ->;
        [|done].
      apply bool_decide_ext. rewrite elem_of_cons. tauto.
    + assert ("dz" +:+ k <> q) as Hdk.
      { intros <-. by rewrite prefix_app in Hpq. }
      assert (bool_decide ("dz" +:+ k ∈ q :: keys)
              = bool_decide ("dz" +:+ k ∈ keys)) as ->; [|done].
      apply bool_decide_ext. rewrite elem_of_cons. tauto.
Qed.

(** X20.  The loop that re-maps Dropzone keys, in whatever order the keys
    of the body are enumerated: no key starting with [dzdz], the body ends
    up without any key starting with [dz]; a field is read under its plain
    name from the [dz]-prefixed key when that one was sent, which then
    overrides a field sent under the plain name, and from the plain key
    otherwise. *)
Theorem remapDropzone_spec (keys : list string) (body : gmap string string) :
  keys ≡ₚ (map_to_list body).*1 ->
  Forall (fun key => String.prefix "dzdz" key = false) keys ->
  forall k,
    remapDropzone keys body !! k
    = if String.prefix "dz" k then None
      else match body !! ("dz" +:+ k) with
           | Some value => Some value
           | None => body !! k
           end.
Proof.
  intros Hperm Hdzdz k. unfold remapDropzone.
  assert (NoDup keys) as Hnd.
  { rewrite Hperm. apply NoDup_fst_map_to_list. }
  assert (forall key, key ∈ keys <-> is_Some (body !! key)) as Hdom.
  { intros key. rewrite Hperm, list_elem_of_fmap. split.
    - intros ([i x] & -> & Hix). apply elem_of_map_to_list in Hix.
      by exists x.
    - intros [x Hx]. exists (key, x). split; [done|].
      by apply elem_of_map_to_list. }
  rewrite remapDropzone_lookup;
    [|done|intros key Hkey; by apply (proj1 (list.Forall_forall _ _) Hdzdz)].
  destruct (String.prefix "dz" k).
  - case_bool_decide as Hin; [done|].
    destruct (body !! k) eqn:Hk; [|done].
    destruct Hin. apply Hdom. by eexists.
  - case_bool_decide as Hin; [done|].
    destruct (body !! ("dz" +:+ k)) eqn:Hk; [|done].
    destruct Hin. apply Hdom. by eexists.
Qed.

(** ** Multipart files without chunked uploads *)

(** X21.  With chunked uploads disabled no multipart file creates or
    changes a chunk session: a file whose request carries a chunk index is
    refused, and any other file is either refused or written, whole, under
    a freshly allocated name in the uploads directory, nothing else on disk
    being touched. *)
Theorem multerFile_without_chunks (h : Host) (cfg : Config)
    (filelength : option string) (keys : list string)
    (body : gmap string string) (file : Part) (st : State) :
  chunkSize cfg = false ->
  chunksData (snd (multerFile h cfg filelength keys body file st))
  = chunksData st
  /\ files_table (snd (multerFile h cfg filelength keys body file st))
     = files_table st
  /\ (is_Some (remapDropzone keys body !! "chunkindex") ->
      exists description,
        multerFile h cfg filelength keys body file st
        = (Thrown description, st))
  /\ (forall stored body',
        fst (multerFile h cfg filelength keys body file st)
        = Returned (stored, body') ->
        body' = remapDropzone keys body
        /\ m_originalname stored = part_originalname file
        /\ m_mimetype stored = part_mimetype file
        /\ m_size stored = Z.of_nat (List.length (part_content file))
        /\ disk (snd (multerFile h cfg filelength keys body file st))
           = <[path_join (uploadsDir h) (m_filename stored) := part_content file]>
               (disk st)).
Proof.
  intros Hoff. unfold multerFile, fileFilter.
  destruct (isExtensionFiltered cfg (utils_extname h (part_originalname file))).
  { cbn. split; [done|]. split; [done|]. split; [by eexists|done]. }
  rewrite Hoff. cbn [negb andb].
  destruct (bool_decide (is_Some (remapDropzone keys body !! "chunkindex")))
    eqn:Hidx; cbn [andb].
  { cbn. split; [done|]. split; [done|]. split; [by eexists|done]. }
  apply bool_decide_eq_false in Hidx.
  unfold multerDestination, multerFilename, isPlainUpload. rewrite Hoff.
  cbn [negb orb]. unfold_M.
  destruct (getUniqueRandomName_loop_frame h cfg (idMaxTries h)
              (Z.to_nat (parseFileIdentifierLength h cfg filelength))
              (utils_extname h (part_originalname file)) st) as (Hft & _ & Hcd & Hd).
  unfold getUniqueRandomName.
  destruct (getUniqueRandomName_loop h cfg (idMaxTries h) _ _ st)
    as [[fileName|e] st1]; cbn [fst snd] in *.
  - split; [done|]. split; [done|]. split; [done|].
    intros stored body' [= <- <-]. cbn. by rewrite Hd.
  - split; [done|]. split; [done|]. split; [done|]. done.
Qed.

(** ** Listing *)

(** X22.  What a user who is not a moderator can ask of the store: the
    request is forbidden as soon as the [all] or the [filters] header is a
    non-empty string, whatever it says; otherwise the page is drawn from
    the user's own uploads or, when the route names an album, from the
    files of that album, whoever owns them.  Uploader addresses are never
    selected, and the order is by descending identifier. *)
Theorem listQuery_not_moderator (h : Host) (cfg : Config)
    (users_table : list User) (now : Z) (user : User) (r : ListRequest) :
  listQuery h cfg users_table now false user r
  = if header_truthy (l_all r) || header_truthy (l_filters r)
    then ListForbidden
    else ListQuery
           {| sq_where := match l_id r with
                          | Some id => ByAlbum id
                          | None => ByOwner (u_id user)
                          end;
              sq_orderByRaw := "`id` desc";
              sq_limit := 25;
              sq_offset := match l_page r with
                           | None => Some 0
                           | Some page => Z.mul 25 <$> toNumber h page
                           end;
              sq_columns :=
                (["id"; "name"; "userid"; "size"; "timestamp"]
                 ++ (if temporaryUploads cfg then ["expirydate"] else [])
                 ++ ["albumid"])%list |}.
Proof.
  unfold listQuery. cbn [negb]. rewrite andb_true_r.
  destruct (header_truthy (l_all r)) eqn:Hall; [done|].
  destruct (l_filters r) as [[|c s]|]; cbn [header_truthy str_truthy orb];
    [|done|].
  all: unfold filterPredicate; by destruct (l_id r).
Qed.

(** X23.  The column [ip] is selected only for a moderator who sent a
    non-empty [all] header. *)
Theorem listQuery_ip_column (h : Host) (cfg : Config)
    (users_table : list User) (now : Z) (ismoderator : bool) (user : User)
    (r : ListRequest) (q : StoreQuery) :
  listQuery h cfg users_table now ismoderator user r = ListQuery q ->
  "ip" ∈ sq_columns q ->
  ismoderator = true /\ header_truthy (l_all r) = true.
Proof.
  unfold listQuery. destruct (header_truthy (l_all r)) eqn:Hall.
  - destruct ismoderator; [done|]. cbn. done.
  - destruct (_ && _); [done|].
    destruct (match l_filters r with Some (String _ _) => _ | _ => _ end)
      as [?|[f parsed]]; [done|].
    destruct (filterPredicate _ _ _ _); [done|].
    intros [= <-]. cbn [sq_columns].
    destruct (temporaryUploads cfg); cbn [app];
      rewrite !elem_of_cons, elem_of_nil;
      intros H; decompose [or] H; first [discriminate|done].
Qed.

(** ** Who uploads *)

Lemma find_none_intro {A} (f : A -> bool) (l : list A) :
  (forall x, x ∈ l -> f x = false) -> List.find f l = None.
Proof.
  induction l as [|y l IH]; intros Hall; [done|]. cbn [List.find].
  rewrite (Hall y) by (apply elem_of_cons; by left).
  apply IH. intros x Hx. apply Hall, elem_of_cons. by right.
Qed.

(** X24.  On a public deployment a token that matches no account is not an
    error: the request is served exactly as if it carried no token, as an
    anonymous upload.  A token whose first matching account is disabled is
    refused before anything is stored. *)
Theorem uploadAs_token (h : Host) (cfg : Config) (authorized : option User)
    (accounts : list Account) (r : UploadRequest) (st : State) :
  (forall token,
     (forall a, a ∈ accounts -> acc_token a <> token) ->
     uploadAs h cfg false authorized accounts (Some token) r st
     = uploadAs h cfg false authorized accounts None r st)
  /\ (forall token before a after,
        token <> "" ->
        accounts = (before ++ a :: after)%list ->
        (forall b, b ∈ before -> acc_token b <> token) ->
        acc_token a = token -> acc_enabled a = false ->
        uploadAs h cfg false authorized accounts (Some token) r st
        = (Some (RespFailure 200 accountDisabled), st)).
Proof.
  split.
  - intros token Hnone. unfold uploadAs, resolveUploader. cbn [negb header_truthy].
    destruct (str_truthy token); [|done].
    change (default "" (Some token)) with token.
    assert (List.find (fun a => String.eqb (acc_token a) token) accounts = None)
      as ->; [|done].
    apply find_none_intro. intros a Ha. by apply String.eqb_neq, Hnone.
  - intros token before a after Htoken -> Hbefore Ha Hoff.
    unfold uploadAs, resolveUploader. cbn [header_truthy].
    change (default "" (Some token)) with token.
    destruct token as [|c t]; [done|]. cbn [str_truthy].
    assert (List.find (fun a0 => String.eqb (acc_token a0) (String c t))
                      (before ++ a :: after) = Some a) as ->.
    { clear -Hbefore Ha. induction before as [|b before IH]; cbn [app List.find].
      - by rewrite Ha, String.eqb_refl.
      - assert (String.eqb (acc_token b) (String c t) = false) as ->.
        { apply String.eqb_neq, Hbefore, elem_of_cons. by left. }
        apply IH. intros b' Hb'. apply Hbefore, elem_of_cons. by right. }
    by rewrite Hoff.
Qed.

(** ** The [/info] route *)

Lemma substring_app_l (n unit : string) :
  String.substring 0 (String.length n) (n +:+ unit) = n.
Proof.
  induction n as [|c n IH].
  - change ("" +:+ unit) with unit. by destruct unit.
  - change (String c n +:+ unit) with (String c (n +:+ unit)). cbn.
    by rewrite IH.
Qed.

(** X25.  [/info] answers 401 exactly when [config.TOKEN] is [true] and
    the [auth] header differs from the configured client token; otherwise
    it reports the configured maximal size without its last two
    characters, so a size written as a number followed by a unit of two
    letters is reported as the number alone. *)
Theorem info_spec (c : ApiConfig) (auth : option string) :
  (info c auth = NotAuthorized
   <-> api_TOKEN c = true /\ auth <> api_clientToken c)
  /\ (forall n unit,
        String.length unit = 2%nat -> api_maxsize c = n +:+ unit ->
        info c auth <> NotAuthorized -> info c auth = MaxFileSize n)
  /\ ((String.length (api_maxsize c) <= 2)%nat ->
      info c auth <> NotAuthorized -> info c auth = MaxFileSize "").
Proof.
  unfold info. split; [|split].
  - destruct (api_TOKEN c); cbn [andb]; [|split; [done|by intros []]].
    case_bool_decide; cbn [negb]; split; try done; by intros [].
  - intros n unit Hunit Hsize.
    destruct (api_TOKEN c && negb (bool_decide (auth = api_clientToken c)));
      [done|]. intros _. f_equal. unfold slice_0_neg2.
    rewrite Hsize, string_app_length, Hunit.
    replace (String.length n + 2 - 2)%nat with (String.length n) by lia.
    apply substring_app_l.
  - intros Hlen.
    destruct (api_TOKEN c && negb (bool_decide (auth = api_clientToken c)));
      [done|]. intros _. f_equal. unfold slice_0_neg2.
    replace (String.length (api_maxsize c) - 2)%nat with 0%nat by lia.
    by destruct (api_maxsize c).
Qed.

(** ** Stripping tags *)

(** X26.  Tags are stripped only when the configuration has a [stripTags]
    entry; when that entry forces its default the request header is
    ignored, otherwise a header that is present decides: stripping is on
    exactly when [parseInt] reads a number other than 0 from it.  A request
    that does not ask for stripping leaves the batch alone, and when
    stripping fails no file of the batch is left in the uploads directory,
    whatever [utils.stripTags] did before failing. *)
Theorem stripTagsWith_spec (h : Host) (sc : option StripTagsConfig)
    (strip : string -> string -> M unit) (req : Request)
    (infoMap : list Info) (st : State) :
  (parseStripTags h None (req_striptags req) = false)
  /\ (forall c v1 v2,
        strip_force c = true ->
        parseStripTags h (Some c) v1 = parseStripTags h (Some c) v2)
  /\ (forall c v,
        strip_force c = false ->
        (parseStripTags h (Some c) (Some v) = true
         <-> exists n, parseInt h v = Some n /\ n <> 0))
  /\ (parseStripTags h sc (req_striptags req) = false ->
      stripTagsWith h sc strip req infoMap st = (Returned tt, st))
  /\ (forall e st',
        stripTagsWith h sc strip req infoMap st = (Thrown e, st') ->
        parseStripTags h sc (req_striptags req) = true
        /\ forall info, info ∈ infoMap ->
             disk st' !! path_join (uploadsDir h) (filename (data info)) = None).
Proof.
  split; [done|]. split.
  { intros c v1 v2 Hforce. unfold parseStripTags. rewrite Hforce.
    by destruct v1, v2. }
  split.
  { intros c v Hforce. unfold parseStripTags. rewrite Hforce.
    destruct (parseInt h v) as [n|].
    - destruct (Z.eqb_spec n 0) as [->|Hn]; cbn.
      + split; [done|]. by intros (m & [= <-] & ?).
      + split; [|done]. intros _. by exists n.
    - split; [done|]. by intros (m & ? & _). }
  unfold stripTagsWith. split.
  { by intros ->. }
  intros e st'. destruct (parseStripTags h sc (req_striptags req)); [|done].
  cbn [negb]. unfold onThrow. unfold_M.
  destruct (forEachM _ infoMap st) as [[rs|e1] st1]; [done|].
  intros [= <- <-]. split; [done|]. intros info Hin.
  destruct (unlinkEach_run h infoMap st1) as (_ & Hd & _).
  rewrite Hd. rewrite bool_decide_eq_true_2; [done|].
  apply list_elem_of_fmap. by exists info.
Qed.

(** ** The bound on the number of fragments *)

(** X27.  A session holds at most as many fragments as the maximal file
    size has megabytes: the finalisation of a session with more is refused
    with "Too many chunks.", whatever the sizes of the fragments, before a
    name is allocated; what it leaves is the state that the clean-up of the
    session leaves. *)
Theorem too_many_chunks_refused (h : Host) (cfg : Config) (req : Request)
    (user : option User) (file : FinishFile) (uuid : string)
    (session : ChunkSession) (st : State) :
  chunkSize cfg = true ->
  ff_uuid file = Some uuid -> chunksData st !! uuid = Some session ->
  maxSize cfg < Z.of_nat (List.length (chunks session)) ->
  (2 <= List.length (chunks session))%nat ->
  finishChunks h cfg req user [file] st
  = (RespFailure 400 "Too many chunks.", snd (cleanUpChunks uuid st)).
Proof.
  intros Hon Hu Hs Hmany Htwo.
  unfold finishChunks, actuallyFinishChunks. rewrite Hon. cbn [negb].
  unfold_M.
  rewrite (someCheck_registered h st [file]).
  2:{ cbn [existsb]. unfold finishCheck. rewrite Hu, Hs.
      apply orb_false_iff. split; [|done]. apply Nat.ltb_ge. lia. }
  cbn [onThrow forEachM]. unfold onThrow, finishFile, finishFile_combine.
  unfold_M. rewrite Hu. cbn [option_bind]. rewrite Hs. cbn [option_bind fmap option_fmap option_map].
  assert ((Z.of_nat (List.length (chunks session)) >? maxChunksCount cfg) = true)
    as ->.
  { unfold maxChunksCount. lia. }
  cbn [cleanUpLeftovers]. unfold_M. rewrite Hu. cbn [option_bind].
  rewrite Hs. cbn [option_bind]. reflexivity.
Qed.

(** Half past noon on the first day of 2020, asked at two different
    times. *)
Lemma parseDate_full_date_time_witness :
  parseDate sampleHost 1600000000000 "2020/01/01 12:30:15" (Some (-120)) true
  = parseDate sampleHost 0 "2020/01/01 12:30:15" (Some (-120)) true
  /\ parseDate sampleHost 0 "2020/01/01 12:30:15" (Some (-120)) true
     = DateAt 1577874615000.
Proof.
  split; [|vm_compute; reflexivity].
  apply (parseDate_full_date_time sampleHost 1600000000000 0
           "2020/01/01 12:30:15" (Some (-120))
           {| dm_year := Some 2020; dm_month := Some 1; dm_day := Some 1;
              dm_hours := Some 12; dm_minutes := Some 30;
              dm_seconds := Some 15 |}).
  - reflexivity.
  - by eexists.
  - by eexists.
Defined.


(** A finalisation that names a session nobody opened. *)
Lemma finishChunks_rejects_unready_witness :
  finishChunks sampleHost sampleConfig sampleRequest None [sampleFinish 4]
    emptyState
  = (RespFailure 400 "An unexpected error occurred.", emptyState).
Proof.
  apply (finishChunks_rejects_unready sampleHost sampleConfig sampleRequest None
           [sampleFinish 4] emptyState eq_refl).
  { intros file uuid [->|Hin]%elem_of_cons Hu _;
      [|by apply elem_of_nil in Hin].
    cbn in Hu. injection Hu as <-. reflexivity. }
  right. exists (sampleFinish 4). split; [apply elem_of_cons; by left|].
  exact I.
Defined.

(** The batch of two files whose second one is empty: both are unlinked. *)
Lemma empty_file_rejects_batch_witness :
  exists st',
    actuallyUploadFiles sampleHost sampleConfig sampleRequest (Some bob) None
      AgeNull None sampleBatch sampleStore
    = (Thrown "Empty files are not allowed.", st')
    /\ (forall p, disk st' !! p
                  = if bool_decide
                         (p ∈ map (fun file => path_join (uploadsDir sampleHost)
                                                 (m_filename file)) sampleBatch)
                    then None else disk sampleStore !! p)
    /\ files_table st' = files_table sampleStore
    /\ chunksData st' = chunksData sampleStore.
Proof.
  apply (empty_file_rejects_batch sampleHost sampleConfig sampleRequest
           (Some bob) None AgeNull None sampleBatch sampleStore eq_refl).
  - eexists. split; [apply elem_of_cons; right; apply elem_of_cons; by left|].
    reflexivity.
  - intros _. split; reflexivity.
Defined.

(** Bob uploads [a.png] and [b.png]; the scanner reports the second: both
    files are unlinked. *)
Lemma scanFiles_finding_witness :
  fst (scanFiles sampleClamd sampleHost (Some bob)
         [sampleInfo "a.png"; sampleInfo "b.png"] sampleStore)
  = Returned (Some "Threat found: Eicar-Test-Signature.")
  /\ disk (snd (scanFiles sampleClamd sampleHost (Some bob)
                  [sampleInfo "a.png"; sampleInfo "b.png"] sampleStore))
       !! "uploads/a.png" = None
  /\ disk (snd (scanFiles sampleClamd sampleHost (Some bob)
                  [sampleInfo "a.png"; sampleInfo "b.png"] sampleStore))
       !! "uploads/c.png" = Some sampleBytes
  /\ files_table (snd (scanFiles sampleClamd sampleHost (Some bob)
                         [sampleInfo "a.png"; sampleInfo "b.png"] sampleStore))
     = files_table sampleStore.
Proof.
  destruct (scanFiles_finding sampleClamd sampleHost (Some bob)
              [sampleInfo "a.png"; sampleInfo "b.png"] sampleStore
              "Threat found: Eicar-Test-Signature." eq_refl)
    as (Hd & Hft & _).
  split; [reflexivity|]. split; [rewrite Hd; reflexivity|].
  split; [rewrite Hd; reflexivity|exact Hft].
Defined.

Lemma threat_signature_reported_witness :
  fst (scanFiles sampleClamd sampleHost (Some bob)
         ([sampleInfo "a.png"] ++ sampleInfo "b.png" :: [sampleInfo "c.png"])
         sampleStore)
  = Returned (Some ("Threat found: " +:+ "Eicar-Test-Signature" +:+ ".")).
Proof.
  apply (threat_signature_reported sampleClamd sampleHost (Some bob)
           [sampleInfo "a.png"] [sampleInfo "c.png"] (sampleInfo "b.png")
           "Eicar-Test-Signature" sampleStore).
  - reflexivity.
  - constructor; [|constructor; [|constructor]]; right; right; eexists;
      (split; [reflexivity|split; reflexivity]).
  - reflexivity.
  - reflexivity.
  - reflexivity.
Defined.

(** An address that answers 404. *)
Lemma uploadUrls_failure_witness :
  uploadUrls sampleHost sampleConfig sampleUrlConfig sampleNet None (Some bob)
    (sampleUrlRequest "https://example.org/dog.png") sampleStore
  = (RespFailure 400 "404 Not Found", sampleStore)
  /\ files_table sampleStore = files_table sampleStore.
Proof.
  split; [vm_compute; reflexivity|].
  apply (uploadUrls_failure sampleHost sampleConfig sampleUrlConfig sampleNet
           None (Some bob) (sampleUrlRequest "https://example.org/dog.png")
           sampleStore 400 "404 Not Found").
  - discriminate.
  - vm_compute. reflexivity.
Defined.

(** The address that answers with three bytes, fetched by bob into an
    empty store. *)
Lemma url_download_stored_witness :
  exists row st',
    actuallyUploadUrls sampleHost sampleConfig sampleUrlConfig sampleNet
      (Some sampleClamd) sampleRequest None (Some bob) None AgeNull
      (UrlsArray ["https://example.org/cat.png?size=big"]) emptyState
    = (Returned (sendUploadResponse sampleConfig sampleRequest [storedOfRow row]),
       st')
    /\ files_table st' = [row]
    /\ disk st' !! "uploads/aaaaaaaaaaaaaaaaaaaaaaaaaaaaaaaa.png" = Some sampleBytes
    /\ f_name row = "aaaaaaaaaaaaaaaaaaaaaaaaaaaaaaaa.png"
    /\ f_original row = "cat.png"
    /\ f_type row = "image/png"
    /\ f_size row = 3
    /\ f_userid row = Some 2.
Proof.
  destruct (url_download_stored sampleHost sampleConfig sampleUrlConfig sampleNet
              (Some sampleClamd) sampleRequest None (Some bob) None AgeNull
              "https://example.org/cat.png?size=big" emptyState
              {| fetched_status := 200; fetched_statusText := "OK";
                 fetched_contentType := Some "image/png; charset=binary";
                 fetched_body := sampleBytes |}
              "image/png; charset=binary"
              "aaaaaaaaaaaaaaaaaaaaaaaaaaaaaaaa.png"
              (set_idSet (fun _ => {["aaaaaaaaaaaaaaaaaaaaaaaaaaaaaaaa"]})
                 (set_draws (fun _ => 1%nat) emptyState)))
    as (row & st' & Hrun & Hft & Hdisk & Hname & Horig & Htype & Hsize & _ & Huser & _).
  - reflexivity.
  - reflexivity.
  - reflexivity.
  - reflexivity.
  - reflexivity.
  - vm_compute. reflexivity.
  - intros c [= <-]. right. right. right. eexists.
    split; [reflexivity|split; reflexivity].
  - reflexivity.
  - exists row, st'. split; [exact Hrun|]. split; [exact Hft|].
    split; [rewrite Hdisk; reflexivity|].
    split; [exact Hname|]. split; [exact Horig|]. split; [exact Htype|].
    split; [exact Hsize|exact Huser].
Defined.

(** The field [uuid] is read from [dzuuid], the field [chunkindex] from
    [dzchunkindex], and [name] stays. *)
Lemma remapDropzone_spec_witness :
  remapDropzone (map_to_list sampleBody).*1 sampleBody !! "uuid" = Some "u1"
  /\ remapDropzone (map_to_list sampleBody).*1 sampleBody !! "chunkindex"
     = Some "3"
  /\ remapDropzone (map_to_list sampleBody).*1 sampleBody !! "name"
     = Some "cat.png"
  /\ remapDropzone (map_to_list sampleBody).*1 sampleBody !! "dzuuid" = None.
Proof.
  pose proof (remapDropzone_spec (map_to_list sampleBody).*1 sampleBody
                (reflexivity _)) as H.
  assert (Forall (fun key => String.prefix "dzdz" key = false)
                 (map_to_list sampleBody).*1) as Hkeys.
  { vm_compute. repeat constructor. }
  specialize (H Hkeys).
  split; [rewrite H; reflexivity|]. split; [rewrite H; reflexivity|].
  split; rewrite H; reflexivity.
Defined.

(** A file sent with a chunk index, and a plain one. *)
Lemma multerFile_without_chunks_witness :
  (exists description,
     multerFile sampleHost plainConfig None (map_to_list sampleBody).*1
       sampleBody samplePart emptyState
     = (Thrown description, emptyState))
  /\ disk (snd (multerFile sampleHost plainConfig None [] ∅
                  samplePart emptyState))
     = {[ "uploads/aaaaaaaaaaaaaaaaaaaaaaaaaaaaaaaa.png" := sampleBytes ]}.
Proof.
  split.
  - apply (multerFile_without_chunks sampleHost plainConfig None
             (map_to_list sampleBody).*1 sampleBody samplePart
             emptyState eq_refl).
    vm_compute. by eexists.
  - destruct (multerFile_without_chunks sampleHost plainConfig None [] ∅
                samplePart emptyState eq_refl)
      as (_ & _ & _ & Hstored).
    destruct (Hstored _ _ eq_refl) as (_ & _ & _ & _ & ->). reflexivity.
Defined.

(** The moderator asks for the uploads of everybody. *)
Lemma listQuery_ip_column_witness :
  true = true /\ header_truthy (Some "1") = true.
Proof.
  refine (listQuery_ip_column sampleHost sampleConfig sampleUsers 0 true
            sampleModerator
            {| l_all := Some "1"; l_filters := None; l_minoffset := Some 0;
               l_id := None; l_page := None |}
            _ eq_refl _).
  cbn. rewrite !elem_of_cons. tauto.
Defined.

(** The session of three fragments, finalised where files may have two
    megabytes. *)
Lemma too_many_chunks_refused_witness :
  finishChunks sampleHost tinyConfig sampleRequest None [sampleFinish 6]
    sampleSession
  = (RespFailure 400 "Too many chunks.", snd (cleanUpChunks "u1" sampleSession)).
Proof.
  apply (too_many_chunks_refused sampleHost tinyConfig sampleRequest None
           (sampleFinish 6) "u1"
           {| root := "chunks/u1"; chunks := ["2"; "0"; "1"]; csize := 6 |}
           sampleSession eq_refl eq_refl eq_refl).
  - reflexivity.
  - cbn. lia.
Defined.
